(** * The move-selection service of ChessVariants (services/chessAI.ts)

    A shallow embedding of the [ChessAI] class: the engine session, its
    message handlers and timers, the position evaluator, the four heuristic
    selectors and the dispatcher [getBestMove], followed by the properties
    the specification states about them.

    The chess rules library (chess.js) and the engine (a Stockfish worker)
    are not part of the repository.  The rules library is an interface
    ([ChessJs.Api]); the engine is the stream of lines it sends back (the
    [inbox] of the state) and the log of the lines posted to it. *)

From Stdlib Require Import ZArith List String Ascii Bool Lia DecimalString.
Import ListNotations.
Local Open Scope string_scope.
Local Open Scope Z_scope.

(** ** JavaScript primitives used by the service *)

Module Js.

(** Numbers, as far as the service meets them: doubles whose value is an
    integer, the two infinities and NaN.  The sums and differences the
    service forms stay far below 2^53, where they are exact; a run of digits
    read by [parseInt] is rounded to a double by [toDouble] below. *)
Inductive number := Int (z : Z) | Infinity | NegInfinity | NaN.

(** [a < b] *)
Definition lt (a b : number) : bool :=
  match a, b with
  | Int x, Int y => x <? y
  | Int _, Infinity => true
  | NegInfinity, Int _ => true
  | NegInfinity, Infinity => true
  | _, _ => false
  end.

(** [a <= b] *)
Definition le (a b : number) : bool :=
  match a, b with
  | Int x, Int y => x <=? y
  | Int _, Infinity => true
  | NegInfinity, Int _ => true
  | NegInfinity, Infinity => true
  | NegInfinity, NegInfinity => true
  | Infinity, Infinity => true
  | _, _ => false
  end.

(** [a + b] *)
Definition add (a b : number) : number :=
  match a, b with
  | NaN, _ | _, NaN => NaN
  | Int x, Int y => Int (x + y)
  | Infinity, NegInfinity | NegInfinity, Infinity => NaN
  | Infinity, _ | _, Infinity => Infinity
  | NegInfinity, _ | _, NegInfinity => NegInfinity
  end.

(** [-a] *)
Definition neg (a : number) : number :=
  match a with
  | Int x => Int (- x)
  | Infinity => NegInfinity
  | NegInfinity => Infinity
  | NaN => NaN
  end.

(** [a - b] *)
Definition sub (a b : number) : number := add a (neg b).

(** [Math.abs] *)
Definition abs (a : number) : number :=
  match a with
  | Int x => Int (Z.abs x)
  | Infinity | NegInfinity => Infinity
  | NaN => NaN
  end.

(** [Math.max] of two arguments *)
Definition max (a b : number) : number :=
  match a, b with
  | NaN, _ | _, NaN => NaN
  | Int x, Int y => Int (Z.max x y)
  | Infinity, _ | _, Infinity => Infinity
  | NegInfinity, c | c, NegInfinity => c
  end.

(** Decimal text of an integer, as a template literal prints it for a
    magnitude below 10^21 (from there on JavaScript prints an exponent); the
    depths, skill levels and move times of the settings are such integers. *)
Definition string_of_Z (z : Z) : string := NilEmpty.string_of_int (Z.to_int z).

(** [String(n)] *)
Definition toString (a : number) : string :=
  match a with
  | Int x => string_of_Z x
  | Infinity => "Infinity"
  | NegInfinity => "-Infinity"
  | NaN => "NaN"
  end.

(** [s.startsWith(pat)] *)
Definition startsWith (s pat : string) : bool := prefix pat s.

(** [s.includes(pat)] *)
Fixpoint includes (s pat : string) : bool :=
  prefix pat s ||
  match s with
  | EmptyString => false
  | String _ s' => includes s' pat
  end.

(** [s.split(sep)] for a one-character separator; never the empty list. *)
Fixpoint split (s : string) (sep : ascii) : list string :=
  match s with
  | EmptyString => [EmptyString]
  | String c s' =>
      if Ascii.eqb c sep then EmptyString :: split s' sep
      else match split s' sep with
           | part :: parts => String c part :: parts
           | [] => [String c EmptyString]
           end
  end.

(** [s.substring(start, stop)], for [start <= stop]; both ends are clamped
    to the length of [s]. *)
Definition substring (start stop : nat) (s : string) : string :=
  String.substring start (stop - start) s.

(** [s.substring(start)] *)
Definition substringFrom (start : nat) (s : string) : string :=
  String.substring start (String.length s - start) s.

(** [s.charCodeAt(i)]; NaN past the end. *)
Definition charCodeAt (s : string) (i : nat) : number :=
  match String.get i s with
  | Some c => Int (Z.of_nat (nat_of_ascii c))
  | None => NaN
  end.

(** [s[i]]: a one-character string, or [undefined]. *)
Definition charAt (s : string) (i : nat) : option string :=
  match String.get i s with
  | Some c => Some (String c EmptyString)
  | None => None
  end.

(** [String.fromCharCode(n)] for a code below 256. *)
Definition fromCharCode (n : nat) : string := String (ascii_of_nat n) EmptyString.

Definition is_digit (c : ascii) : bool :=
  (48 <=? nat_of_ascii c)%nat && (nat_of_ascii c <=? 57)%nat.

(** The longest prefix of decimal digits. *)
Fixpoint digits_prefix (s : string) : string :=
  match s with
  | String c s' => if is_digit c then String c (digits_prefix s') else EmptyString
  | EmptyString => EmptyString
  end.

Fixpoint value_of_digits (acc : Z) (s : string) : Z :=
  match s with
  | String c s' => value_of_digits (10 * acc + (Z.of_nat (nat_of_ascii c) - 48)) s'
  | EmptyString => acc
  end.

(** The natural number [m] rounded to the nearest number with a 53-bit
    significand, ties to the even one. *)
Definition roundToSignificand (m : Z) : Z :=
  let bits := Z.log2 m + 1 in
  if bits <=? 53 then m
  else
    let shift := bits - 53 in
    let q := Z.shiftr m shift in
    let rest := m - Z.shiftl q shift in
    let half := Z.shiftl 1 (shift - 1) in
    let up := (half <? rest) || ((rest =? half) && Z.odd q) in
    Z.shiftl (if up then q + 1 else q) shift.

(** The double nearest to the integer [z]: [z] itself up to 2^53 in
    magnitude, a rounded value above, an infinity where the rounded value
    reaches 2^1024. *)
Definition toDouble (z : Z) : number :=
  let m := roundToSignificand (Z.abs z) in
  if 2 ^ 1024 <=? m then (if z <? 0 then NegInfinity else Infinity)
  else Int (if z <? 0 then - m else m).

(** [parseInt(s)] in radix 10: an optional sign, then the longest run of
    digits, as the nearest double; NaN when there is no digit.  (The
    service passes a capture of [-?\d+] or a single character, so leading
    blanks and the [0x] prefix, which [parseInt] also accepts, do not
    arise.  The language lets an engine approximate the digits after the
    twentieth; the value is taken correctly rounded here, as V8 computes
    it.) *)
Definition parseInt (s : string) : number :=
  let '(negative, body) :=
    match s with
    | String "-"%char s' => (true, s')
    | String "+"%char s' => (false, s')
    | _ => (false, s)
    end in
  match digits_prefix body with
  | EmptyString => NaN
  | ds => toDouble (if negative then - value_of_digits 0 ds else value_of_digits 0 ds)
  end.

(** [parseInt(x)] where [x] may be [undefined]. *)
Definition parseIntOpt (x : option string) : number :=
  match x with
  | Some s => parseInt s
  | None => NaN
  end.

(** The capture group of [/score cp (-?\d+)/] when the text right after
    [score cp ] is [s]. *)
Definition score_capture (s : string) : option string :=
  let '(sign, body) :=
    match s with
    | String "-"%char s' => ("-", s')
    | _ => (EmptyString, s)
    end in
  match digits_prefix body with
  | EmptyString => None
  | ds => Some (sign ++ ds)
  end.

(** [s.match(/score cp (-?\d+)/)]: group 1 of the leftmost match. *)
Fixpoint match_score_cp (s : string) : option string :=
  let here :=
    if prefix "score cp " s then score_capture (substringFrom 9 s) else None in
  match here with
  | Some capture => Some capture
  | None =>
      match s with
      | String _ s' => match_score_cp s'
      | EmptyString => None
      end
  end.

(** A value of [Math.random()]: a rational in [0, 1). *)
Record unit_real := {
  numerator : Z;
  denominator : positive;
  in_unit : (0 <=? numerator) && (numerator <? Zpos denominator) = true
}.

(** [Math.floor(r * n)] for a list length [n], with the product taken
    exactly where the source rounds it to a double. *)
Definition floor_scaled (r : unit_real) (n : nat) : nat :=
  Z.to_nat (numerator r * Z.of_nat n / Zpos (denominator r)).

End Js.

(** ** Data model of the service *)

Inductive AILevel :=
  easy | medium | hard | worstfish | random | huddle | swarm | custom.

Record AISettings := {
  level : AILevel;
  depth : option Z;
  time : option Z;
  nodes : option Z;
  eloRating : option Z;
  limitStrength : option bool;
  skillLevel : option Z
}.

Record AIMove := {
  from : string;
  to : string;
  promotion : option string
}.

Definition plain (l : AILevel) : AISettings :=
  {| level := l; depth := None; time := None; nodes := None;
     eloRating := None; limitStrength := None; skillLevel := None |}.

(** [DEFAULT_SETTINGS] *)
Definition DEFAULT_SETTINGS (l : AILevel) : option AISettings :=
  match l with
  | easy => Some {| level := easy; depth := None; time := Some 500; nodes := None;
                    eloRating := Some 1320; limitStrength := Some true; skillLevel := Some 1 |}
  | medium => Some {| level := medium; depth := None; time := Some 1000; nodes := None;
                      eloRating := Some 1800; limitStrength := Some true; skillLevel := Some 8 |}
  | hard => Some {| level := hard; depth := None; time := Some 2000; nodes := None;
                    eloRating := Some 2400; limitStrength := Some true; skillLevel := Some 15 |}
  | worstfish => Some {| level := worstfish; depth := Some 8; time := None; nodes := None;
                         eloRating := None; limitStrength := None; skillLevel := None |}
  | random => Some (plain random)
  | huddle => Some (plain huddle)
  | swarm => Some (plain swarm)
  | custom => None
  end.

(** [Partial<AISettings>]: every field may be absent. *)
Module Partial.
Record t := {
  level : option AILevel;
  depth : option Z;
  time : option Z;
  nodes : option Z;
  eloRating : option Z;
  limitStrength : option bool;
  skillLevel : option Z
}.
End Partial.

(** [getSettingsForLevel] (lines 602-608): for [custom] with settings
    given, the object [{ level: 'custom', ...customSettings }], in which a
    level carried by [customSettings] replaces ['custom']; otherwise the
    table entry, or the one of [medium] where the table has none. *)
Definition getSettingsForLevel (l : AILevel) (customSettings : option Partial.t)
    : AISettings :=
  let fromTable :=
    match DEFAULT_SETTINGS l with
    | Some settings => settings
    | None =>
        {| level := medium; depth := None; time := Some 1000; nodes := None;
           eloRating := Some 1800; limitStrength := Some true; skillLevel := Some 8 |}
    end in
  match l, customSettings with
  | custom, Some c =>
      {| level := match Partial.level c with Some l' => l' | None => custom end;
         depth := Partial.depth c; time := Partial.time c; nodes := Partial.nodes c;
         eloRating := Partial.eloRating c; limitStrength := Partial.limitStrength c;
         skillLevel := Partial.skillLevel c |}
  | _, _ => fromTable
  end.

(** ** The rules library, as the service uses it *)

Module ChessJs.

Inductive Color := White | Black.
Inductive PieceSymbol := Pawn | Knight | Bishop | Rook | Queen | King.

Record Piece := { type : PieceSymbol; color : Color }.

(** A verbose move object; the service reads [from], [to] and
    [promotion] and hands the object back to [move]. *)
Record Move := {
  from : string;
  to : string;
  promotion : option string;
  san : string
}.

Definition color_eqb (a b : Color) : bool :=
  match a, b with
  | White, White | Black, Black => true
  | _, _ => false
  end.

Definition is_king (t : PieceSymbol) : bool :=
  match t with King => true | _ => false end.

(** [new Chess(fen)], [fen()], [turn()], [board()] (row 0 is rank 8, always
    8 by 8), [moves({verbose: true})] and [move(m)].  [move] mutates the game
    it is called on; the service calls it on fresh copies only, so it is a
    function here.  [Chess fen] is the game of a FEN text the library
    accepts: the constructor throws on any other text, and it accepts none
    without a king of each colour.  What is proved of a selector that
    loads the position is proved of such texts. *)
Class Api := {
  Game : Type;
  Chess : string -> Game;
  fen : Game -> string;
  turn : Game -> Color;
  board : Game -> nat -> nat -> option Piece;
  moves : Game -> list Move;
  move : Game -> Move -> Game
}.

End ChessJs.

(** ** The engine session and its host

    The fields of the [ChessAI] object, the variables its closures capture,
    and what the host provides: timers, the clock, the lines the engine will
    send, and [Math.random]. *)

(** The three promise executors of the class: the engine search of
    [getBestMove], [evaluatePosition] (capturing its depth), and the bare
    [setTimeout] promise of the minimum delay. *)
Inductive Kind := Search | Evaluate (targetDepth : Z) | Sleep.

Inductive Value :=
  VMove (m : option AIMove) | VScore (score : Js.number) | VUnit.

Inductive Settlement := Resolved (v : Value) | Rejected (e : string).

(** One promise with what its handler and its timer callback share: the
    [resolved] flag, and the settlement once [resolve] or [reject] ran. *)
Record Request := {
  kind : Kind;
  resolved : bool;
  settled : option Settlement
}.

(** How an [async] call ends: with a value, with an exception, or never
    (the awaited promise is never settled). *)
Inductive Completion (A : Type) := Normal (a : A) | Throw (e : string) | Never.
Arguments Normal {A} a.
Arguments Throw {A} e.
Arguments Never {A}.

(** Instrumentation (no field of the class): one entry per call of
    [evaluatePosition], with the way the call ended. *)
Record Evaluation := {
  position : string;
  atDepth : Z;
  outcome : Completion Js.number
}.

Record State := {
  (** [this.worker]: null, or the worker as the lines posted to it *)
  worker : option (list string);
  isReady : bool;
  (** [this.messageHandlers]: the handler closures, by request number *)
  messageHandlers : list nat;
  (** [uciReceived] of the worker's [onmessage] *)
  uciReceived : bool;
  requests : nat -> Request;
  fresh : nat;
  (** armed timers in the order they were set: request number, due time *)
  timers : list (nat * Z);
  (** [Date.now()] *)
  now : Z;
  (** lines the engine will send, each with its arrival time *)
  inbox : list (Z * string);
  (** the values [Math.random()] returns, and how many were taken *)
  entropy : nat -> Js.unit_real;
  drawn : nat;
  evaluations : list Evaluation
}.

Definition set_worker (x : option (list string)) (s : State) : State :=
  {| worker := x; isReady := isReady s; messageHandlers := messageHandlers s;
     uciReceived := uciReceived s; requests := requests s; fresh := fresh s;
     timers := timers s; now := now s; inbox := inbox s; entropy := entropy s;
     drawn := drawn s; evaluations := evaluations s |}.

Definition set_isReady (x : bool) (s : State) : State :=
  {| worker := worker s; isReady := x; messageHandlers := messageHandlers s;
     uciReceived := uciReceived s; requests := requests s; fresh := fresh s;
     timers := timers s; now := now s; inbox := inbox s; entropy := entropy s;
     drawn := drawn s; evaluations := evaluations s |}.

Definition set_messageHandlers (x : list nat) (s : State) : State :=
  {| worker := worker s; isReady := isReady s; messageHandlers := x;
     uciReceived := uciReceived s; requests := requests s; fresh := fresh s;
     timers := timers s; now := now s; inbox := inbox s; entropy := entropy s;
     drawn := drawn s; evaluations := evaluations s |}.

Definition set_uciReceived (x : bool) (s : State) : State :=
  {| worker := worker s; isReady := isReady s; messageHandlers := messageHandlers s;
     uciReceived := x; requests := requests s; fresh := fresh s;
     timers := timers s; now := now s; inbox := inbox s; entropy := entropy s;
     drawn := drawn s; evaluations := evaluations s |}.

Definition set_requests (x : nat -> Request) (s : State) : State :=
  {| worker := worker s; isReady := isReady s; messageHandlers := messageHandlers s;
     uciReceived := uciReceived s; requests := x; fresh := fresh s;
     timers := timers s; now := now s; inbox := inbox s; entropy := entropy s;
     drawn := drawn s; evaluations := evaluations s |}.

Definition set_fresh (x : nat) (s : State) : State :=
  {| worker := worker s; isReady := isReady s; messageHandlers := messageHandlers s;
     uciReceived := uciReceived s; requests := requests s; fresh := x;
     timers := timers s; now := now s; inbox := inbox s; entropy := entropy s;
     drawn := drawn s; evaluations := evaluations s |}.

Definition set_timers (x : list (nat * Z)) (s : State) : State :=
  {| worker := worker s; isReady := isReady s; messageHandlers := messageHandlers s;
     uciReceived := uciReceived s; requests := requests s; fresh := fresh s;
     timers := x; now := now s; inbox := inbox s; entropy := entropy s;
     drawn := drawn s; evaluations := evaluations s |}.

Definition set_now (x : Z) (s : State) : State :=
  {| worker := worker s; isReady := isReady s; messageHandlers := messageHandlers s;
     uciReceived := uciReceived s; requests := requests s; fresh := fresh s;
     timers := timers s; now := x; inbox := inbox s; entropy := entropy s;
     drawn := drawn s; evaluations := evaluations s |}.

Definition set_inbox (x : list (Z * string)) (s : State) : State :=
  {| worker := worker s; isReady := isReady s; messageHandlers := messageHandlers s;
     uciReceived := uciReceived s; requests := requests s; fresh := fresh s;
     timers := timers s; now := now s; inbox := x; entropy := entropy s;
     drawn := drawn s; evaluations := evaluations s |}.

Definition set_drawn (x : nat) (s : State) : State :=
  {| worker := worker s; isReady := isReady s; messageHandlers := messageHandlers s;
     uciReceived := uciReceived s; requests := requests s; fresh := fresh s;
     timers := timers s; now := now s; inbox := inbox s; entropy := entropy s;
     drawn := x; evaluations := evaluations s |}.

Definition set_evaluations (x : list Evaluation) (s : State) : State :=
  {| worker := worker s; isReady := isReady s; messageHandlers := messageHandlers s;
     uciReceived := uciReceived s; requests := requests s; fresh := fresh s;
     timers := timers s; now := now s; inbox := inbox s; entropy := entropy s;
     drawn := drawn s; evaluations := x |}.

(** *** The state monad of the class's methods *)

Definition M (A : Type) : Type := State -> Completion A * State.

Definition ret {A} (a : A) : M A := fun s => (Normal a, s).

Definition throw {A} (e : string) : M A := fun s => (Throw e, s).

Definition bind {A B} (m : M A) (f : A -> M B) : M B :=
  fun s =>
    match m s with
    | (Normal a, s') => f a s'
    | (Throw e, s') => (Throw e, s')
    | (Never, s') => (Never, s')
    end.

Notation "x <- m ;; k" := (bind m (fun x => k))
  (at level 61, m at next level, right associativity).

(** *** Closure variables, handlers list, worker, timers *)

Definition update (f : nat -> Request) (rid : nat) (r : Request) : nat -> Request :=
  fun i => if Nat.eqb i rid then r else f i.

Definition request (rid : nat) (s : State) : Request := requests s rid.

(** [resolved = true] in the closure of request [rid] *)
Definition markResolved (rid : nat) (s : State) : State :=
  let r := request rid s in
  set_requests
    (update (requests s) rid {| kind := kind r; resolved := true; settled := settled r |}) s.

(** [resolve(v)] and [reject(e)]: a promise is settled once, later calls
    have no effect. *)
Definition settle (rid : nat) (o : Settlement) (s : State) : State :=
  let r := request rid s in
  match settled r with
  | Some _ => s
  | None =>
      set_requests
        (update (requests s) rid {| kind := kind r; resolved := resolved r; settled := Some o |}) s
  end.

Definition resolve (rid : nat) (v : Value) : State -> State := settle rid (Resolved v).
Definition reject (rid : nat) (e : string) : State -> State := settle rid (Rejected e).

(** [new Promise(...)]: a fresh request, nothing resolved yet. *)
Definition newPromise (k : Kind) (s : State) : nat * State :=
  let rid := fresh s in
  (rid,
   set_fresh (S rid)
     (set_requests
        (update (requests s) rid {| kind := k; resolved := false; settled := None |}) s)).

Fixpoint remove_first (x : nat) (l : list nat) : list nat :=
  match l with
  | [] => []
  | y :: l' => if Nat.eqb x y then l' else y :: remove_first x l'
  end.

(** [this.messageHandlers.push(messageHandler)] *)
Definition pushHandler (rid : nat) (s : State) : State :=
  set_messageHandlers (messageHandlers s ++ [rid])%list s.

(** [const index = this.messageHandlers.indexOf(messageHandler);
     if (index > -1) this.messageHandlers.splice(index, 1)] *)
Definition removeHandler (rid : nat) (s : State) : State :=
  set_messageHandlers (remove_first rid (messageHandlers s)) s.

(** [this.worker!.postMessage(line)]; the callers have checked that the
    worker is there. *)
Definition postMessage (line : string) (s : State) : State :=
  match worker s with
  | Some sent => set_worker (Some (sent ++ [line])%list) s
  | None => s
  end.

(** [setTimeout(callback, delay)], the callback being the one of request
    [rid]. *)
Definition setTimeout (rid : nat) (delay : Z) (s : State) : State :=
  set_timers (timers s ++ [(rid, now s + Z.max 0 delay)])%list s.

(** [clearTimeout(timeout)] *)
Definition clearTimeout (rid : nat) (s : State) : State :=
  set_timers (filter (fun t => negb (Nat.eqb (fst t) rid)) (timers s)) s.

(** *** The message handlers *)

(** The parse of a [bestmove] line (lines 186-204): the second
    blank-separated part, cut at fixed positions. *)
Definition parseBestMove (message : string) : option AIMove :=
  let parts := Js.split message " "%char in
  match nth_error parts 1 with
  | None => None
  | Some moveString =>
      if String.eqb moveString "" || String.eqb moveString "(none)" then None
      else
        let from := Js.substring 0 2 moveString in
        let to := Js.substring 2 4 moveString in
        let promotion :=
          if (4 <? String.length moveString)%nat
          then Some (Js.substringFrom 4 moveString) else None in
        Some {| from := from; to := to; promotion := promotion |}
  end.

(** [messageHandler] of [getBestMove] (lines 172-206). *)
Definition searchHandler (rid : nat) (message : string) (s : State) : State :=
  if Js.startsWith message "bestmove" && negb (resolved (request rid s)) then
    let s := markResolved rid s in
    let s := removeHandler rid s in
    let s := clearTimeout rid s in
    resolve rid (VMove (parseBestMove message)) s
  else s.

(** [messageHandler] of [evaluatePosition] (lines 348-377). *)
Definition evaluationHandler (rid : nat) (depth : Z) (message : string) (s : State) : State :=
  if Js.startsWith message "info" && Js.includes message "score cp"
     && negb (resolved (request rid s)) then
    match Js.match_score_cp message with
    | Some capture =>
        let score := Js.parseInt capture in
        if Js.includes message ("depth " ++ Js.string_of_Z depth) then
          let s := markResolved rid s in
          let s := removeHandler rid s in
          let s := clearTimeout rid s in
          resolve rid (VScore score) s
        else s
    | None => s
    end
  else if Js.startsWith message "bestmove" && negb (resolved (request rid s)) then
    let s := markResolved rid s in
    let s := removeHandler rid s in
    let s := clearTimeout rid s in
    resolve rid (VScore (Js.Int 0)) s
  else s.

(** Calling the handler closure of request [rid]. *)
Definition callHandler (rid : nat) (message : string) (s : State) : State :=
  match kind (request rid s) with
  | Search => searchHandler rid message s
  | Evaluate depth => evaluationHandler rid depth message s
  | Sleep => s
  end.

(** The callbacks given to [setTimeout] (lines 212-222, 383-392, and the
    [resolve] of the delay promise). *)
Definition timeoutCallback (rid : nat) (s : State) : State :=
  match kind (request rid s) with
  | Search =>
      if negb (resolved (request rid s)) then
        let s := markResolved rid s in
        let s := removeHandler rid s in
        resolve rid (VMove None) s
      else s
  | Evaluate _ =>
      if negb (resolved (request rid s)) then
        let s := markResolved rid s in
        let s := removeHandler rid s in
        reject rid "Position evaluation timed out" s
      else s
  | Sleep => resolve rid VUnit s
  end.

(** [this.messageHandlers.forEach(handler => handler(message))]: the bound
    is the length when the loop starts; an index the array no longer has
    (a handler spliced itself out) is skipped. *)
Fixpoint forEachHandler (count index : nat) (message : string) (s : State) : State :=
  match count with
  | O => s
  | S count' =>
      let s' :=
        match nth_error (messageHandlers s) index with
        | Some handler => callHandler handler message s
        | None => s
        end in
      forEachHandler count' (S index) message s'
  end.

(** [this.worker.onmessage] (lines 56-80), once the handshake that set
    [uciReceived] is under way. *)
Definition onmessage (message : string) (s : State) : State :=
  if String.eqb message "uciok" then
    postMessage "isready" (set_uciReceived true s)
  else if String.eqb message "readyok" then
    if uciReceived s then set_isReady true s else s
  else forEachHandler (List.length (messageHandlers s)) 0 message s.

(** *** The event loop *)

(** The timer that is due first; among equal due times, the one set first. *)
Fixpoint earliest (ts : list (nat * Z)) : option (nat * Z) :=
  match ts with
  | [] => None
  | t :: ts' =>
      match earliest ts' with
      | Some u => if snd u <? snd t then Some u else Some t
      | None => Some t
      end
  end.

Fixpoint disarm (t : nat * Z) (ts : list (nat * Z)) : list (nat * Z) :=
  match ts with
  | [] => []
  | u :: ts' =>
      if Nat.eqb (fst t) (fst u) && (snd t =? snd u) then ts' else u :: disarm t ts'
  end.

(** A timer fires: the clock has reached its due time, its callback runs. *)
Definition fire (t : nat * Z) (s : State) : State :=
  timeoutCallback (fst t) (set_now (Z.max (now s) (snd t)) (set_timers (disarm t (timers s)) s)).

(** A line from the engine arrives; a terminated worker delivers nothing. *)
Definition deliver (at_ : Z) (message : string) (s : State) : State :=
  let s := set_now (Z.max (now s) at_) s in
  match worker s with
  | Some _ => onmessage message s
  | None => s
  end.

(** One turn of the event loop: the next engine line, or the timer that is
    due no later than it.  [None]: nothing is left to happen. *)
Definition tick (s : State) : option State :=
  match inbox s, earliest (timers s) with
  | (at_, message) :: rest, Some t =>
      if snd t <=? at_ then Some (fire t s)
      else Some (deliver at_ message (set_inbox rest s))
  | (at_, message) :: rest, None => Some (deliver at_ message (set_inbox rest s))
  | [], Some t => Some (fire t s)
  | [], None => None
  end.

Fixpoint run (fuel : nat) (rid : nat) (s : State) : Completion Value * State :=
  match settled (request rid s) with
  | Some (Resolved v) => (Normal v, s)
  | Some (Rejected e) => (Throw e, s)
  | None =>
      match fuel with
      | O => (Never, s)
      | S fuel' =>
          match tick s with
          | Some s' => run fuel' rid s'
          | None => (Never, s)
          end
      end
  end.

(** [await promise]: the event loop turns until the promise is settled.
    Every turn consumes a line or a timer, so the bound is exact. *)
Definition await (rid : nat) : M Value :=
  fun s => run (List.length (inbox s) + List.length (timers s)) rid s.

(** [await new Promise(resolve => setTimeout(resolve, ms))] *)
Definition sleep (ms : Z) : M unit :=
  fun s =>
    let '(rid, s) := newPromise Sleep s in
    let s := setTimeout rid ms s in
    (_ <- await rid ;; ret tt) s.

(** The value of a settled promise, read at the type its consumer expects. *)
Definition asMove (v : Value) : option AIMove :=
  match v with VMove m => m | _ => None end.

Definition asScore (v : Value) : Js.number :=
  match v with VScore n => n | _ => Js.NaN end.

Definition isNull {A} (x : option A) : bool :=
  match x with Some _ => false | None => true end.

(** [x || fallback] on an optional number: [undefined] and [0] are falsy. *)
Definition orElse (x : option Z) (fallback : Z) : Z :=
  match x with
  | Some v => if v =? 0 then fallback else v
  | None => fallback
  end.

(** Truthiness of an optional number and of an optional flag. *)
Definition truthy (x : option Z) : bool :=
  match x with Some v => negb (v =? 0) | None => false end.

Definition isTrue (x : option bool) : bool :=
  match x with Some v => v | None => false end.

(** An optional number inside a template literal. *)
Definition interpolate (x : option Z) : string :=
  match x with Some v => Js.string_of_Z v | None => "undefined" end.

(** [!this.isReady || !this.worker] *)
Definition notReady (s : State) : bool := negb (isReady s) || isNull (worker s).

(** ** The methods of [ChessAI] *)

Section Service.

Context {chess : ChessJs.Api}.

(** The object literal [{ from: move.from, to: move.to, promotion:
    move.promotion }] *)
Definition toAIMove (mv : ChessJs.Move) : AIMove :=
  {| from := ChessJs.from mv; to := ChessJs.to mv; promotion := ChessJs.promotion mv |}.

(** [Math.random()] *)
Definition mathRandom : M Js.unit_real :=
  fun s => (Normal (entropy s (drawn s)), set_drawn (S (drawn s)) s).

(** [legalMoves[Math.floor(Math.random() * legalMoves.length)]], then the
    read of its fields, which throws on [undefined]. *)
Definition randomLegalMove (legalMoves : list ChessJs.Move) : M (option AIMove) :=
  r <- mathRandom ;;
  match nth_error legalMoves (Js.floor_scaled r (List.length legalMoves)) with
  | Some randomMove => ret (Some (toAIMove randomMove))
  | None => throw "TypeError: Cannot read properties of undefined"
  end.

(** The promise executor of [evaluatePosition] (lines 345-397): handler,
    timer, then the two commands. *)
Definition startEvaluation (fen : string) (depth : Z) (s : State) : nat * State :=
  let '(rid, s) := newPromise (Evaluate depth) s in
  let s := pushHandler rid s in
  let s := setTimeout rid 3000 s in
  let s := postMessage ("position fen " ++ fen) s in
  let s := postMessage ("go depth " ++ Js.string_of_Z depth) s in
  (rid, s).

(** [evaluatePosition] (lines 340-398) *)
Definition evaluatePosition (fen : string) (depth : Z) : M Js.number :=
  fun s =>
    let '(r, s') :=
      if notReady s then (Throw "Stockfish is not ready", s)
      else
        let '(rid, s) := startEvaluation fen depth s in
        (v <- await rid ;; ret (asScore v)) s in
    (r, set_evaluations
          (evaluations s' ++ [{| position := fen; atDepth := depth; outcome := r |}])%list s').

(** The loop of [getWorstMove] (lines 301-325); a rejected evaluation is
    caught and the loop goes on. *)
Fixpoint evaluateMoves (fen : string) (depth : Z) (legalMoves : list ChessJs.Move)
    (worstMove : option AIMove) (worstScore : Js.number) : M (option AIMove) :=
  match legalMoves with
  | [] => ret worstMove
  | mv :: rest =>
      fun s =>
        let newFen := ChessJs.fen (ChessJs.move (ChessJs.Chess fen) mv) in
        match evaluatePosition newFen depth s with
        | (Normal score, s') =>
            if Js.lt score worstScore
            then evaluateMoves fen depth rest (Some (toAIMove mv)) score s'
            else evaluateMoves fen depth rest worstMove worstScore s'
        | (Throw _, s') => evaluateMoves fen depth rest worstMove worstScore s'
        | (Never, s') => (Never, s')
        end
  end.

(** [getWorstMove] (lines 274-338) *)
Definition getWorstMove (fen : string) (settings : AISettings) : M (option AIMove) :=
  fun s =>
    if notReady s then (Throw "Stockfish is not ready", s)
    else
      let legalMoves := ChessJs.moves (ChessJs.Chess fen) in
      match legalMoves with
      | [] => (Normal None, s)
      | [mv] => (Normal (Some (toAIMove mv)), s)
      | _ =>
          (worstMove <- evaluateMoves fen (orElse (depth settings) 8) legalMoves None Js.Infinity ;;
           match worstMove with
           | None => randomLegalMove legalMoves
           | Some _ => ret worstMove
           end) s
      end.

(** [getRandomMove] (lines 400-416) *)
Definition getRandomMove (fen : string) : M (option AIMove) :=
  let legalMoves := ChessJs.moves (ChessJs.Chess fen) in
  match legalMoves with
  | [] => ret None
  | _ => randomLegalMove legalMoves
  end.

(** [{ file, rank }]: column and row index into [board()] *)
Record BoardPos := { file : Z; rank : Z }.

(** The order of the two nested loops [for rank ... for file ...]. *)
Definition cells : list (nat * nat) :=
  flat_map (fun rank => map (fun file => (rank, file)) (seq 0 8)) (seq 0 8).

(** The king search of both heuristics: the first cell, in loop order,
    holding a king of colour [c]. *)
Definition findKing (game : ChessJs.Game) (c : ChessJs.Color) : option BoardPos :=
  let isKing cell :=
    match ChessJs.board game (fst cell) (snd cell) with
    | Some piece =>
        ChessJs.is_king (ChessJs.type piece) && ChessJs.color_eqb (ChessJs.color piece) c
    | None => false
    end in
  match find isKing cells with
  | Some cell => Some {| file := Z.of_nat (snd cell); rank := Z.of_nat (fst cell) |}
  | None => None
  end.

(** [getChebyshevDistance] (lines 454-463 and 547-556) *)
Definition getChebyshevDistance (square : string) (target : BoardPos) : Js.number :=
  let squareFile := Js.sub (Js.charCodeAt square 0) (Js.Int 97) in
  let squareRank := Js.sub (Js.parseIntOpt (Js.charAt square 1)) (Js.Int 1) in
  let fileDiff := Js.abs (Js.sub squareFile (Js.Int (file target))) in
  let rankDiff := Js.abs (Js.sub squareRank (Js.Int (rank target))) in
  Js.max fileDiff rankDiff.

(** The square name built in the distance loops:
    [String.fromCharCode(97 + file) + (rank + 1).toString()] *)
Definition squareName (rank file : nat) : string :=
  Js.fromCharCode (97 + file) ++ Js.string_of_Z (Z.of_nat rank + 1).

(** The body shared by [getTotalDistanceToOurKing] and
    [getTotalDistanceToOpponentKing]: over the pieces of [currentTurn] on
    the board of [gameState], the distances to the captured king position. *)
Definition totalDistanceTo (currentTurn : ChessJs.Color) (target : BoardPos)
    (gameState : ChessJs.Game) : Js.number :=
  fold_left
    (fun totalDistance cell =>
       match ChessJs.board gameState (fst cell) (snd cell) with
       | Some piece =>
           if ChessJs.color_eqb (ChessJs.color piece) currentTurn
           then Js.add totalDistance
                  (getChebyshevDistance (squareName (fst cell) (snd cell)) target)
           else totalDistance
       | None => totalDistance
       end)
    cells (Js.Int 0).

(** The minimising loop of both heuristics (lines 488-500, 581-593). *)
Fixpoint closest (totalDistanceAfter : ChessJs.Move -> Js.number)
    (legalMoves : list ChessJs.Move) (bestMove : ChessJs.Move)
    (bestTotalDistance : Js.number) : ChessJs.Move :=
  match legalMoves with
  | [] => bestMove
  | mv :: rest =>
      let totalDistance := totalDistanceAfter mv in
      if Js.lt totalDistance bestTotalDistance
      then closest totalDistanceAfter rest mv totalDistance
      else closest totalDistanceAfter rest bestMove bestTotalDistance
  end.

(** [getHuddleMove] (lines 418-507) *)
Definition getHuddleMove (fen : string) : M (option AIMove) :=
  let testGame := ChessJs.Chess fen in
  let legalMoves := ChessJs.moves testGame in
  match legalMoves with
  | [] => ret None
  | first :: _ =>
      let currentTurn := ChessJs.turn testGame in
      match findKing testGame currentTurn with
      | None => randomLegalMove legalMoves
      | Some ourKingPos =>
          let getTotalDistanceToOurKing := totalDistanceTo currentTurn ourKingPos in
          let totalDistanceAfter mv :=
            getTotalDistanceToOurKing
              (ChessJs.move (ChessJs.Chess (ChessJs.fen testGame)) mv) in
          ret (Some (toAIMove (closest totalDistanceAfter legalMoves first Js.Infinity)))
      end
  end.

Definition opponent (c : ChessJs.Color) : ChessJs.Color :=
  match c with ChessJs.White => ChessJs.Black | ChessJs.Black => ChessJs.White end.

(** [getSwarmMove] (lines 509-600) *)
Definition getSwarmMove (fen : string) : M (option AIMove) :=
  let testGame := ChessJs.Chess fen in
  let legalMoves := ChessJs.moves testGame in
  match legalMoves with
  | [] => ret None
  | first :: _ =>
      let currentTurn := ChessJs.turn testGame in
      let opponentColor := opponent currentTurn in
      match findKing testGame opponentColor with
      | None => randomLegalMove legalMoves
      | Some opponentKingPos =>
          let getTotalDistanceToOpponentKing := totalDistanceTo currentTurn opponentKingPos in
          let totalDistanceAfter mv :=
            getTotalDistanceToOpponentKing
              (ChessJs.move (ChessJs.Chess (ChessJs.fen testGame)) mv) in
          ret (Some (toAIMove (closest totalDistanceAfter legalMoves first Js.Infinity)))
      end
  end.

(** The wait that ends every branch of [getBestMove]:
    [if (elapsedTime < minDelay) await new Promise(...)] *)
Definition minimumDelay (startTime minDelay : Z) : M unit :=
  fun s =>
    let elapsedTime := now s - startTime in
    if elapsedTime <? minDelay then sleep (minDelay - elapsedTime) s
    else (Normal tt, s).

(** The promise executor of the engine search (lines 169-256): handler,
    timer, then lines 224-255 post the commands. *)
Definition startSearch (fen : string) (settings : AISettings) (s : State) : nat * State :=
  let '(rid, s) := newPromise Search s in
  let s := pushHandler rid s in
  let s := setTimeout rid 5000 s in
  let s :=
    if isTrue (limitStrength settings) && truthy (eloRating settings) then
      let s := postMessage "setoption name UCI_LimitStrength value true" s in
      postMessage ("setoption name UCI_Elo value " ++ interpolate (eloRating settings)) s
    else postMessage "setoption name UCI_LimitStrength value false" s in
  let s :=
    match skillLevel settings with
    | Some n => postMessage ("setoption name Skill Level value " ++ Js.string_of_Z n) s
    | None => s
    end in
  let s := postMessage ("position fen " ++ fen) s in
  let searchCommand := "go" in
  let searchCommand :=
    match time settings, depth settings with
    | Some t, _ => searchCommand ++ " movetime " ++ Js.string_of_Z t
    | None, Some d => searchCommand ++ " depth " ++ Js.string_of_Z d
    | None, None => searchCommand
    end in
  let searchCommand :=
    match nodes settings with
    | Some n => searchCommand ++ " nodes " ++ Js.string_of_Z n
    | None => searchCommand
    end in
  let s := postMessage searchCommand s in
  (rid, s).

(** [await new Promise<AIMove | null>(...)] of the engine search *)
Definition engineSearch (fen : string) (settings : AISettings) : M (option AIMove) :=
  fun s =>
    let '(rid, s) := startSearch fen settings s in
    (v <- await rid ;; ret (asMove v)) s.

(** [getBestMove] (lines 108-272) *)
Definition getBestMove (fen : string) (settings : AISettings) (customDelay : option Z)
    : M (option AIMove) :=
  fun s =>
    let startTime := now s in
    match level settings with
    | worstfish =>
        (worstMove <- getWorstMove fen settings ;;
         _ <- minimumDelay startTime (orElse customDelay 500) ;;
         ret worstMove) s
    | random =>
        (randomMove <- getRandomMove fen ;;
         _ <- minimumDelay startTime (orElse customDelay 500) ;;
         ret randomMove) s
    | huddle =>
        (huddleMove <- getHuddleMove fen ;;
         _ <- minimumDelay startTime (orElse customDelay 500) ;;
         ret huddleMove) s
    | swarm =>
        (swarmMove <- getSwarmMove fen ;;
         _ <- minimumDelay startTime (orElse customDelay 500) ;;
         ret swarmMove) s
    | _ =>
        if notReady s then (Throw "Stockfish is not ready", s)
        else
          (mv <- engineSearch fen settings ;;
           let minDelay :=
             match time settings with
             | Some t =>
                 if negb (t =? 0) && (500 <=? t)
                 then Z.max (t + 100) (orElse customDelay (t + 100))
                 else orElse customDelay 500
             | None => orElse customDelay 500
             end in
           _ <- minimumDelay startTime minDelay ;;
           ret mv) s
    end.

End Service.

(** [terminate] (lines 610-616): the worker is dropped and the session is
    no longer ready; handlers and timers are left as they are. *)
Definition terminate (s : State) : State :=
  set_isReady false (set_worker None s).

(** ** [initialize] (lines 37-106)

    The promise bookkeeping of [initialize], on top of the session state,
    which already holds the worker, [isReady], the handler list and what
    the [onmessage] closure does to them.  A promise made by [initialize]
    is known by its number.  The session follows the lines of the worker
    made last: a worker that was replaced without being terminated is not
    followed any further. *)

Module Lifecycle.

Inductive Outcome :=
| Pending
| Fulfilled
| Failed (error : string).

Record Session := {
  service : State;
  (** [this.initializePromise] *)
  initializePromise : option nat;
  (** the promises made so far, and how many *)
  outcomes : nat -> Outcome;
  made : nat;
  (** the promise whose executor made the closures of the current worker *)
  listener : option nat;
  (** the 10000 ms timers that have not fired yet, by promise *)
  deadlines : list nat
}.

(** [resolve()] and [reject(...)]: the first settlement stands. *)
Definition settleWith (p : nat) (o : Outcome) (ss : Session) : nat -> Outcome :=
  match outcomes ss p with
  | Pending => fun q => if Nat.eqb q p then o else outcomes ss q
  | _ => outcomes ss
  end.

(** What [initialize] returns: [Promise.resolve()], or a promise of its
    own making. *)
Inductive Returned :=
| Settled
| Following (p : nat).

(** [initialize] (lines 37-106).  [failure] is the error [new Worker]
    throws, if it throws; [script] is what the new worker will say, and
    when.  In the [catch] branch the field is cleared inside the executor,
    and the assignment of line 48 then stores the rejected promise in it. *)
Definition initialize (failure : option string) (script : list (Z * string))
    (ss : Session) : Returned * Session :=
  let s := service ss in
  if negb (notReady s) then (Settled, ss)
  else
    match initializePromise ss with
    | Some p => (Following p, ss)
    | None =>
        let p := made ss in
        match failure with
        | None =>
            let s := set_worker (Some []) s in
            let s := set_inbox script s in
            let s := set_uciReceived false s in
            let s := postMessage "uci" s in
            (Following p,
             {| service := s;
                initializePromise := Some p;
                outcomes := fun q => if Nat.eqb q p then Pending else outcomes ss q;
                made := S p;
                listener := Some p;
                deadlines := (deadlines ss ++ [p])%list |})
        | Some error =>
            (Following p,
             {| service := s;
                initializePromise := Some p;
                outcomes := fun q => if Nat.eqb q p then Failed error else outcomes ss q;
                made := S p;
                listener := listener ss;
                deadlines := deadlines ss |})
        end
    end.

(** A line of the worker reaches the [onmessage] closure (lines 56-78):
    on [readyok] after [uciok] the field is cleared and the promise of the
    closure resolved; everything else is what [onmessage] does to the
    session state.  A terminated worker says nothing. *)
Definition receive (message : string) (ss : Session) : Session :=
  let s := service ss in
  match worker s with
  | None => ss
  | Some _ =>
      if String.eqb message "readyok" && uciReceived s then
        {| service := onmessage message s;
           initializePromise := None;
           outcomes := match listener ss with
                       | Some p => settleWith p Fulfilled ss
                       | None => outcomes ss
                       end;
           made := made ss;
           listener := listener ss;
           deadlines := deadlines ss |}
      else
        {| service := onmessage message s;
           initializePromise := initializePromise ss;
           outcomes := outcomes ss;
           made := made ss;
           listener := listener ss;
           deadlines := deadlines ss |}
  end.

(** The [onerror] closure of the current worker (lines 81-85). *)
Definition onerror (ss : Session) : Session :=
  match worker (service ss), listener ss with
  | Some _, Some p =>
      {| service := service ss;
         initializePromise := None;
         outcomes := settleWith p (Failed "Failed to initialize Stockfish worker") ss;
         made := made ss;
         listener := listener ss;
         deadlines := deadlines ss |}
  | _, _ => ss
  end.

(** The timer of promise [p] fires (lines 91-96), if it is still to fire. *)
Definition timeout (p : nat) (ss : Session) : Session :=
  if existsb (Nat.eqb p) (deadlines ss) then
    let rest := remove_first p (deadlines ss) in
    if isReady (service ss) then
      {| service := service ss;
         initializePromise := initializePromise ss;
         outcomes := outcomes ss;
         made := made ss;
         listener := listener ss;
         deadlines := rest |}
    else
      {| service := service ss;
         initializePromise := None;
         outcomes := settleWith p (Failed "Stockfish initialization timed out") ss;
         made := made ss;
         listener := listener ss;
         deadlines := rest |}
  else ss.

(** [terminate] (lines 610-616) leaves [initializePromise] and the timers
    as they are. *)
Definition terminate (ss : Session) : Session :=
  {| service := terminate (service ss);
     initializePromise := initializePromise ss;
     outcomes := outcomes ss;
     made := made ss;
     listener := listener ss;
     deadlines := deadlines ss |}.

(** What can happen to a session, in the order it happens. *)
Inductive Event :=
| Initialize (failure : option string) (script : list (Z * string))
| Receive (message : string)
| WorkerError
| Timeout (p : nat)
| Terminate.

Definition step (ss : Session) (e : Event) : Session :=
  match e with
  | Initialize failure script => snd (initialize failure script ss)
  | Receive message => receive message ss
  | WorkerError => onerror ss
  | Timeout p => timeout p ss
  | Terminate => terminate ss
  end.

Definition after (events : list Event) (ss : Session) : Session :=
  fold_left step events ss.

(** A session on which [initialize] has never been called, or on which
    every attempt has run its course: no worker, no promise, no timer. *)
Definition idle (ss : Session) : Prop :=
  worker (service ss) = None /\ isReady (service ss) = false
  /\ initializePromise ss = None /\ deadlines ss = [].

End Lifecycle.

(** ** chess.js on a handful of positions

    The behaviour of the rules library written out by hand for the
    positions the examples below use: the board and the side to move are
    read off the FEN text, the legal moves (in the library's generation
    order: squares from a8 to h1) and the position after each are listed. *)

Module Book.

Import ChessJs.

Definition piece_of_char (c : ascii) : option Piece :=
  match c with
  | "P"%char => Some {| type := Pawn; color := White |}
  | "N"%char => Some {| type := Knight; color := White |}
  | "B"%char => Some {| type := Bishop; color := White |}
  | "R"%char => Some {| type := Rook; color := White |}
  | "Q"%char => Some {| type := Queen; color := White |}
  | "K"%char => Some {| type := King; color := White |}
  | "p"%char => Some {| type := Pawn; color := Black |}
  | "n"%char => Some {| type := Knight; color := Black |}
  | "b"%char => Some {| type := Bishop; color := Black |}
  | "r"%char => Some {| type := Rook; color := Black |}
  | "q"%char => Some {| type := Queen; color := Black |}
  | "k"%char => Some {| type := King; color := Black |}
  | _ => None
  end.

(** One row of the placement field: a digit is that many empty squares. *)
Fixpoint row_of (s : string) : list (option Piece) :=
  match s with
  | EmptyString => []
  | String c s' =>
      if Js.is_digit c
      then (repeat None (nat_of_ascii c - 48) ++ row_of s')%list
      else piece_of_char c :: row_of s'
  end.

Definition field (i : nat) (fen : string) : string :=
  nth i (Js.split fen " "%char) EmptyString.

Definition board_of (fen : string) (row col : nat) : option Piece :=
  nth col (row_of (nth row (Js.split (field 0 fen) "/"%char) EmptyString)) None.

Definition turn_of (fen : string) : Color :=
  if String.eqb (field 1 fen) "b" then Black else White.

Definition mk (san from to : string) : Move :=
  {| from := from; to := to; promotion := None; san := san |}.

(** White king a8, pawns b6, f3, h3; black king e1, pawns f4, h4. *)
Definition cornered : string := "K7/8/1P6/8/5p1p/5P1P/8/4k3 w - - 0 1".

(** White king a1 alone against rook b8 and king h8: one legal move. *)
Definition forced : string := "1r5k/8/8/8/8/8/8/K7 w - - 0 1".

(** Fool's mate: White is checkmated. *)
Definition mated : string :=
  "rnb1kbnr/pppp1ppp/8/4p3/6Pq/5P2/PPPPP2P/RNBQKBNR w KQkq - 1 3".

(** Position, then its legal moves, each with the position it leads to. *)
Definition lines : list (string * list (Move * string)) :=
  [ (cornered,
     [ (mk "Kb8" "a8" "b8", "1K6/8/1P6/8/5p1p/5P1P/8/4k3 b - - 1 1");
       (mk "Kb7" "a8" "b7", "8/1K6/1P6/8/5p1p/5P1P/8/4k3 b - - 1 1");
       (mk "Ka7" "a8" "a7", "8/K7/1P6/8/5p1p/5P1P/8/4k3 b - - 1 1");
       (mk "b7" "b6" "b7", "K7/1P6/8/8/5p1p/5P1P/8/4k3 b - - 0 1") ]);
    (forced,
     [ (mk "Ka2" "a1" "a2", "1r5k/8/8/8/8/8/K7/8 b - - 1 1") ]);
    (mated, []) ].

Definition entry (fen : string) : list (Move * string) :=
  match find (fun l => String.eqb (fst l) fen) lines with
  | Some l => snd l
  | None => []
  end.

Definition same_move (a b : Move) : bool :=
  String.eqb (from a) (from b) && String.eqb (to a) (to b).

Definition after (fen : string) (mv : Move) : string :=
  match find (fun e => same_move (fst e) mv) (entry fen) with
  | Some e => snd e
  | None => fen
  end.

#[export] Instance api : Api := {|
  Game := string;
  Chess := fun fen => fen;
  fen := fun game => game;
  turn := turn_of;
  board := board_of;
  moves := fun game => map fst (entry game);
  move := after
|}.

(** A session after a successful handshake: worker live, nothing pending. *)
Definition ready (lines : list (Z * string)) (rnd : nat -> Js.unit_real) : State :=
  {| worker := Some ["uci"; "isready"]; isReady := true; messageHandlers := [];
     uciReceived := true;
     requests := fun _ => {| kind := Sleep; resolved := false; settled := None |};
     fresh := 0; timers := []; now := 0; inbox := lines; entropy := rnd;
     drawn := 0; evaluations := [] |}.

(** A session that was never initialised. *)
Definition cold (rnd : nat -> Js.unit_real) : State :=
  {| worker := None; isReady := false; messageHandlers := [];
     uciReceived := false;
     requests := fun _ => {| kind := Sleep; resolved := false; settled := None |};
     fresh := 0; timers := []; now := 0; inbox := []; entropy := rnd;
     drawn := 0; evaluations := [] |}.



(** [Math.random()] always returning 0, and always returning 1/2. *)
Definition zero : Js.unit_real :=
  {| Js.numerator := 0; Js.denominator := 1; Js.in_unit := eq_refl |}.

Definition half : Js.unit_real :=
  {| Js.numerator := 1; Js.denominator := 2; Js.in_unit := eq_refl |}.

End Book.

(** [new ChessAI()] (line 620): the singleton before any call. *)
Definition chessAI (rnd : nat -> Js.unit_real) : Lifecycle.Session :=
  {| Lifecycle.service := Book.cold rnd;
     Lifecycle.initializePromise := None;
     Lifecycle.outcomes := fun _ => Lifecycle.Pending;
     Lifecycle.made := 0;
     Lifecycle.listener := None;
     Lifecycle.deadlines := [] |}.

(** ** The specification's wording, for comparison with the code *)

Module Spec.

Section Words.

Context {chess : ChessJs.Api}.

(** Huddle as specified: after the move, the distances of the mover's
    pieces to the mover's king where it then stands. *)
Definition postMoveKingDistance (fen : string) (mv : ChessJs.Move) : Js.number :=
  let testGame := ChessJs.Chess fen in
  let currentTurn := ChessJs.turn testGame in
  let next := ChessJs.move (ChessJs.Chess (ChessJs.fen testGame)) mv in
  match findKing next currentTurn with
  | Some kingPos => totalDistanceTo currentTurn kingPos next
  | None => Js.NaN
  end.

(** Huddle as coded: the distances to the square the king stood on before
    the move. *)
Definition preMoveKingDistance (fen : string) (kingPos : BoardPos)
    (mv : ChessJs.Move) : Js.number :=
  let testGame := ChessJs.Chess fen in
  totalDistanceTo (ChessJs.turn testGame) kingPos
    (ChessJs.move (ChessJs.Chess (ChessJs.fen testGame)) mv).

(** Swarm: the distances to the opponent's king, located before the move. *)
Definition opponentKingDistance (fen : string) (kingPos : BoardPos)
    (mv : ChessJs.Move) : Js.number :=
  preMoveKingDistance fen kingPos mv.

End Words.

(** Entry [i] of [l] has the least value of [metric], and every entry
    before it has a strictly greater one. *)
Definition firstMinimum {A} (metric : A -> Js.number) (l : list A) (i : nat) : Prop :=
  exists a z,
    nth_error l i = Some a /\ metric a = Js.Int z /\
    forall j a', nth_error l j = Some a' ->
      exists z', metric a' = Js.Int z' /\ z <= z' /\ ((j < i)%nat -> z < z').

(** The value that follows the token [key] in a blank-separated line. *)
Fixpoint valueAfter (key : string) (tokens : list string) : option string :=
  match tokens with
  | k :: rest =>
      if String.eqb k key
      then match rest with v :: _ => Some v | [] => None end
      else valueAfter key rest
  | [] => None
  end.

(** The search depth an [info] line reports: the value of its [depth]
    field. *)
Definition reportedDepth (line : string) : Js.number :=
  Js.parseIntOpt (valueAfter "depth" (Js.split line " "%char)).

(** The strength commands as the specification words them: the rating is
    sent whenever the flag is set and a rating is present. *)
Definition specifiedStrength (settings : AISettings) : list string :=
  match limitStrength settings, eloRating settings with
  | Some true, Some rating =>
      [ "setoption name UCI_LimitStrength value true";
        "setoption name UCI_Elo value " ++ Js.string_of_Z rating ]
  | _, _ => [ "setoption name UCI_LimitStrength value false" ]
  end.

(** The strength commands as sent: a rating of 0 counts as no rating. *)
Definition sentStrength (settings : AISettings) : list string :=
  match limitStrength settings, eloRating settings with
  | Some true, Some rating =>
      if rating =? 0 then [ "setoption name UCI_LimitStrength value false" ]
      else [ "setoption name UCI_LimitStrength value true";
             "setoption name UCI_Elo value " ++ Js.string_of_Z rating ]
  | _, _ => [ "setoption name UCI_LimitStrength value false" ]
  end.

Definition skillCommand (settings : AISettings) : list string :=
  match skillLevel settings with
  | Some n => [ "setoption name Skill Level value " ++ Js.string_of_Z n ]
  | None => []
  end.

(** The one [go] command: a time budget before a depth, then the node
    limit whichever was chosen. *)
Definition goCommand (settings : AISettings) : string :=
  "go"
  ++ match time settings, depth settings with
     | Some t, _ => " movetime " ++ Js.string_of_Z t
     | None, Some d => " depth " ++ Js.string_of_Z d
     | None, None => ""
     end
  ++ match nodes settings with
     | Some n => " nodes " ++ Js.string_of_Z n
     | None => ""
     end.

Definition specifiedCommands (fen : string) (settings : AISettings) : list string :=
  app (specifiedStrength settings)
    (app (skillCommand settings) [ "position fen " ++ fen; goCommand settings ]).

Definition sentCommands (fen : string) (settings : AISettings) : list string :=
  app (sentStrength settings)
    (app (skillCommand settings) [ "position fen " ++ fen; goCommand settings ]).

(** No blank in a token. *)
Fixpoint spaceless (s : string) : bool :=
  match s with
  | EmptyString => true
  | String c s' => negb (Ascii.eqb c " "%char) && spaceless s'
  end.

End Spec.

(** The levels [getBestMove] hands to the engine search. *)
Definition engineBacked (l : AILevel) : bool :=
  match l with
  | worstfish | random | huddle | swarm => false
  | _ => true
  end.

(** ** Invariants of the event loop *)

Definition armed (rid : nat) (s : State) : Prop :=
  exists due, In (rid, due) (timers s).

(** What a promise of each kind can be settled with. *)
Definition wellTyped (k : Kind) (o : Settlement) : Prop :=
  match k with
  | Search => exists m, o = Resolved (VMove m)
  | Evaluate _ =>
      (exists n, n <> Js.NaN /\ o = Resolved (VScore n))
      \/ o = Rejected "Position evaluation timed out"
  | Sleep => o = Resolved VUnit
  end.

(** A promise of kind [k] whose callbacks are still willing to settle it,
    or which is settled with a value of its kind. *)
Definition typed (rid : nat) (k : Kind) (s : State) : Prop :=
  kind (request rid s) = k /\
  match settled (request rid s) with
  | None => k = Sleep \/ resolved (request rid s) = false
  | Some o => wellTyped k o
  end.

(** ... and whose timer is armed for as long as it is pending. *)
Definition promised (rid : nat) (k : Kind) (s : State) : Prop :=
  typed rid k s /\ (settled (request rid s) = None -> armed rid s).

(** The fields no handler and no timer callback writes. *)
Definition sameHost (s s' : State) : Prop :=
  worker s' = worker s /\ isReady s' = isReady s /\ uciReceived s' = uciReceived s
  /\ entropy s' = entropy s /\ drawn s' = drawn s /\ evaluations s' = evaluations s
  /\ now s' = now s /\ inbox s' = inbox s /\ fresh s' = fresh s.

(** What a callback of request [h] does to the closures, the timers and the
    handler list. *)
Record Touches (h : nat) (s s' : State) : Prop := {
  t_host : sameHost s s';
  t_others : forall r, r <> h -> requests s' r = requests s r;
  t_kind : forall r, kind (requests s' r) = kind (requests s r);
  t_stable : forall r o, settled (requests s r) = Some o -> settled (requests s' r) = Some o;
  t_timers_kept : forall r d, r <> h -> In (r, d) (timers s) -> In (r, d) (timers s');
  t_timers_sub : forall t, In t (timers s') -> In t (timers s);
  t_timers_length : (List.length (timers s') <= List.length (timers s))%nat;
  t_handlers :
    messageHandlers s' = messageHandlers s
    \/ messageHandlers s' = remove_first h (messageHandlers s)
}.

(** The same, whichever requests the callbacks belonged to. *)
Record Calm (s s' : State) : Prop := {
  c_host : sameHost s s';
  c_kind : forall r, kind (requests s' r) = kind (requests s r);
  c_stable : forall r o, settled (requests s r) = Some o -> settled (requests s' r) = Some o;
  c_timers_sub : forall t, In t (timers s') -> In t (timers s);
  c_timers_length : (List.length (timers s') <= List.length (timers s))%nat;
  c_handlers :
    forall r, (count_occ Nat.eq_dec (messageHandlers s') r
               <= count_occ Nat.eq_dec (messageHandlers s) r)%nat
}.

(** How [await] sees a settled promise. *)
Definition completionOf (o : Settlement) : Completion Value :=
  match o with
  | Resolved v => Normal v
  | Rejected e => Throw e
  end.

(** What the event loop leaves alone while a promise is awaited: the
    session stays ready, the only lines posted are [isready] answers to
    [uciok], and [Math.random] and the evaluation log are untouched. *)
Record Evolves (s s' : State) : Prop := {
  ev_worker :
    exists replies,
      Forall (eq "isready") replies /\
      worker s' = option_map (fun sent => (sent ++ replies)%list) (worker s);
  ev_ready : isReady s = true -> isReady s' = true;
  ev_entropy : entropy s' = entropy s;
  ev_drawn : drawn s' = drawn s;
  ev_evaluations : evaluations s' = evaluations s;
  ev_clock : now s <= now s'
}.

(** The number of turns the event loop can still take. *)
Definition pendingWork (s : State) : nat :=
  (List.length (inbox s) + List.length (timers s))%nat.

(** ** Waiting requests *)

(** The lines on which the handler of a promise of kind [k] settles it
    (lines 175 and 349-366). *)
Definition settlesOn (k : Kind) (message : string) : bool :=
  match k with
  | Search => Js.startsWith message "bestmove"
  | Evaluate depth =>
      if Js.startsWith message "info" && Js.includes message "score cp" then
        match Js.match_score_cp message with
        | Some _ => Js.includes message ("depth " ++ Js.string_of_Z depth)
        | None => false
        end
      else Js.startsWith message "bestmove"
  | Sleep => false
  end.

(** What the handler settles the promise with on such a line. *)
Definition settlementOn (k : Kind) (message : string) : Settlement :=
  match k with
  | Search => Resolved (VMove (parseBestMove message))
  | Evaluate _ =>
      if Js.startsWith message "info" && Js.includes message "score cp" then
        match Js.match_score_cp message with
        | Some capture => Resolved (VScore (Js.parseInt capture))
        | None => Resolved (VScore (Js.Int 0))
        end
      else Resolved (VScore (Js.Int 0))
  | Sleep => Resolved VUnit
  end.

(** What the timer callback settles it with. *)
Definition timeoutSettlement (k : Kind) : Settlement :=
  match k with
  | Search => Resolved (VMove None)
  | Evaluate _ => Rejected "Position evaluation timed out"
  | Sleep => Resolved VUnit
  end.

(** A request that waits for its line or for its deadline [due]: nothing
    settled, one timer, its handler subscribed at most once. *)
Record Waiting (rid : nat) (k : Kind) (due : Z) (s : State) : Prop := {
  w_kind : kind (request rid s) = k;
  w_pending : settled (request rid s) = None;
  w_unresolved : resolved (request rid s) = false;
  w_armed : In (rid, due) (timers s);
  w_due : forall d, In (rid, d) (timers s) -> d = due;
  w_subscribed : (count_occ Nat.eq_dec (messageHandlers s) rid <= 1)%nat;
  w_clock : now s <= due
}.

(** No line that arrives before [due] settles a promise of kind [k]. *)
Definition silentUntil (k : Kind) (due : Z) (lines : list (Z * string)) : Prop :=
  forall at_ message, In (at_, message) lines -> at_ < due -> settlesOn k message = false.

(** The request is the only subscriber and holds the only timer of a live
    worker. *)
Record Alone (rid : nat) (k : Kind) (due : Z) (s : State) : Prop := {
  a_waiting : Waiting rid k due s;
  a_handlers : messageHandlers s = [rid];
  a_timers : timers s = [(rid, due)];
  a_worker : worker s <> None
}.

(** No handler subscribed, no timer armed. *)
Definition quiescent (s : State) : Prop :=
  messageHandlers s = [] /\ timers s = [].

(** The next request number is carried by no handler and no timer. *)
Definition unused (s : State) : Prop :=
  ~ In (fresh s) (messageHandlers s) /\ forall d, ~ In (fresh s, d) (timers s).

(** Every request number in use (by a handler or a timer) is below the
    next one to be given out. *)
Definition wellFormed (s : State) : Prop :=
  (forall r, In r (messageHandlers s) -> (r < fresh s)%nat)
  /\ (forall r d, In (r, d) (timers s) -> (r < fresh s)%nat).

(** What a stretch of the event loop leaves of the pending work: no
    request number is given out, no handler and no timer is added, no line
    is added to the queue. *)
Record Shrinks (s s' : State) : Prop := {
  sh_fresh : fresh s' = fresh s;
  sh_handlers : forall r, In r (messageHandlers s') -> In r (messageHandlers s);
  sh_timers : forall t, In t (timers s') -> In t (timers s);
  sh_inbox : forall l, In l (inbox s') -> In l (inbox s)
}.

(** The delay [getBestMove] waits out, counted from its first line
    (lines 117, 131, 144, 157 and 257-263). *)
Definition minimumDelayFor (settings : AISettings) (customDelay : option Z) : Z :=
  if engineBacked (level settings) then
    match time settings with
    | Some t =>
        if negb (t =? 0) && (500 <=? t)
        then Z.max (t + 100) (orElse customDelay (t + 100))
        else orElse customDelay 500
    | None => orElse customDelay 500
    end
  else orElse customDelay 500.

(** The levels whose branch of [getBestMove] talks to the engine: all but
    the three synchronous selectors. *)
Definition needsEngine (l : AILevel) : bool :=
  match l with
  | random | huddle | swarm => false
  | _ => true
  end.

(** What a run of lines leaves as it is, and what it can only turn on. *)
Record Heard (ss ss' : Lifecycle.Session) : Prop := {
  h_made : Lifecycle.made ss' = Lifecycle.made ss;
  h_listener : Lifecycle.listener ss' = Lifecycle.listener ss;
  h_deadlines : Lifecycle.deadlines ss' = Lifecycle.deadlines ss;
  h_worker : exists more,
      worker (Lifecycle.service ss')
      = option_map (fun sent => (sent ++ more)%list) (worker (Lifecycle.service ss));
  h_uci : uciReceived (Lifecycle.service ss) = true ->
          uciReceived (Lifecycle.service ss') = true;
  h_ready : isReady (Lifecycle.service ss) = true -> isReady (Lifecycle.service ss') = true;
  h_settled : forall p, Lifecycle.outcomes ss p <> Lifecycle.Pending ->
                        Lifecycle.outcomes ss' p = Lifecycle.outcomes ss p;
  h_others : forall p, Lifecycle.listener ss <> Some p ->
                       Lifecycle.outcomes ss' p = Lifecycle.outcomes ss p;
  h_outcome : forall p, Lifecycle.outcomes ss' p = Lifecycle.outcomes ss p
                        \/ Lifecycle.outcomes ss' p = Lifecycle.Fulfilled
}.

(** The longest the selector of a level can take: a search is cut off by
    its 5000 ms timer (line 222), each evaluation of worstfish by its 3000 ms
    timer (line 392), and the three synchronous selectors take no time. *)
Definition selectorBudget {chess : ChessJs.Api} (fen : string) (settings : AISettings) : Z :=
  match level settings with
  | worstfish => 3000 * Z.of_nat (List.length (ChessJs.moves (ChessJs.Chess fen)))
  | random | huddle | swarm => 0
  | _ => 5000
  end.

(** The score the evaluation handler reads off a line it accepts. *)
Definition scoreOn (message : string) : Js.number :=
  if Js.startsWith message "info" && Js.includes message "score cp" then
    match Js.match_score_cp message with
    | Some capture => Js.parseInt capture
    | None => Js.Int 0
    end
  else Js.Int 0.

(** The latest arrival time among [lines], or [start] if that is later. *)
Definition lastArrival (start : Z) (lines : list (Z * string)) : Z :=
  fold_right (fun l acc => Z.max (fst l) acc) start lines.

(** ** The log of evaluations *)

Section Log.

Context {chess : ChessJs.Api}.


(** How a call of the evaluator on a ready session can end: with a number
    that is not NaN, or with the time-out error. *)
Definition evaluated (r : Completion Js.number) : Prop :=
  (exists n, r = Normal n /\ n <> Js.NaN) \/ r = Throw "Position evaluation timed out".






End Log.

(** A profile with the strength limit on and the rating 0. *)
Definition zeroRating : AISettings :=
  {| level := custom; depth := Some 5; time := None; nodes := None;
     eloRating := Some 0; limitStrength := Some true; skillLevel := None |}.

(** ** Facts about the JavaScript primitives *)

Lemma split_spaceless (a : string) :
  Spec.spaceless a = true -> Js.split a " "%char = [a].
Proof.
  induction a as [|c a IH]; simpl; intro H; [reflexivity|].
  apply andb_true_iff in H as [Hc Ha].
  apply negb_true_iff in Hc. rewrite Hc, (IH Ha). reflexivity.
Qed.

Lemma split_at_blank (a b : string) :
  Spec.spaceless a = true ->
  Js.split (a ++ String " "%char b) " "%char = a :: Js.split b " "%char.
Proof.
  induction a as [|c a IH]; simpl; intro H; [reflexivity|].
  apply andb_true_iff in H as [Hc Ha].
  apply negb_true_iff in Hc. rewrite Hc, (IH Ha). reflexivity.
Qed.

Lemma substring_whole (s : string) :
  String.substring 0 (String.length s) s = s.
Proof. induction s; simpl; congruence. Qed.

Lemma substring_none (s : string) : String.substring 0 0 s = "".
Proof. destruct s; reflexivity. Qed.

Lemma second_part (token tail : string) :
  Spec.spaceless token = true ->
  tail = "" \/ (exists rest, tail = String " "%char rest) ->
  nth_error (Js.split ("bestmove " ++ token ++ tail) " "%char) 1 = Some token.
Proof.
  intros Htok Htail.
  change ("bestmove " ++ token ++ tail) with ("bestmove" ++ String " "%char (token ++ tail)).
  rewrite split_at_blank by reflexivity. simpl.
  destruct Htail as [-> | [rest ->]].
  - replace (token ++ "") with token.
    + rewrite split_spaceless by assumption. reflexivity.
    + clear. induction token; simpl; congruence.
  - rewrite split_at_blank by assumption. reflexivity.
Qed.

(** ** The selectors that need no engine *)

Section Selectors.

Context {chess : ChessJs.Api}.

Lemma floor_scaled_below (r : Js.unit_real) (n : nat) :
  (0 < n)%nat -> (Js.floor_scaled r n < n)%nat.
Proof.
  intro Hn. unfold Js.floor_scaled.
  destruct r as [num den Hunit]; simpl.
  apply andb_true_iff in Hunit as [Hlo Hhi].
  apply Z.leb_le in Hlo. apply Z.ltb_lt in Hhi.
  assert (0 <= num * Z.of_nat n / Z.pos den < Z.of_nat n) as [H0 H1].
  { split.
    - apply Z.div_pos; nia.
    - apply Z.div_lt_upper_bound; nia. }
  lia.
Qed.

Lemma floor_scaled_one (r : Js.unit_real) : Js.floor_scaled r 1 = 0%nat.
Proof. pose proof (floor_scaled_below r 1). lia. Qed.

Lemma randomLegalMove_picks (legalMoves : list ChessJs.Move) (s : State) :
  legalMoves <> [] ->
  exists mv,
    In mv legalMoves /\
    randomLegalMove legalMoves s = (Normal (Some (toAIMove mv)), set_drawn (S (drawn s)) s).
Proof.
  intro Hne. unfold randomLegalMove, bind, mathRandom.
  assert (Hlen : (0 < List.length legalMoves)%nat)
    by (destruct legalMoves; [congruence | simpl; lia]).
  pose proof (floor_scaled_below (entropy s (drawn s)) _ Hlen) as Hlt.
  apply nth_error_Some in Hlt.
  destruct (nth_error legalMoves _) as [mv|] eqn:E; [|congruence].
  exists mv. split; [eapply nth_error_In; eassumption | reflexivity].
Qed.

Lemma closest_among (f : ChessJs.Move -> Js.number) (l : list ChessJs.Move)
    (best : ChessJs.Move) (d : Js.number) :
  closest f l best d = best \/ In (closest f l best d) l.
Proof.
  revert best d. induction l as [|mv l IH]; intros best d; simpl; [now left|].
  destruct (Js.lt (f mv) d).
  - destruct (IH mv (f mv)) as [-> | H]; auto.
  - destruct (IH best d) as [-> | H]; auto.
Qed.

Lemma closest_legal (f : ChessJs.Move -> Js.number) (first : ChessJs.Move)
    (rest : list ChessJs.Move) :
  In (closest f (first :: rest) first Js.Infinity) (first :: rest).
Proof.
  destruct (closest_among f (first :: rest) first Js.Infinity) as [-> | H];
    [now left | exact H].
Qed.

(** The minimising loop returns the first entry with the least distance. *)
Lemma closest_first_minimum (f : ChessJs.Move -> Js.number) (l : list ChessJs.Move) :
  (forall mv, In mv l -> exists z, f mv = Js.Int z) ->
  forall (done : list ChessJs.Move) (best : ChessJs.Move) (d : Js.number),
    (done = [] /\ d = Js.Infinity
     \/ exists i, Spec.firstMinimum f done i /\ nth_error done i = Some best /\ d = f best) ->
    (done ++ l <> [])%list ->
    exists i,
      Spec.firstMinimum f (done ++ l)%list i /\
      nth_error (done ++ l)%list i = Some (closest f l best d).
Proof.
  intro Hint. induction l as [|mv l IH]; intros done best d Hinv Hne.
  - simpl. rewrite app_nil_r in *.
    destruct Hinv as [[-> _] | (i & Hmin & Hnth & _)]; [congruence|].
    exists i. auto.
  - simpl.
    destruct (Hint mv (or_introl eq_refl)) as [z Hz].
    assert (Hint' : forall mv', In mv' l -> exists z', f mv' = Js.Int z')
      by (intros; apply Hint; now right).
    replace (done ++ mv :: l)%list with ((done ++ [mv]) ++ l)%list
      by (rewrite <- app_assoc; reflexivity).
    assert (Hne' : ((done ++ [mv]) ++ l)%list <> [])
      by (destruct done; simpl; congruence).
    destruct Hinv as [[-> ->] | (i & Hmin & Hnth & ->)].
    + rewrite Hz. simpl Js.lt. cbv iota. rewrite <- Hz.
      apply (IH Hint' [mv] mv (f mv)); [|exact Hne'].
      right. exists 0%nat. split; [|split; reflexivity].
      exists mv, z. split; [reflexivity|]. split; [exact Hz|].
      intros j a' Hj. destruct j as [|j]; simpl in Hj.
      * inversion Hj; subst. exists z. split; [exact Hz|]. lia.
      * destruct j; discriminate.
    + destruct Hmin as (a & zb & Ha & Hfa & Hall).
      rewrite Hnth in Ha. inversion Ha; subst a. clear Ha.
      rewrite Hz, Hfa. simpl Js.lt.
      destruct (z <? zb) eqn:Hcmp.
      * apply Z.ltb_lt in Hcmp. rewrite <- Hz.
        apply (IH Hint' (done ++ [mv])%list mv (f mv)); [|exact Hne'].
        right. exists (List.length done). split; [|split].
        -- exists mv, z. split; [|split; [exact Hz|]].
           ++ rewrite nth_error_app2 by lia. rewrite Nat.sub_diag. reflexivity.
           ++ intros j a' Hj.
              destruct (Nat.lt_ge_cases j (List.length done)) as [Hlt | Hge].
              ** rewrite nth_error_app1 in Hj by exact Hlt.
                 destruct (Hall j a' Hj) as (z' & Hz' & Hle & _).
                 exists z'. split; [exact Hz'|]. lia.
              ** rewrite nth_error_app2 in Hj by exact Hge.
                 destruct (j - List.length done)%nat as [|k] eqn:Ek; simpl in Hj.
                 --- inversion Hj; subst. exists z. split; [exact Hz|]. lia.
                 --- destruct k; discriminate.
        -- rewrite nth_error_app2 by lia. rewrite Nat.sub_diag. reflexivity.
        -- reflexivity.
      * apply Z.ltb_ge in Hcmp. rewrite <- Hfa.
        assert (Hi : (i < List.length done)%nat)
          by (apply nth_error_Some; congruence).
        apply (IH Hint' (done ++ [mv])%list best (f best)); [|exact Hne'].
        right. exists i. split; [|split].
        -- exists best, zb. split; [|split; [exact Hfa|]].
           ++ rewrite nth_error_app1 by exact Hi. exact Hnth.
           ++ intros j a' Hj.
              destruct (Nat.lt_ge_cases j (List.length done)) as [Hlt | Hge].
              ** rewrite nth_error_app1 in Hj by exact Hlt. exact (Hall j a' Hj).
              ** rewrite nth_error_app2 in Hj by exact Hge.
                 destruct (j - List.length done)%nat as [|k] eqn:Ek; simpl in Hj.
                 --- inversion Hj; subst. exists z. split; [exact Hz|]. lia.
                 --- destruct k; discriminate.
        -- rewrite nth_error_app1 by exact Hi. exact Hnth.
        -- reflexivity.
Qed.


(** Evaluates the square name, its character code and its digit, and
    leaves the arithmetic on the target's coordinates. *)
Ltac on_square :=
  unfold getChebyshevDistance;
  match goal with
  | |- context [squareName ?r ?f] =>
      let v := eval vm_compute in (squareName r f) in
      change (squareName r f) with v
  end;
  match goal with
  | |- context [Js.charCodeAt ?sq 0] =>
      let v := eval vm_compute in (Js.charCodeAt sq 0) in
      change (Js.charCodeAt sq 0) with v
  end;
  match goal with
  | |- context [Js.parseIntOpt ?x] =>
      let v := eval vm_compute in (Js.parseIntOpt x) in
      change (Js.parseIntOpt x) with v
  end;
  unfold Js.sub, Js.neg, Js.add, Js.abs, Js.max; f_equal; simpl Z.of_nat; lia.

Lemma chebyshev_on_board (r f : nat) (target : BoardPos) :
  In (r, f) cells ->
  getChebyshevDistance (squareName r f) target
  = Js.Int (Z.max (Z.abs (Z.of_nat f - file target)) (Z.abs (Z.of_nat r - rank target))).
Proof.
  intro Hin. unfold cells in Hin. simpl in Hin.
  repeat (destruct Hin as [Heq | Hin]; [inversion Heq; subst; on_square |]).
  contradiction.
Qed.

Lemma totalDistanceTo_integer (c : ChessJs.Color) (target : BoardPos) (g : ChessJs.Game) :
  exists z, totalDistanceTo c target g = Js.Int z.
Proof.
  unfold totalDistanceTo.
  assert (Hgen : forall l acc, (forall cell, In cell l -> In cell cells) ->
            exists z,
              fold_left
                (fun totalDistance cell =>
                   match ChessJs.board g (fst cell) (snd cell) with
                   | Some piece =>
                       if ChessJs.color_eqb (ChessJs.color piece) c
                       then Js.add totalDistance
                              (getChebyshevDistance (squareName (fst cell) (snd cell)) target)
                       else totalDistance
                   | None => totalDistance
                   end) l (Js.Int acc) = Js.Int z).
  { induction l as [|[r f] l IH]; intros acc Hsub; simpl.
    - eauto.
    - assert (Hl : forall cell, In cell l -> In cell cells) by (intros; apply Hsub; now right).
      destruct (ChessJs.board g r f) as [piece|]; [|apply IH; exact Hl].
      destruct (ChessJs.color_eqb (ChessJs.color piece) c); [|apply IH; exact Hl].
      rewrite chebyshev_on_board by (apply Hsub; now left).
      simpl. apply IH; exact Hl. }
  apply Hgen. auto.
Qed.

Lemma huddle_first_minimum (fen : string) (kingPos : BoardPos) (s : State) :
  ChessJs.moves (ChessJs.Chess fen) <> [] ->
  findKing (ChessJs.Chess fen) (ChessJs.turn (ChessJs.Chess fen)) = Some kingPos ->
  exists i mv,
    Spec.firstMinimum (Spec.preMoveKingDistance fen kingPos)
      (ChessJs.moves (ChessJs.Chess fen)) i /\
    nth_error (ChessJs.moves (ChessJs.Chess fen)) i = Some mv /\
    getHuddleMove fen s = (Normal (Some (toAIMove mv)), s).
Proof.
  intros Hne Hking. unfold getHuddleMove. rewrite Hking.
  destruct (ChessJs.moves (ChessJs.Chess fen)) as [|first rest] eqn:Hmoves; [congruence|].
  assert (Hint : forall mv, In mv (first :: rest) ->
            exists z, Spec.preMoveKingDistance fen kingPos mv = Js.Int z).
  { intros mv _. unfold Spec.preMoveKingDistance. apply totalDistanceTo_integer. }
  destruct (closest_first_minimum (Spec.preMoveKingDistance fen kingPos) (first :: rest)
              Hint [] first Js.Infinity)
    as (i & Hmin & Hnth); [now left | discriminate |].
  exists i, (closest (Spec.preMoveKingDistance fen kingPos) (first :: rest) first Js.Infinity).
  split; [exact Hmin | split; [exact Hnth | ]].
  unfold Spec.preMoveKingDistance, ret. reflexivity.
Qed.

Lemma swarm_first_minimum (fen : string) (kingPos : BoardPos) (s : State) :
  ChessJs.moves (ChessJs.Chess fen) <> [] ->
  findKing (ChessJs.Chess fen) (opponent (ChessJs.turn (ChessJs.Chess fen))) = Some kingPos ->
  exists i mv,
    Spec.firstMinimum (Spec.opponentKingDistance fen kingPos)
      (ChessJs.moves (ChessJs.Chess fen)) i /\
    nth_error (ChessJs.moves (ChessJs.Chess fen)) i = Some mv /\
    getSwarmMove fen s = (Normal (Some (toAIMove mv)), s).
Proof.
  intros Hne Hking. unfold getSwarmMove. rewrite Hking.
  destruct (ChessJs.moves (ChessJs.Chess fen)) as [|first rest] eqn:Hmoves; [congruence|].
  assert (Hint : forall mv, In mv (first :: rest) ->
            exists z, Spec.opponentKingDistance fen kingPos mv = Js.Int z).
  { intros mv _. unfold Spec.opponentKingDistance, Spec.preMoveKingDistance.
    apply totalDistanceTo_integer. }
  destruct (closest_first_minimum (Spec.opponentKingDistance fen kingPos) (first :: rest)
              Hint [] first Js.Infinity)
    as (i & Hmin & Hnth); [now left | discriminate |].
  exists i, (closest (Spec.opponentKingDistance fen kingPos) (first :: rest) first Js.Infinity).
  split; [exact Hmin | split; [exact Hnth | ]].
  unfold Spec.opponentKingDistance, Spec.preMoveKingDistance, ret. reflexivity.
Qed.

Lemma getHuddleMove_legal (fen : string) (s : State) :
  ChessJs.moves (ChessJs.Chess fen) <> [] ->
  exists mv, In mv (ChessJs.moves (ChessJs.Chess fen)) /\
             fst (getHuddleMove fen s) = Normal (Some (toAIMove mv)).
Proof.
  intro Hne.
  destruct (findKing (ChessJs.Chess fen) (ChessJs.turn (ChessJs.Chess fen)))
    as [kingPos|] eqn:Hking.
  - destruct (huddle_first_minimum fen kingPos s Hne Hking) as (i & mv & _ & Hnth & Heq).
    exists mv. rewrite Heq. split; [eapply nth_error_In; eassumption | reflexivity].
  - unfold getHuddleMove. rewrite Hking.
    destruct (randomLegalMove_picks _ s Hne) as (mv & Hin & Heq).
    destruct (ChessJs.moves (ChessJs.Chess fen)) eqn:E; [congruence|].
    exists mv. rewrite Heq. auto.
Qed.

Lemma getSwarmMove_legal (fen : string) (s : State) :
  ChessJs.moves (ChessJs.Chess fen) <> [] ->
  exists mv, In mv (ChessJs.moves (ChessJs.Chess fen)) /\
             fst (getSwarmMove fen s) = Normal (Some (toAIMove mv)).
Proof.
  intro Hne.
  destruct (findKing (ChessJs.Chess fen) (opponent (ChessJs.turn (ChessJs.Chess fen))))
    as [kingPos|] eqn:Hking.
  - destruct (swarm_first_minimum fen kingPos s Hne Hking) as (i & mv & _ & Hnth & Heq).
    exists mv. rewrite Heq. split; [eapply nth_error_In; eassumption | reflexivity].
  - unfold getSwarmMove. rewrite Hking.
    destruct (randomLegalMove_picks _ s Hne) as (mv & Hin & Heq).
    destruct (ChessJs.moves (ChessJs.Chess fen)) eqn:E; [congruence|].
    exists mv. rewrite Heq. auto.
Qed.

Lemma getRandomMove_legal (fen : string) (s : State) :
  ChessJs.moves (ChessJs.Chess fen) <> [] ->
  exists mv, In mv (ChessJs.moves (ChessJs.Chess fen)) /\
             fst (getRandomMove fen s) = Normal (Some (toAIMove mv)).
Proof.
  intro Hne. unfold getRandomMove.
  destruct (randomLegalMove_picks _ s Hne) as (mv & Hin & Heq).
  destruct (ChessJs.moves (ChessJs.Chess fen)) eqn:E; [congruence|].
  exists mv. rewrite Heq. auto.
Qed.

Lemma evaluateMoves_among (fen : string) (d : Z) (l : list ChessJs.Move) :
  forall acc score s r s',
    evaluateMoves fen d l acc score s = (Normal r, s') ->
    r = acc \/ exists mv, In mv l /\ r = Some (toAIMove mv).
Proof.
  induction l as [|mv l IH]; intros acc score s r s' H; simpl in H.
  - inversion H. now left.
  - destruct (evaluatePosition _ d s) as [[sc | e |] s1]; [| |discriminate].
    + destruct (Js.lt sc score).
      * apply IH in H as [-> | (mv' & Hin & ->)].
        -- right. exists mv. split; [now left | reflexivity].
        -- right. exists mv'. split; [now right | reflexivity].
      * apply IH in H as [-> | (mv' & Hin & ->)]; [now left|].
        right. exists mv'. split; [now right | reflexivity].
    + apply IH in H as [-> | (mv' & Hin & ->)]; [now left|].
      right. exists mv'. split; [now right | reflexivity].
Qed.

Lemma getWorstMove_legal (fen : string) (settings : AISettings) (s : State) (m : AIMove) :
  fst (getWorstMove fen settings s) = Normal (Some m) ->
  exists mv, In mv (ChessJs.moves (ChessJs.Chess fen)) /\ m = toAIMove mv.
Proof.
  unfold getWorstMove. destruct (notReady s); [discriminate|].
  destruct (ChessJs.moves (ChessJs.Chess fen)) as [|mv0 [|mv1 rest]] eqn:Hmoves.
  - discriminate.
  - simpl. intro H. inversion H. exists mv0. split; [now left | reflexivity].
  - unfold bind.
    destruct (evaluateMoves fen _ (mv0 :: mv1 :: rest) None Js.Infinity s)
      as [[r | e |] s1] eqn:Hloop; simpl; try discriminate.
    apply evaluateMoves_among in Hloop.
    destruct r as [chosen|].
    + simpl. intro H. inversion H; subst.
      destruct Hloop as [Hnone | (mv & Hin & Heq)]; [discriminate|].
      exists mv. split; [exact Hin | congruence].
    + destruct (randomLegalMove_picks (mv0 :: mv1 :: rest) s1) as (mv & Hin & Heq);
        [discriminate|].
      rewrite Heq. simpl. intro H. exists mv. split; [exact Hin | congruence].
Qed.

End Selectors.

(** ** The event loop *)

Lemma sameHost_refl s : sameHost s s.
Proof. repeat split. Qed.

Lemma sameHost_trans s1 s2 s3 : sameHost s1 s2 -> sameHost s2 s3 -> sameHost s1 s3.
Proof.
  unfold sameHost. intros (a1&a2&a3&a4&a5&a6&a7&a8&a9) (b1&b2&b3&b4&b5&b6&b7&b8&b9).
  repeat split; congruence.
Qed.

Lemma Touches_refl h s : Touches h s s.
Proof. constructor; auto using sameHost_refl. Qed.

Lemma remove_first_subset x l r : In r (remove_first x l) -> In r l.
Proof.
  induction l as [|y l IH]; simpl; [auto|].
  destruct (Nat.eqb x y); simpl; intuition.
Qed.

Lemma remove_first_absent x l : ~ In x l -> remove_first x l = l.
Proof.
  induction l as [|y l IH]; simpl; intro H; [reflexivity|].
  destruct (Nat.eqb_spec x y); [subst; intuition|].
  f_equal. apply IH. intuition.
Qed.

Lemma filter_length_le {A} (p : A -> bool) (l : list A) :
  (List.length (filter p l) <= List.length l)%nat.
Proof. induction l; simpl; [lia|]. destruct (p a); simpl; lia. Qed.

Lemma remove_first_keeps x l r : r <> x -> In r l -> In r (remove_first x l).
Proof.
  intro Hr. induction l as [|y l IH]; simpl; [auto|].
  intros [-> | Hin].
  - destruct (Nat.eqb_spec x r); [congruence | now left].
  - destruct (Nat.eqb x y); [exact Hin | right; auto].
Qed.

Lemma clear_keeps (h r : nat) (d : Z) (ts : list (nat * Z)) :
  r <> h -> In (r, d) ts -> In (r, d) (filter (fun t => negb (Nat.eqb (fst t) h)) ts).
Proof.
  intros Hr Hin. apply filter_In. split; [exact Hin|]. simpl.
  apply negb_true_iff. now apply Nat.eqb_neq.
Qed.

Lemma clear_sub (h : nat) (ts : list (nat * Z)) (t : nat * Z) :
  In t (filter (fun t => negb (Nat.eqb (fst t) h)) ts) -> In t ts.
Proof. intro H. apply filter_In in H. tauto. Qed.

(** Closes the goals of [Touches] after the state operations are unfolded. *)
Ltac frame h :=
  constructor; simpl;
  [ repeat split
  | intros r Hr; apply Nat.eqb_neq in Hr; now rewrite ?Hr
  | intros r; destruct (Nat.eqb r h) eqn:E; [apply Nat.eqb_eq in E; subst|]; reflexivity
  | intros r o'; destruct (Nat.eqb r h) eqn:E; [apply Nat.eqb_eq in E; subst|];
    simpl; congruence
  | intros r d Hr Hin; first [exact Hin | now apply clear_keeps]
  | intros t Hin; first [exact Hin | exact (clear_sub _ _ _ Hin)]
  | first [apply Nat.le_refl | apply filter_length_le]
  | first [now left | now right] ].

(** The common tail of the two message handlers: flag, unsubscribe, clear
    the timer, settle. *)
Lemma finish_touches h o s :
  Touches h s (settle h o (clearTimeout h (removeHandler h (markResolved h s)))).
Proof.
  unfold settle, clearTimeout, removeHandler, markResolved, request, update. simpl.
  rewrite Nat.eqb_refl. simpl.
  destruct (settled (requests s h)) eqn:Hs; simpl; frame h.
Qed.

(** The tail of the two timer callbacks: flag, unsubscribe, settle. *)
Lemma expire_touches h o s :
  Touches h s (settle h o (removeHandler h (markResolved h s))).
Proof.
  unfold settle, removeHandler, markResolved, request, update. simpl.
  rewrite Nat.eqb_refl. simpl.
  destruct (settled (requests s h)) eqn:Hs; simpl; frame h.
Qed.

Lemma settle_touches h o s : Touches h s (settle h o s).
Proof.
  unfold settle, request, update.
  destruct (settled (requests s h)) eqn:Hs; [apply Touches_refl|].
  frame h.
Qed.

Lemma callHandler_touches h message s : Touches h s (callHandler h message s).
Proof.
  unfold callHandler. destruct (kind (request h s)).
  - unfold searchHandler.
    destruct (Js.startsWith message "bestmove" && negb (resolved (request h s)));
      [apply finish_touches | apply Touches_refl].
  - unfold evaluationHandler.
    destruct (Js.startsWith message "info" && Js.includes message "score cp"
              && negb (resolved (request h s))).
    + destruct (Js.match_score_cp message); [|apply Touches_refl].
      destruct (Js.includes message _); [apply finish_touches | apply Touches_refl].
    + destruct (Js.startsWith message "bestmove" && negb (resolved (request h s)));
        [apply finish_touches | apply Touches_refl].
  - apply Touches_refl.
Qed.

Lemma timeoutCallback_touches h s : Touches h s (timeoutCallback h s).
Proof.
  unfold timeoutCallback. destruct (kind (request h s)).
  - destruct (negb (resolved (request h s))); [apply expire_touches | apply Touches_refl].
  - destruct (negb (resolved (request h s))); [apply expire_touches | apply Touches_refl].
  - apply settle_touches.
Qed.

Lemma remove_first_count x l r :
  (count_occ Nat.eq_dec (remove_first x l) r <= count_occ Nat.eq_dec l r)%nat.
Proof.
  induction l as [|y l IH]; simpl; [lia|].
  destruct (Nat.eqb x y); simpl; destruct (Nat.eq_dec y r); lia.
Qed.

Lemma remove_first_count_other x l r :
  r <> x -> count_occ Nat.eq_dec (remove_first x l) r = count_occ Nat.eq_dec l r.
Proof.
  intro Hr. induction l as [|y l IH]; simpl; [reflexivity|].
  destruct (Nat.eqb_spec x y).
  - subst. destruct (Nat.eq_dec y r); [congruence | reflexivity].
  - simpl. destruct (Nat.eq_dec y r); lia.
Qed.

Lemma remove_first_count_same x l :
  count_occ Nat.eq_dec (remove_first x l) x = pred (count_occ Nat.eq_dec l x).
Proof.
  induction l as [|y l IH]; simpl; [reflexivity|].
  destruct (Nat.eqb_spec x y).
  - subst. destruct (Nat.eq_dec y y); [reflexivity | congruence].
  - simpl. destruct (Nat.eq_dec y x); [congruence | exact IH].
Qed.

Lemma Touches_Calm h s s' : Touches h s s' -> Calm s s'.
Proof.
  intros [H1 H2 H3 H4 H5 H6 H7 H8]. constructor; auto.
  intro r. destruct H8 as [-> | ->]; [lia | apply remove_first_count].
Qed.

Lemma Calm_refl s : Calm s s.
Proof. constructor; auto using sameHost_refl. Qed.

Lemma Calm_trans s1 s2 s3 : Calm s1 s2 -> Calm s2 s3 -> Calm s1 s3.
Proof.
  intros [A1 A2 A3 A4 A5 A6] [B1 B2 B3 B4 B5 B6].
  constructor; eauto using sameHost_trans.
  - intros r. congruence.
  - lia.
  - intro r. specialize (A6 r). specialize (B6 r). lia.
Qed.

Lemma sameHost_Evolves s s' : sameHost s s' -> Evolves s s'.
Proof.
  intros (Hw & Hr & _ & He & Hd & Hv & Hn & _).
  constructor; try congruence.
  - exists []. split; [constructor|]. rewrite Hw.
    destruct (worker s); simpl; [rewrite app_nil_r|]; reflexivity.
  - lia.
Qed.

Lemma Evolves_refl s : Evolves s s.
Proof. apply sameHost_Evolves, sameHost_refl. Qed.

Lemma Evolves_trans s1 s2 s3 : Evolves s1 s2 -> Evolves s2 s3 -> Evolves s1 s3.
Proof.
  intros [(r1 & F1 & W1) R1 E1 D1 V1 N1] [(r2 & F2 & W2) R2 E2 D2 V2 N2].
  constructor; try congruence; auto; try lia.
  exists (r1 ++ r2)%list. split; [apply Forall_app; auto|].
  rewrite W2, W1. destruct (worker s1); simpl; [rewrite app_assoc|]; reflexivity.
Qed.

(** *** A promise and the callbacks of other requests *)

Lemma promised_other h rid k s s' :
  Touches h s s' -> h <> rid -> promised rid k s -> promised rid k s'.
Proof.
  intros T Hne [Ht Ha]. unfold promised, typed, armed, request in *.
  rewrite (t_others _ _ _ T rid) by congruence. split; [exact Ht|].
  intro Hs. destruct (Ha Hs) as [d Hd]. exists d.
  apply (t_timers_kept _ _ _ T); [congruence | exact Hd].
Qed.

(** *** A promise and its own callbacks *)

Lemma finish_settled h o s :
  settled (requests (settle h o (clearTimeout h (removeHandler h (markResolved h s)))) h)
  = Some (match settled (requests s h) with Some o' => o' | None => o end).
Proof.
  unfold settle, clearTimeout, removeHandler, markResolved, request, update. simpl.
  rewrite Nat.eqb_refl. simpl.
  destruct (settled (requests s h)) eqn:Hs; simpl; rewrite Nat.eqb_refl; simpl; congruence.
Qed.

Lemma expire_settled h o s :
  settled (requests (settle h o (removeHandler h (markResolved h s))) h)
  = Some (match settled (requests s h) with Some o' => o' | None => o end).
Proof.
  unfold settle, removeHandler, markResolved, request, update. simpl.
  rewrite Nat.eqb_refl. simpl.
  destruct (settled (requests s h)) eqn:Hs; simpl; rewrite Nat.eqb_refl; simpl; congruence.
Qed.

Lemma settle_settled h o s :
  settled (requests (settle h o s) h)
  = Some (match settled (requests s h) with Some o' => o' | None => o end).
Proof.
  unfold settle, request, update.
  destruct (settled (requests s h)) eqn:Hs; simpl; [congruence|].
  rewrite Nat.eqb_refl. reflexivity.
Qed.

Lemma settled_promised rid k o s s' :
  typed rid k s -> wellTyped k o -> Touches rid s s' ->
  settled (requests s' rid)
  = Some (match settled (requests s rid) with Some o' => o' | None => o end) ->
  promised rid k s'.
Proof.
  intros [Hk Ht] Ho T Hs. unfold promised, typed, request in *.
  rewrite (t_kind _ _ _ T), Hs. split; [split; [exact Hk|] | discriminate].
  destruct (settled (requests s rid)); assumption.
Qed.

Lemma digits_prefix_idem s : Js.digits_prefix (Js.digits_prefix s) = Js.digits_prefix s.
Proof.
  induction s as [|c s IH]; simpl; [reflexivity|].
  destruct (Js.is_digit c) eqn:E; simpl; [rewrite E, IH|]; reflexivity.
Qed.

Lemma digits_prefix_head c s' s :
  Js.digits_prefix s = String c s' -> Js.is_digit c = true.
Proof.
  destruct s as [|c0 s0]; simpl; [discriminate|].
  destruct (Js.is_digit c0) eqn:E; [|discriminate].
  intro H. inversion H; subst. exact E.
Qed.

Lemma toDouble_number z : Js.toDouble z <> Js.NaN.
Proof.
  unfold Js.toDouble.
  destruct (2 ^ 1024 <=? Js.roundToSignificand (Z.abs z)); [|discriminate].
  destruct (z <? 0); discriminate.
Qed.

Lemma parseInt_digits ds :
  ds <> "" -> Js.digits_prefix ds = ds -> Js.parseInt ds <> Js.NaN.
Proof.
  intros Hne Hds. destruct ds as [|c r]; [congruence|].
  pose proof (digits_prefix_head c r _ Hds) as Hc.
  unfold Js.parseInt.
  destruct c as [b0 b1 b2 b3 b4 b5 b6 b7].
  destruct b0, b1, b2, b3, b4, b5, b6, b7; try discriminate Hc;
    rewrite Hds; apply toDouble_number.
Qed.

Lemma parseInt_negative ds :
  ds <> "" -> Js.digits_prefix ds = ds -> Js.parseInt (String "-"%char ds) <> Js.NaN.
Proof.
  intros Hne Hds. unfold Js.parseInt. rewrite Hds.
  destruct ds; [congruence | apply toDouble_number].
Qed.

Lemma score_capture_number s c :
  Js.score_capture s = Some c -> Js.parseInt c <> Js.NaN.
Proof.
  unfold Js.score_capture.
  assert (Hgen : forall sign body,
            (sign = "" \/ sign = "-") ->
            match Js.digits_prefix body with
            | "" => None
            | String a r => Some (sign ++ String a r)
            end = Some c -> Js.parseInt c <> Js.NaN).
  { intros sign body Hsign H.
    destruct (Js.digits_prefix body) as [|a r] eqn:Hd; [discriminate|].
    inversion H; subst c.
    assert (Js.digits_prefix (String a r) = String a r)
      by (rewrite <- Hd; apply digits_prefix_idem).
    destruct Hsign as [-> | ->]; simpl.
    - apply parseInt_digits; [discriminate | assumption].
    - apply parseInt_negative; [discriminate | assumption]. }
  destruct s as [|a r]; [apply (Hgen "" ""); now left|].
  destruct a as [b0 b1 b2 b3 b4 b5 b6 b7].
  destruct b0, b1, b2, b3, b4, b5, b6, b7;
    first [apply (Hgen "-"); now right | apply (Hgen ""); now left].
Qed.

Lemma match_score_cp_unfold s :
  Js.match_score_cp s
  = match (if prefix "score cp " s
           then Js.score_capture (Js.substringFrom 9 s) else None) with
    | Some capture => Some capture
    | None =>
        match s with
        | String _ s' => Js.match_score_cp s'
        | EmptyString => None
        end
    end.
Proof. destruct s; reflexivity. Qed.

Lemma match_score_cp_number s c :
  Js.match_score_cp s = Some c -> Js.parseInt c <> Js.NaN.
Proof.
  induction s as [|a s IH]; rewrite match_score_cp_unfold.
  - destruct (prefix "score cp " ""); [|discriminate].
    destruct (Js.score_capture _) as [c'|] eqn:E; [|discriminate].
    intro H. inversion H; subst. eapply score_capture_number; eassumption.
  - destruct (prefix "score cp " (String a s)); [|exact IH].
    destruct (Js.score_capture _) as [c'|] eqn:E; [|exact IH].
    intro H. inversion H; subst. eapply score_capture_number; eassumption.
Qed.

Lemma callHandler_promised_own rid k message s :
  promised rid k s -> promised rid k (callHandler rid message s).
Proof.
  intros [Ht Ha]. pose proof Ht as [Hk _].
  unfold callHandler. rewrite Hk. destruct k as [|d|].
  - unfold searchHandler.
    destruct (Js.startsWith message "bestmove" && negb (resolved (request rid s)));
      [|split; assumption].
    eapply settled_promised; [exact Ht | | apply finish_touches | apply finish_settled].
    simpl. eauto.
  - unfold evaluationHandler.
    destruct (Js.startsWith message "info" && Js.includes message "score cp"
              && negb (resolved (request rid s))).
    + destruct (Js.match_score_cp message) as [capture|] eqn:Hm; [|split; assumption].
      destruct (Js.includes message _); [|split; assumption].
      pose proof (match_score_cp_number _ _ Hm) as Hz.
      eapply settled_promised; [exact Ht | | apply finish_touches | apply finish_settled].
      simpl. left. exists (Js.parseInt capture). split; [exact Hz | reflexivity].
    + destruct (Js.startsWith message "bestmove" && negb (resolved (request rid s)));
        [|split; assumption].
      eapply settled_promised; [exact Ht | | apply finish_touches | apply finish_settled].
      simpl. left. exists (Js.Int 0). split; [discriminate | reflexivity].
  - split; assumption.
Qed.

Lemma callHandler_promised h rid k message s :
  promised rid k s -> promised rid k (callHandler h message s).
Proof.
  destruct (Nat.eq_dec h rid) as [-> | Hne].
  - apply callHandler_promised_own.
  - intro P. eapply (promised_other h); [apply callHandler_touches | exact Hne | exact P].
Qed.

(** The timer callback of a pending promise settles it. *)
Lemma timeoutCallback_settles rid k s :
  typed rid k s ->
  promised rid k (timeoutCallback rid s) /\
  settled (request rid (timeoutCallback rid s)) <> None.
Proof.
  intros Ht. pose proof Ht as [Hk Hs].
  unfold timeoutCallback. rewrite Hk.
  destruct k as [|d|].
  - destruct (settled (request rid s)) as [o|] eqn:Hset.
    + assert (promised rid Search s) by (split; [exact Ht | congruence]).
      destruct (negb (resolved (request rid s))).
      * split.
        -- eapply settled_promised; [exact Ht | | apply expire_touches | apply expire_settled].
           simpl. eauto.
        -- unfold resolve, reject, request. rewrite expire_settled. discriminate.
      * split; [assumption | congruence].
    + destruct Hs as [Hs | Hs]; [discriminate|]. rewrite Hs. simpl. split.
      * eapply settled_promised; [exact Ht | | apply expire_touches | apply expire_settled].
        simpl. eauto.
      * unfold resolve, reject, request. rewrite expire_settled. discriminate.
  - destruct (settled (request rid s)) as [o|] eqn:Hset.
    + assert (promised rid (Evaluate d) s) by (split; [exact Ht | congruence]).
      destruct (negb (resolved (request rid s))).
      * split.
        -- eapply settled_promised; [exact Ht | | apply expire_touches | apply expire_settled].
           simpl. right. reflexivity.
        -- unfold resolve, reject, request. rewrite expire_settled. discriminate.
      * split; [assumption | congruence].
    + destruct Hs as [Hs | Hs]; [discriminate|]. rewrite Hs. simpl. split.
      * eapply settled_promised; [exact Ht | | apply expire_touches | apply expire_settled].
        simpl. right. reflexivity.
      * unfold resolve, reject, request. rewrite expire_settled. discriminate.
  - split.
    + eapply settled_promised; [exact Ht | | apply settle_touches | apply settle_settled].
      reflexivity.
    + unfold resolve, request. rewrite settle_settled. discriminate.
Qed.

(** *** Delivery of a line *)

Lemma forEachHandler_calm count index message s :
  Calm s (forEachHandler count index message s).
Proof.
  revert index s. induction count as [|count IH]; intros index s; simpl.
  - apply Calm_refl.
  - eapply Calm_trans; [|apply IH].
    destruct (nth_error (messageHandlers s) index);
      [eapply Touches_Calm, callHandler_touches | apply Calm_refl].
Qed.

Lemma forEachHandler_promised rid k count index message s :
  promised rid k s -> promised rid k (forEachHandler count index message s).
Proof.
  revert index s. induction count as [|count IH]; intros index s H; simpl.
  - exact H.
  - apply IH. destruct (nth_error (messageHandlers s) index);
      [apply callHandler_promised|]; exact H.
Qed.

Lemma promised_ext rid k s s' :
  requests s' = requests s -> timers s' = timers s ->
  promised rid k s -> promised rid k s'.
Proof.
  intros Hr Ht. unfold promised, typed, armed, request. rewrite Hr, Ht. auto.
Qed.

Lemma onmessage_promised rid k message s :
  promised rid k s -> promised rid k (onmessage message s).
Proof.
  intro H. unfold onmessage.
  destruct (String.eqb message "uciok").
  - eapply promised_ext; [| |exact H]; unfold postMessage; simpl;
      destruct (worker s); reflexivity.
  - destruct (String.eqb message "readyok").
    + destruct (uciReceived s); [|exact H].
      eapply promised_ext; [| |exact H]; reflexivity.
    + apply forEachHandler_promised, H.
Qed.

Lemma onmessage_evolves message s : Evolves s (onmessage message s).
Proof.
  unfold onmessage.
  destruct (String.eqb message "uciok").
  - unfold postMessage. simpl. destruct (worker s) as [sent|] eqn:Hw.
    + constructor; simpl; auto; try lia.
      exists ["isready"]. rewrite Hw. split; [repeat constructor | reflexivity].
    + constructor; simpl; auto; try lia.
      exists []. rewrite Hw. split; [constructor | reflexivity].
  - destruct (String.eqb message "readyok").
    + destruct (uciReceived s); [|apply Evolves_refl].
      constructor; simpl; auto; try lia.
      exists []. split; [constructor|].
      destruct (worker s); simpl; [rewrite app_nil_r|]; reflexivity.
    + apply sameHost_Evolves, c_host, forEachHandler_calm.
Qed.

Lemma onmessage_work message s :
  inbox (onmessage message s) = inbox s /\
  (List.length (timers (onmessage message s)) <= List.length (timers s))%nat /\
  (forall t, In t (timers (onmessage message s)) -> In t (timers s)) /\
  (forall r, kind (requests (onmessage message s) r) = kind (requests s r)) /\
  (forall r o, settled (requests s r) = Some o ->
               settled (requests (onmessage message s) r) = Some o) /\
  (forall r, (count_occ Nat.eq_dec (messageHandlers (onmessage message s)) r
              <= count_occ Nat.eq_dec (messageHandlers s) r)%nat) /\
  fresh (onmessage message s) = fresh s.
Proof.
  unfold onmessage.
  destruct (String.eqb message "uciok").
  - unfold postMessage. simpl. destruct (worker s); simpl; repeat split; auto.
  - destruct (String.eqb message "readyok").
    + destruct (uciReceived s); simpl; repeat split; auto.
    + destruct (forEachHandler_calm (List.length (messageHandlers s)) 0 message s)
        as [(_&_&_&_&_&_&_&Hi&Hf) Hk Hs Hsub Hlen Hh].
      repeat split; auto.
Qed.

(** *** Timers *)

Lemma earliest_In ts t : earliest ts = Some t -> In t ts.
Proof.
  revert t. induction ts as [|u ts IH]; simpl; intros t H; [discriminate|].
  destruct (earliest ts) as [v|].
  - destruct (snd v <? snd u); inversion H; subst; auto.
  - inversion H. now left.
Qed.

Lemma earliest_some ts : ts <> [] -> exists t, earliest ts = Some t.
Proof.
  destruct ts as [|u ts]; [congruence|]. intros _. simpl.
  destruct (earliest ts) as [v|]; [destruct (snd v <? snd u)|]; eauto.
Qed.

(** No armed timer is due before the earliest one. *)
Lemma earliest_least ts t :
  earliest ts = Some t -> forall u, In u ts -> snd t <= snd u.
Proof.
  revert t. induction ts as [|v ts IH]; simpl; intros t H u Hu; [contradiction|].
  destruct (earliest ts) as [e|] eqn:He.
  - specialize (IH e eq_refl).
    destruct (snd e <? snd v) eqn:Hc; inversion H; subst.
    + apply Z.ltb_lt in Hc. destruct Hu as [<- | Hu]; [lia | auto].
    + apply Z.ltb_ge in Hc. destruct Hu as [<- | Hu]; [lia|].
      specialize (IH u Hu). lia.
  - inversion H; subst. destruct Hu as [<- | Hu]; [lia|].
    destruct ts; [contradiction | simpl in He].
    destruct (earliest ts); [destruct (_ <? _)|]; discriminate.
Qed.

Lemma disarm_length t ts :
  In t ts -> S (List.length (disarm t ts)) = List.length ts.
Proof.
  induction ts as [|u ts IH]; simpl; [contradiction|].
  intros [-> | Hin].
  - rewrite Nat.eqb_refl, Z.eqb_refl. reflexivity.
  - destruct (Nat.eqb (fst t) (fst u) && (snd t =? snd u)); simpl; [reflexivity|].
    rewrite IH by exact Hin. reflexivity.
Qed.

Lemma disarm_keeps t u ts : fst u <> fst t -> In u ts -> In u (disarm t ts).
Proof.
  intro Hne. induction ts as [|v ts IH]; simpl; [auto|].
  intros [-> | Hin].
  - destruct (Nat.eqb_spec (fst t) (fst u)); [congruence|]. now left.
  - destruct (Nat.eqb (fst t) (fst v) && (snd t =? snd v)); [exact Hin | right; auto].
Qed.

Lemma disarm_sub t u ts : In u (disarm t ts) -> In u ts.
Proof.
  induction ts as [|v ts IH]; simpl; [auto|].
  destruct (Nat.eqb (fst t) (fst v) && (snd t =? snd v)); [auto|].
  intros [-> | Hin]; auto.
Qed.

Lemma fire_promised rid k t s :
  promised rid k s -> promised rid k (fire t s).
Proof.
  intros [Ht Ha]. unfold fire.
  set (s1 := set_now _ (set_timers _ s)).
  assert (Ht1 : typed rid k s1) by exact Ht.
  destruct (Nat.eq_dec (fst t) rid) as [Heq | Hne].
  - rewrite Heq. exact (proj1 (timeoutCallback_settles rid k s1 Ht1)).
  - eapply (promised_other (fst t)); [apply timeoutCallback_touches | exact Hne |].
    split; [exact Ht1|]. intro Hs. destruct (Ha Hs) as [d Hd]. exists d.
    subst s1. simpl. apply disarm_keeps; [simpl; congruence | exact Hd].
Qed.

Lemma fire_evolves t s : Evolves s (fire t s).
Proof.
  unfold fire. eapply Evolves_trans;
    [|apply sameHost_Evolves, (t_host _ _ _ (timeoutCallback_touches _ _))].
  constructor; simpl; auto; try lia.
  exists []. split; [constructor|].
  destruct (worker s); simpl; [rewrite app_nil_r|]; reflexivity.
Qed.

Lemma fire_work t s :
  In t (timers s) ->
  inbox (fire t s) = inbox s /\
  (S (List.length (timers (fire t s))) <= List.length (timers s))%nat.
Proof.
  intro Hin. unfold fire.
  destruct (timeoutCallback_touches (fst t)
              (set_now (Z.max (now s) (snd t)) (set_timers (disarm t (timers s)) s)))
    as [(_&_&_&_&_&_&_&Hi&_) _ _ _ _ _ Hlen _].
  simpl in *. split; [exact Hi|].
  rewrite <- (disarm_length t (timers s) Hin). lia.
Qed.

Lemma deliver_promised rid k at_ message s :
  promised rid k s -> promised rid k (deliver at_ message s).
Proof.
  intro H. unfold deliver. simpl. destruct (worker s); [|exact H].
  apply onmessage_promised. exact H.
Qed.

Lemma deliver_evolves at_ message s : Evolves s (deliver at_ message s).
Proof.
  unfold deliver. simpl.
  assert (E : Evolves s (set_now (Z.max (now s) at_) s)).
  { constructor; simpl; auto; try lia.
    exists []. split; [constructor|].
    destruct (worker s); simpl; [rewrite app_nil_r|]; reflexivity. }
  destruct (worker s); [|exact E].
  eapply Evolves_trans; [exact E | apply onmessage_evolves].
Qed.

Lemma deliver_work at_ message s :
  inbox (deliver at_ message s) = inbox s /\
  (List.length (timers (deliver at_ message s)) <= List.length (timers s))%nat.
Proof.
  unfold deliver. simpl. destruct (worker s); [|auto].
  destruct (onmessage_work message (set_now (Z.max (now s) at_) s)) as (Hi & Hl & _).
  auto.
Qed.

(** *** One turn of the loop, and [await] *)

Lemma tick_promised rid k s s' :
  tick s = Some s' -> promised rid k s -> promised rid k s'.
Proof.
  unfold tick. intros H P.
  destruct (inbox s) as [|[at_ message] rest] eqn:Hin;
    destruct (earliest (timers s)) as [t|] eqn:Ht; try discriminate.
  - inversion H; subst. apply fire_promised, P.
  - destruct (snd t <=? at_); inversion H; subst.
    + apply fire_promised, P.
    + apply deliver_promised. eapply promised_ext; [| |exact P]; reflexivity.
  - inversion H; subst.
    apply deliver_promised. eapply promised_ext; [| |exact P]; reflexivity.
Qed.

Lemma set_inbox_evolves rest s : Evolves s (set_inbox rest s).
Proof.
  constructor; simpl; auto; try lia.
  exists []. split; [constructor|].
  destruct (worker s); simpl; [rewrite app_nil_r|]; reflexivity.
Qed.

Lemma tick_evolves s s' : tick s = Some s' -> Evolves s s'.
Proof.
  unfold tick. intros H.
  destruct (inbox s) as [|[at_ message] rest] eqn:Hin;
    destruct (earliest (timers s)) as [t|] eqn:Ht; try discriminate.
  - inversion H; subst. apply fire_evolves.
  - destruct (snd t <=? at_); inversion H; subst.
    + apply fire_evolves.
    + eapply Evolves_trans; [apply set_inbox_evolves | apply deliver_evolves].
  - inversion H; subst.
    eapply Evolves_trans; [apply set_inbox_evolves | apply deliver_evolves].
Qed.

Lemma tick_work s s' : tick s = Some s' -> (pendingWork s' < pendingWork s)%nat.
Proof.
  unfold tick, pendingWork. intros H.
  destruct (inbox s) as [|[at_ message] rest] eqn:Hin;
    destruct (earliest (timers s)) as [t|] eqn:Ht; try discriminate.
  - inversion H; subst.
    destruct (fire_work t s (earliest_In _ _ Ht)) as [Hi Hl]. rewrite Hi, Hin. simpl. lia.
  - destruct (snd t <=? at_); inversion H; subst.
    + destruct (fire_work t s (earliest_In _ _ Ht)) as [Hi Hl]. rewrite Hi, Hin. simpl. lia.
    + destruct (deliver_work at_ message (set_inbox rest s)) as [Hi Hl].
      rewrite Hi. simpl in *. lia.
  - inversion H; subst.
    destruct (deliver_work at_ message (set_inbox rest s)) as [Hi Hl].
    rewrite Hi. simpl in *. lia.
Qed.

Lemma tick_armed rid s : armed rid s -> exists s', tick s = Some s'.
Proof.
  intros [d Hd]. unfold tick.
  destruct (earliest_some (timers s)) as [t Ht]; [intro E; rewrite E in Hd; contradiction|].
  rewrite Ht. destruct (inbox s) as [|[at_ message] rest]; [eauto|].
  destruct (snd t <=? at_); eauto.
Qed.

Lemma run_done fuel rid o s :
  settled (request rid s) = Some o -> run fuel rid s = (completionOf o, s).
Proof. intro H. destruct fuel; simpl; rewrite H; destruct o; reflexivity. Qed.

Lemma promised_typed rid k o s :
  promised rid k s -> settled (request rid s) = Some o -> wellTyped k o.
Proof. intros [[_ Ht] _] Hs. rewrite Hs in Ht. exact Ht. Qed.

(** A promise whose timer is armed is settled by the time the loop has
    nothing left to do: [await] never hangs on it. *)
Lemma run_settles fuel rid k s :
  promised rid k s -> (pendingWork s <= fuel)%nat ->
  exists o s',
    run fuel rid s = (completionOf o, s') /\
    settled (request rid s') = Some o /\
    wellTyped k o /\ promised rid k s' /\ Evolves s s'.
Proof.
  revert s. induction fuel as [|fuel IH]; intros s P Hfuel;
    destruct (settled (request rid s)) as [o|] eqn:Hs;
    try (exists o, s; split; [apply run_done, Hs|];
         split; [exact Hs|]; split; [eapply promised_typed; eassumption|];
         split; [exact P | apply Evolves_refl]).
  - destruct P as [_ Ha]. destruct (Ha Hs) as [d Hd].
    unfold pendingWork in Hfuel. destruct (timers s); [contradiction | simpl in Hfuel; lia].
  - simpl. rewrite Hs.
    pose proof P as [_ Ha]. destruct (tick_armed rid s (Ha Hs)) as [s1 Ht].
    rewrite Ht.
    destruct (IH s1) as (o & s' & Hrun & Hset & Hty & P' & E).
    + eapply tick_promised; eassumption.
    + pose proof (tick_work _ _ Ht). lia.
    + exists o, s'.
      split; [exact Hrun|]. split; [exact Hset|]. split; [exact Hty|].
      split; [exact P'|].
      eapply Evolves_trans; [eapply tick_evolves; eassumption | exact E].
Qed.

Lemma await_settles rid k s :
  promised rid k s ->
  exists o s',
    await rid s = (completionOf o, s') /\
    settled (request rid s') = Some o /\
    wellTyped k o /\ promised rid k s' /\ Evolves s s'.
Proof. intro P. apply run_settles; [exact P | apply Nat.le_refl]. Qed.

(** ** The engine-backed methods *)

Section Engine.

Context {chess : ChessJs.Api}.

Lemma notReady_false s :
  notReady s = false <-> isReady s = true /\ exists sent, worker s = Some sent.
Proof.
  unfold notReady, isNull. destruct (isReady s), (worker s); simpl; split;
    try discriminate; try tauto; eauto.
  - intros [_ [? ?]]. discriminate.
  - intros [? _]. discriminate.
  - intros [? _]. discriminate.
Qed.

Lemma evolves_ready s s' : Evolves s s' -> notReady s = false -> notReady s' = false.
Proof.
  intros E H. apply notReady_false in H as [Hr [sent Hw]]. apply notReady_false.
  split; [apply (ev_ready _ _ E), Hr|].
  destruct (ev_worker _ _ E) as (replies & _ & Heq). rewrite Heq, Hw. simpl. eauto.
Qed.

Lemma postMessage_promised rid k line s :
  promised rid k s -> promised rid k (postMessage line s).
Proof.
  apply promised_ext; unfold postMessage; destruct (worker s); reflexivity.
Qed.

(** A promise as its executor leaves it: unresolved, timer armed. *)
Lemma fresh_promised k delay (subscribe : bool) s :
  let rid := fst (newPromise k s) in
  let s1 := snd (newPromise k s) in
  promised rid k (setTimeout rid delay (if subscribe then pushHandler rid s1 else s1)).
Proof.
  unfold newPromise, promised, typed, armed, request, update. simpl.
  destruct subscribe; simpl; rewrite Nat.eqb_refl; simpl;
    (split; [split; [reflexivity | now right]|]);
    intros _; eexists; apply in_or_app; right; now left.
Qed.

Lemma startEvaluation_promised fen d s :
  promised (fst (startEvaluation fen d s)) (Evaluate d) (snd (startEvaluation fen d s)).
Proof.
  unfold startEvaluation.
  pose proof (fresh_promised (Evaluate d) 3000 true s) as P.
  destruct (newPromise (Evaluate d) s) as [rid s1]. simpl in *.
  apply postMessage_promised, postMessage_promised, P.
Qed.

Lemma startEvaluation_host fen d s sent :
  worker s = Some sent ->
  let s1 := snd (startEvaluation fen d s) in
  worker s1 = Some (sent ++ [("position fen " ++ fen)%string; ("go depth " ++ Js.string_of_Z d)%string])%list
  /\ isReady s1 = isReady s /\ entropy s1 = entropy s /\ drawn s1 = drawn s
  /\ evaluations s1 = evaluations s /\ now s1 = now s /\ inbox s1 = inbox s.
Proof.
  intro Hw. unfold startEvaluation, newPromise, postMessage. simpl. rewrite Hw. simpl.
  rewrite <- app_assoc. repeat split.
Qed.

(** [evaluatePosition] on a ready session always comes back: with a
    number or with the time-out error. *)
Lemma evaluatePosition_ready fen d s sent :
  isReady s = true -> worker s = Some sent ->
  exists r s' replies,
    evaluatePosition fen d s = (r, s') /\
    evaluated r /\
    isReady s' = true /\
    Forall (eq "isready") replies /\
    worker s' = Some (sent ++ [("position fen " ++ fen)%string; ("go depth " ++ Js.string_of_Z d)%string]
                           ++ replies)%list /\
    evaluations s'
    = (evaluations s ++ [{| position := fen; atDepth := d; outcome := r |}])%list /\
    entropy s' = entropy s /\ drawn s' = drawn s /\ now s <= now s'.
Proof.
  intros Hr Hw. unfold evaluatePosition.
  assert (Hn : notReady s = false) by (apply notReady_false; eauto).
  rewrite Hn.
  pose proof (startEvaluation_promised fen d s) as P.
  pose proof (startEvaluation_host fen d s sent Hw) as (Hw1 & Hr1 & He1 & Hd1 & Hv1 & Hn1 & _).
  destruct (startEvaluation fen d s) as [rid s1]. simpl in *.
  destruct (await_settles rid _ s1 P) as (o & s2 & Hrun & _ & Hty & _ & E).
  unfold bind. rewrite Hrun.
  destruct (ev_worker _ _ E) as (replies & Hrep & Hw2). rewrite Hw1 in Hw2. simpl in Hw2.
  assert (Hgen : forall r,
             evaluated r ->
             exists r0 s' replies0,
               (r, set_evaluations
                     (evaluations s2 ++ [{| position := fen; atDepth := d; outcome := r |}])%list
                     s2) = (r0, s') /\
               evaluated r0 /\ isReady s' = true /\ Forall (eq "isready") replies0 /\
               worker s' = Some (sent ++ [("position fen " ++ fen)%string;
                                          ("go depth " ++ Js.string_of_Z d)%string]
                                      ++ replies0)%list /\
               evaluations s'
               = (evaluations s ++ [{| position := fen; atDepth := d; outcome := r0 |}])%list /\
               entropy s' = entropy s /\ drawn s' = drawn s /\ now s <= now s').
  { intros r Hev. eexists r, _, replies. split; [reflexivity|]. simpl.
    rewrite (ev_evaluations _ _ E), (ev_entropy _ _ E), (ev_drawn _ _ E), Hv1, He1, Hd1.
    pose proof (ev_clock _ _ E). rewrite <- app_assoc in Hw2.
    split; [exact Hev|]. split; [apply (ev_ready _ _ E); congruence|].
    split; [exact Hrep|]. split; [exact Hw2|]. split; [reflexivity|].
    split; [reflexivity|]. split; [reflexivity | lia]. }
  destruct Hty as [(n & Hn0 & ->) | ->]; simpl; apply Hgen.
  - left. eauto.
  - right. reflexivity.
Qed.




Lemma le_refl a : a <> Js.NaN -> Js.le a a = true.
Proof. destruct a; simpl; try reflexivity; [intros _; apply Z.leb_refl | congruence]. Qed.









End Engine.

#[local] Existing Instance Book.api.


Lemma callHandler_ignores rid k message s :
  kind (request rid s) = k -> settlesOn k message = false ->
  callHandler rid message s = s.
Proof.
  intros Hk Hs. unfold callHandler. rewrite Hk. destruct k as [|d|]; simpl in Hs.
  - unfold searchHandler. rewrite Hs. reflexivity.
  - unfold evaluationHandler.
    destruct (Js.startsWith message "info" && Js.includes message "score cp"); simpl.
    + destruct (resolved (request rid s)); simpl; [rewrite andb_false_r; reflexivity|].
      destruct (Js.match_score_cp message); [rewrite Hs|]; reflexivity.
    + rewrite Hs. reflexivity.
  - reflexivity.
Qed.

Lemma callHandler_settles rid k message s :
  kind (request rid s) = k -> settlesOn k message = true ->
  resolved (request rid s) = false ->
  callHandler rid message s
  = settle rid (settlementOn k message)
      (clearTimeout rid (removeHandler rid (markResolved rid s))).
Proof.
  intros Hk Hs Hr. unfold callHandler. rewrite Hk. destruct k as [|d|]; simpl in Hs.
  - unfold searchHandler. rewrite Hs, Hr. reflexivity.
  - unfold evaluationHandler, settlementOn. rewrite Hr.
    destruct (Js.startsWith message "info" && Js.includes message "score cp"); simpl.
    + destruct (Js.match_score_cp message); [rewrite Hs; reflexivity | discriminate].
    + rewrite Hs. reflexivity.
  - discriminate.
Qed.

Lemma Waiting_other h rid k due s s' :
  Touches h s s' -> h <> rid -> Waiting rid k due s -> Waiting rid k due s'.
Proof.
  intros T Hne [Hk Hp Hu Ha Hd Hc Hn].
  destruct (t_host _ _ _ T) as (_&_&_&_&_&_&Hnow&_).
  unfold request in *.
  constructor; unfold request; rewrite ?(t_others _ _ _ T rid) by congruence; auto.
  - apply (t_timers_kept _ _ _ T); [congruence | exact Ha].
  - intros d Hin. apply Hd. apply (t_timers_sub _ _ _ T), Hin.
  - destruct (t_handlers _ _ _ T) as [-> | ->]; [exact Hc|].
    rewrite remove_first_count_other by congruence. exact Hc.
  - lia.
Qed.

Lemma forEachHandler_waiting rid k due count index message s :
  settlesOn k message = false ->
  Waiting rid k due s -> Waiting rid k due (forEachHandler count index message s).
Proof.
  intro Hs. revert index s. induction count as [|count IH]; intros index s W; simpl.
  - exact W.
  - apply IH. destruct (nth_error (messageHandlers s) index) as [h|]; [|exact W].
    destruct (Nat.eq_dec h rid) as [-> | Hne].
    + rewrite (callHandler_ignores rid k); [exact W | apply W | exact Hs].
    + eapply Waiting_other; [apply callHandler_touches | exact Hne | exact W].
Qed.

Lemma Waiting_ext rid k due s s' :
  requests s' = requests s -> timers s' = timers s ->
  messageHandlers s' = messageHandlers s -> now s' <= due ->
  Waiting rid k due s -> Waiting rid k due s'.
Proof.
  intros Hr Ht Hh Hn [Hk Hp Hu Ha Hd Hc _].
  constructor; unfold request in *; rewrite ?Hr, ?Ht, ?Hh; auto.
Qed.

Lemma onmessage_waiting rid k due message s :
  settlesOn k message = false ->
  Waiting rid k due s -> Waiting rid k due (onmessage message s).
Proof.
  intros Hs W. unfold onmessage.
  destruct (String.eqb message "uciok").
  - eapply Waiting_ext; [| | | |exact W]; unfold postMessage; simpl;
      destruct (worker s); try reflexivity; apply W.
  - destruct (String.eqb message "readyok").
    + destruct (uciReceived s); [|exact W].
      eapply Waiting_ext; [| | | |exact W]; try reflexivity. apply W.
    + apply forEachHandler_waiting; assumption.
Qed.

(** The timer callback of a waiting request settles it with its time-out
    value and, for a search or an evaluation, unsubscribes its handler. *)
Lemma timeoutCallback_waiting rid k s :
  kind (request rid s) = k -> settled (request rid s) = None ->
  resolved (request rid s) = false ->
  (count_occ Nat.eq_dec (messageHandlers s) rid <= 1)%nat ->
  settled (request rid (timeoutCallback rid s)) = Some (timeoutSettlement k)
  /\ (k <> Sleep -> ~ In rid (messageHandlers (timeoutCallback rid s)))
  /\ sameHost s (timeoutCallback rid s).
Proof.
  intros Hk Hp Hu Hc.
  assert (Hgen : forall o,
             settled (request rid (settle rid o (removeHandler rid (markResolved rid s))))
             = Some o
             /\ ~ In rid (messageHandlers (settle rid o (removeHandler rid (markResolved rid s))))
             /\ sameHost s (settle rid o (removeHandler rid (markResolved rid s)))).
  { intro o. split; [|split].
    - unfold request in *. rewrite expire_settled, Hp. reflexivity.
    - assert (E : messageHandlers (settle rid o (removeHandler rid (markResolved rid s)))
                  = remove_first rid (messageHandlers s)).
      { unfold settle, removeHandler, markResolved, request, update. simpl.
        rewrite Nat.eqb_refl. simpl. destruct (settled (requests s rid)); reflexivity. }
      rewrite E. intro Hin.
      apply (count_occ_In Nat.eq_dec) in Hin.
      rewrite remove_first_count_same in Hin. lia.
    - apply (t_host _ _ _ (expire_touches rid o s)). }
  unfold timeoutCallback. rewrite Hk, Hu. simpl.
  destruct k as [|d|].
  - destruct (Hgen (Resolved (VMove None))) as (H1 & H2 & H3). auto.
  - destruct (Hgen (Rejected "Position evaluation timed out")) as (H1 & H2 & H3). auto.
  - split; [|split; [congruence|]].
    + unfold resolve, request in *. rewrite settle_settled, Hp. reflexivity.
    + apply (t_host _ _ _ (settle_touches rid (Resolved VUnit) s)).
Qed.

Lemma fire_waiting_other rid k due t s :
  Waiting rid k due s -> fst t <> rid -> snd t <= due ->
  Waiting rid k due (fire t s).
Proof.
  intros W Hne Hle. unfold fire.
  eapply Waiting_other; [apply timeoutCallback_touches | exact Hne |].
  destruct W as [Hk Hp Hu Ha Hd Hc Hn].
  constructor; simpl; auto.
  - apply disarm_keeps; [simpl; congruence | exact Ha].
  - intros d Hin. apply Hd. eapply disarm_sub; eassumption.
  - lia.
Qed.

Lemma fire_waiting_own rid k due s :
  Waiting rid k due s ->
  settled (request rid (fire (rid, due) s)) = Some (timeoutSettlement k)
  /\ (k <> Sleep -> ~ In rid (messageHandlers (fire (rid, due) s)))
  /\ now (fire (rid, due) s) = due.
Proof.
  intros [Hk Hp Hu Ha Hd Hc Hn]. unfold fire. simpl fst. simpl snd.
  set (s1 := set_now _ (set_timers _ s)).
  destruct (timeoutCallback_waiting rid k s1 Hk Hp Hu Hc) as (H1 & H2 & H3).
  split; [exact H1|]. split; [exact H2|].
  destruct H3 as (_&_&_&_&_&_&Hnow&_). rewrite Hnow. subst s1. simpl. lia.
Qed.

(** If no settling line arrives before the deadline, the promise is settled
    by its timer, at the deadline, and its handler is unsubscribed. *)
Lemma run_times_out_either fuel rid k due s :
  Waiting rid k due s -> worker s = None \/ silentUntil k due (inbox s) ->
  (pendingWork s <= fuel)%nat ->
  exists s',
    run fuel rid s = (completionOf (timeoutSettlement k), s')
    /\ settled (request rid s') = Some (timeoutSettlement k)
    /\ (k <> Sleep -> ~ In rid (messageHandlers s'))
    /\ now s' = due
    /\ Evolves s s'.
Proof.
  revert s. induction fuel as [|fuel IH]; intros s W Hsilent Hfuel.
  - exfalso. pose proof (w_armed _ _ _ _ W) as Ha. unfold pendingWork in Hfuel.
    destruct (timers s); [contradiction | simpl in Hfuel; lia].
  - simpl. rewrite (w_pending _ _ _ _ W).
    assert (Hfire : forall t, earliest (timers s) = Some t ->
              tick s = Some (fire t s) ->
              exists s',
                run fuel rid (fire t s) = (completionOf (timeoutSettlement k), s')
                /\ settled (request rid s') = Some (timeoutSettlement k)
                /\ (k <> Sleep -> ~ In rid (messageHandlers s')) /\ now s' = due
                /\ Evolves s s').
    { intros t Ht Htick.
      pose proof (earliest_In _ _ Ht) as Hin.
      destruct (Nat.eq_dec (fst t) rid) as [Heq | Hne].
      - assert (t = (rid, due)) as ->.
        { destruct t as [r d]. simpl in Heq. subst r.
          f_equal. apply (w_due _ _ _ _ W), Hin. }
        destruct (fire_waiting_own rid k due s W) as (H1 & H2 & H3).
        exists (fire (rid, due) s). rewrite (run_done _ _ _ _ H1).
        split; [reflexivity|]. split; [exact H1|]. split; [exact H2|].
        split; [exact H3 | apply fire_evolves].
      - assert (Hle : snd t <= due)
          by (apply (earliest_least _ _ Ht (rid, due)), W).
        destruct (IH (fire t s)) as (s' & H1 & H2 & H3 & H4 & E).
        + apply fire_waiting_other; assumption.
        + destruct Hsilent as [Hnone | Hsilent].
          * left. destruct (ev_worker _ _ (fire_evolves t s)) as (replies & _ & Hw).
            rewrite Hw, Hnone. reflexivity.
          * right. destruct (fire_work t s Hin) as [-> _]. exact Hsilent.
        + pose proof (tick_work _ _ Htick). lia.
        + exists s'.
          split; [exact H1|]. split; [exact H2|]. split; [exact H3|].
          split; [exact H4|].
          eapply Evolves_trans; [apply fire_evolves | exact E]. }
    destruct (earliest_some (timers s)) as [t Ht].
    { intro E. pose proof (w_armed _ _ _ _ W) as Ha. rewrite E in Ha. contradiction. }
    unfold tick in *. rewrite Ht in *.
    destruct (inbox s) as [|[at_ message] rest] eqn:Hin; [apply (Hfire t); reflexivity|].
    destruct (snd t <=? at_) eqn:Hcmp; [apply (Hfire t); reflexivity|].
    apply Z.leb_gt in Hcmp.
    assert (Hle : snd t <= due)
      by (apply (earliest_least _ _ Ht (rid, due)), W).
    set (s1 := deliver at_ message (set_inbox rest s)).
    assert (W1 : Waiting rid k due s1).
    { subst s1. unfold deliver. simpl.
      assert (W0 : Waiting rid k due (set_now (Z.max (now s) at_) (set_inbox rest s))).
      { eapply Waiting_ext; [| | | |exact W]; try reflexivity.
        simpl. pose proof (w_clock _ _ _ _ W). lia. }
      destruct (worker s) eqn:Hw; [|exact W0].
      destruct Hsilent as [Hnone | Hsilent]; [discriminate|].
      apply onmessage_waiting; [|exact W0].
      apply (Hsilent at_); [now left | lia]. }
    destruct (IH s1 W1) as (s' & H1 & H2 & H3 & H4 & E).
    + subst s1. destruct Hsilent as [Hnone | Hsilent].
      * left. unfold deliver. simpl. rewrite Hnone. exact Hnone.
      * right. destruct (deliver_work at_ message (set_inbox rest s)) as [-> _].
        simpl. intros a m Hi. apply Hsilent. now right.
    + assert (Ht' : tick s = Some s1)
        by (unfold tick; rewrite Hin, Ht; destruct (snd t <=? at_) eqn:E; [lia | reflexivity]).
      pose proof (tick_work _ _ Ht'). lia.
    + exists s'.
      split; [exact H1|]. split; [exact H2|]. split; [exact H3|]. split; [exact H4|].
      eapply Evolves_trans; [|exact E].
      eapply Evolves_trans; [apply set_inbox_evolves | apply deliver_evolves].
Qed.

Lemma run_times_out fuel rid k due s :
  Waiting rid k due s -> silentUntil k due (inbox s) ->
  (pendingWork s <= fuel)%nat ->
  exists s',
    run fuel rid s = (completionOf (timeoutSettlement k), s')
    /\ settled (request rid s') = Some (timeoutSettlement k)
    /\ (k <> Sleep -> ~ In rid (messageHandlers s'))
    /\ now s' = due
    /\ Evolves s s'.
Proof. intros W Hs Hf. apply run_times_out_either; auto. Qed.


Lemma settlesOn_dispatched k message :
  settlesOn k message = true ->
  String.eqb message "uciok" = false /\ String.eqb message "readyok" = false.
Proof.
  intro H. split.
  - destruct (String.eqb_spec message "uciok") as [-> |]; [|reflexivity].
    destruct k; simpl in H.
    + discriminate.
    + change (Js.startsWith "uciok" "info") with false in H. simpl in H. discriminate.
    + discriminate.
  - destruct (String.eqb_spec message "readyok") as [-> |]; [|reflexivity].
    destruct k; simpl in H.
    + discriminate.
    + change (Js.startsWith "readyok" "info") with false in H. simpl in H. discriminate.
    + discriminate.
Qed.

Lemma onmessage_now message s : now (onmessage message s) = now s.
Proof.
  unfold onmessage. destruct (String.eqb message "uciok");
    [unfold postMessage; simpl; destruct (worker s); reflexivity|].
  destruct (String.eqb message "readyok"); [destruct (uciReceived s); reflexivity|].
  apply (c_host _ _ (forEachHandler_calm _ _ _ _)).
Qed.

Lemma onmessage_alone rid k due message s :
  settlesOn k message = false ->
  Alone rid k due s -> Alone rid k due (onmessage message s).
Proof.
  intros Hs [W Hh Ht Hw].
  constructor; [apply onmessage_waiting; assumption | | |]; unfold onmessage.
  - destruct (String.eqb message "uciok");
      [unfold postMessage; simpl; destruct (worker s); exact Hh|].
    destruct (String.eqb message "readyok"); [destruct (uciReceived s); exact Hh|].
    rewrite Hh. simpl. rewrite Hh. simpl.
    rewrite (callHandler_ignores rid k); [exact Hh | apply W | exact Hs].
  - destruct (String.eqb message "uciok");
      [unfold postMessage; simpl; destruct (worker s); exact Ht|].
    destruct (String.eqb message "readyok"); [destruct (uciReceived s); exact Ht|].
    rewrite Hh. simpl. rewrite Hh. simpl.
    rewrite (callHandler_ignores rid k); [exact Ht | apply W | exact Hs].
  - destruct (String.eqb message "uciok").
    { unfold postMessage. simpl. destruct (worker s); simpl; congruence. }
    destruct (String.eqb message "readyok"); [destruct (uciReceived s); exact Hw|].
    rewrite Hh. simpl. rewrite Hh. simpl.
    rewrite (callHandler_ignores rid k); [exact Hw | apply W | exact Hs].
Qed.

(** The first settling line, if it arrives before the deadline, settles a
    request that is alone, with the value its handler reads off the line;
    handler and timer are gone afterwards. *)
Lemma run_hears rid k due pre at_ message post :
  forall fuel s,
    Alone rid k due s ->
    inbox s = (pre ++ (at_, message) :: post)%list ->
    (forall a m, In (a, m) pre -> a < due /\ settlesOn k m = false) ->
    at_ < due -> settlesOn k message = true ->
    (pendingWork s <= fuel)%nat ->
    exists s',
      run fuel rid s = (completionOf (settlementOn k message), s')
      /\ messageHandlers s' = [] /\ timers s' = [] /\ inbox s' = post
      /\ now s' = Z.max (now s) (fold_right (fun l acc => Z.max (fst l) acc) at_ pre)
      /\ Evolves s s'.
Proof.
  induction pre as [|[a m] pre IH]; intros fuel s A Hin Hpre Hat Hs Hfuel.
  - destruct A as [W Hh Ht Hw]. simpl in Hin.
    destruct fuel as [|fuel];
      [unfold pendingWork in Hfuel; rewrite Hin in Hfuel; simpl in Hfuel; lia|].
    simpl. rewrite (w_pending _ _ _ _ W).
    unfold tick. rewrite Hin, Ht. simpl.
    destruct (due <=? at_) eqn:Hc; [apply Z.leb_le in Hc; lia|].
    destruct (settlesOn_dispatched k message Hs) as [Hu Hr].
    unfold deliver. simpl. destruct (worker s) eqn:Hws; [|congruence].
    unfold onmessage. rewrite Hu, Hr. simpl. rewrite Hh. simpl. rewrite Hh.
    set (s1 := set_now (Z.max (now s) at_) (set_inbox post s)).
    rewrite (callHandler_settles rid k message s1); [|apply W|exact Hs|apply W].
    set (s2 := settle rid _ _).
    assert (Hset : settled (request rid s2) = Some (settlementOn k message)).
    { subst s2. unfold request. rewrite finish_settled.
      pose proof (w_pending _ _ _ _ W) as Hp. unfold request in Hp.
      subst s1. simpl. rewrite Hp. reflexivity. }
    exists s2. rewrite (run_done _ _ _ _ Hset).
    split; [reflexivity|].
    assert (Hshape : messageHandlers s2 = remove_first rid (messageHandlers s)
                     /\ timers s2 = filter (fun t => negb (Nat.eqb (fst t) rid)) (timers s)
                     /\ inbox s2 = post /\ now s2 = Z.max (now s) at_
                     /\ worker s2 = worker s /\ isReady s2 = isReady s
                     /\ entropy s2 = entropy s /\ drawn s2 = drawn s
                     /\ evaluations s2 = evaluations s).
    { subst s2 s1. unfold settle, clearTimeout, removeHandler, markResolved, request, update.
      simpl. rewrite Nat.eqb_refl. simpl.
      destruct (settled (requests s rid)); simpl; repeat split. }
    destruct Hshape as (E1 & E2 & E3 & E4 & E5 & E6 & E7 & E8 & E9).
    rewrite E1, E2, E3, E4, Hh, Ht. simpl. rewrite Nat.eqb_refl. simpl.
    split; [reflexivity|]. split; [reflexivity|]. split; [reflexivity|].
    split; [reflexivity|].
    constructor; try congruence; try lia.
    exists []. split; [constructor|]. rewrite E5.
    destruct (worker s); simpl; [rewrite app_nil_r|]; reflexivity.
  - pose proof A as [W Hh Ht Hw]. simpl in Hin.
    destruct (Hpre a m (or_introl eq_refl)) as [Ha Hm].
    destruct fuel as [|fuel];
      [unfold pendingWork in Hfuel; rewrite Hin in Hfuel; simpl in Hfuel; lia|].
    simpl. rewrite (w_pending _ _ _ _ W).
    assert (Htick : tick s = Some (deliver a m (set_inbox (pre ++ (at_, message) :: post)%list s))).
    { unfold tick. rewrite Hin, Ht. simpl.
      destruct (due <=? a) eqn:Hc; [apply Z.leb_le in Hc; lia | reflexivity]. }
    rewrite Htick.
    set (s1 := deliver a m _).
    assert (A1 : Alone rid k due s1 /\ now s1 = Z.max (now s) a
                 /\ inbox s1 = (pre ++ (at_, message) :: post)%list).
    { subst s1. unfold deliver. simpl. destruct (worker s) eqn:Hws; [|congruence].
      set (s0 := set_now (Z.max (now s) a) (set_inbox _ s)).
      assert (A0 : Alone rid k due s0).
      { constructor; auto; [|simpl; congruence].
        eapply Waiting_ext; [| | | |exact W]; try reflexivity.
        simpl. pose proof (w_clock _ _ _ _ W). lia. }
      split; [apply onmessage_alone; assumption|].
      destruct (onmessage_evolves m s0) as [_ _ _ _ _ Hc].
      destruct (onmessage_work m s0) as (Hi & _).
      split; [|rewrite Hi; reflexivity].
      pose proof (onmessage_now m s0) as Hnow.
      rewrite Hnow. reflexivity. }
    destruct A1 as (A1 & Hnow1 & Hin1).
    destruct (IH fuel s1 A1 Hin1) as (s' & H1 & H2 & H3 & H4 & H5 & E); auto.
    + intros a' m' Hi. apply Hpre. now right.
    + pose proof (tick_work _ _ Htick) as Hlt. fold s1 in Hlt. lia.
    + exists s'. split; [exact H1|]. split; [exact H2|]. split; [exact H3|].
      split; [exact H4|]. split.
      * rewrite H5, Hnow1. cbn [fold_right fst]. lia.
      * eapply Evolves_trans; [eapply tick_evolves; exact Htick | exact E].
Qed.

Lemma append_empty (s : string) : s ++ "" = s.
Proof. induction s; simpl; congruence. Qed.

Lemma postMessage_host line s :
  isReady (postMessage line s) = isReady s /\ requests (postMessage line s) = requests s
  /\ timers (postMessage line s) = timers s
  /\ messageHandlers (postMessage line s) = messageHandlers s
  /\ now (postMessage line s) = now s /\ inbox (postMessage line s) = inbox s
  /\ entropy (postMessage line s) = entropy s /\ drawn (postMessage line s) = drawn s
  /\ evaluations (postMessage line s) = evaluations s
  /\ fresh (postMessage line s) = fresh s.
Proof. unfold postMessage. destruct (worker s); repeat split. Qed.

Lemma postMessage_frame line s : exists w, postMessage line s = set_worker w s.
Proof.
  unfold postMessage. destruct (worker s) eqn:E; [eauto|].
  exists None. destruct s; simpl in *; subst; reflexivity.
Qed.

Lemma postMessage_worker line s sent :
  worker s = Some sent -> worker (postMessage line s) = Some (sent ++ [line])%list.
Proof. intro H. unfold postMessage. rewrite H. reflexivity. Qed.

(** The commands of [startSearch], in the order they are posted. *)
Lemma startSearch_posts fen settings s sent :
  worker s = Some sent ->
  worker (snd (startSearch fen settings s))
  = Some (sent ++ Spec.sentCommands fen settings)%list.
Proof.
  intro Hw. unfold startSearch, Spec.sentCommands, Spec.sentStrength, Spec.skillCommand,
    Spec.goCommand, newPromise.
  destruct settings as [lv dp tm nd elo ls sk]. simpl.
  set (s0 := setTimeout _ _ _).
  assert (Hw0 : worker s0 = Some sent) by exact Hw.
  clearbody s0.
  assert (Hstrength :
            worker (if isTrue ls && truthy elo
                    then postMessage ("setoption name UCI_Elo value " ++ interpolate elo)
                           (postMessage "setoption name UCI_LimitStrength value true" s0)
                    else postMessage "setoption name UCI_LimitStrength value false" s0)
            = Some (sent ++ match ls, elo with
                            | Some true, Some rating =>
                                if rating =? 0
                                then ["setoption name UCI_LimitStrength value false"]
                                else ["setoption name UCI_LimitStrength value true";
                                      ("setoption name UCI_Elo value "
                                       ++ Js.string_of_Z rating)%string]
                            | _, _ => ["setoption name UCI_LimitStrength value false"]
                            end)%list).
  { destruct ls as [[|]|], elo as [r|]; simpl;
      try (apply postMessage_worker; exact Hw0).
    destruct (r =? 0); simpl; [apply postMessage_worker; exact Hw0|].
    erewrite postMessage_worker; [|apply postMessage_worker; exact Hw0].
    rewrite <- app_assoc. reflexivity. }
  set (s1 := if isTrue ls && truthy elo then _ else _) in *.
  set (strength := match ls, elo with Some true, Some rating => _ | _, _ => _ end) in *.
  clearbody s1 strength.
  assert (Hskill :
            worker match sk with
                   | Some n => postMessage ("setoption name Skill Level value "
                                            ++ Js.string_of_Z n) s1
                   | None => s1
                   end
            = Some (sent ++ strength ++
                    match sk with
                    | Some n => [("setoption name Skill Level value "
                                  ++ Js.string_of_Z n)%string]
                    | None => []
                    end)%list).
  { destruct sk; [erewrite postMessage_worker; [|exact Hstrength]; rewrite <- app_assoc
                 | rewrite app_nil_r]; auto. }
  set (s2 := match sk with Some n => postMessage _ s1 | None => s1 end) in *.
  set (skill := match sk with Some n => [_] | None => [] end) in *.
  clearbody s2 skill.
  erewrite postMessage_worker; [|apply postMessage_worker; exact Hskill].
  rewrite <- !app_assoc. simpl. do 5 f_equal.
  destruct tm, dp, nd; simpl; rewrite ?append_empty, <- ?append_assoc; reflexivity.
Qed.

Lemma startSearch_host fen settings s :
  let s1 := snd (startSearch fen settings s) in
  fst (startSearch fen settings s) = fresh s
  /\ isReady s1 = isReady s /\ now s1 = now s /\ inbox s1 = inbox s
  /\ entropy s1 = entropy s /\ drawn s1 = drawn s /\ evaluations s1 = evaluations s
  /\ messageHandlers s1 = (messageHandlers s ++ [fresh s])%list
  /\ timers s1 = (timers s ++ [(fresh s, now s + 5000)])%list
  /\ requests s1 = update (requests s) (fresh s)
                     {| kind := Search; resolved := false; settled := None |}.
Proof.
  unfold startSearch, newPromise. cbv zeta.
  destruct (isTrue _ && truthy _), (skillLevel settings);
    repeat match goal with
           | |- context [postMessage ?l ?st] =>
               destruct (postMessage_frame l st) as [? ->]
           end; simpl; repeat split.
Qed.

Lemma startEvaluation_shape fen d s :
  let s1 := snd (startEvaluation fen d s) in
  fst (startEvaluation fen d s) = fresh s
  /\ messageHandlers s1 = (messageHandlers s ++ [fresh s])%list
  /\ timers s1 = (timers s ++ [(fresh s, now s + 3000)])%list
  /\ requests s1 = update (requests s) (fresh s)
                     {| kind := Evaluate d; resolved := false; settled := None |}.
Proof.
  unfold startEvaluation, newPromise. cbv zeta.
  repeat match goal with
         | |- context [postMessage ?l ?st] =>
             destruct (postMessage_frame l st) as [? ->]
         end; simpl; repeat split.
Qed.

Lemma started_waiting k delay s s1 :
  0 <= delay ->
  unused s ->
  messageHandlers s1 = (messageHandlers s ++ [fresh s])%list ->
  timers s1 = (timers s ++ [(fresh s, now s + delay)])%list ->
  requests s1 = update (requests s) (fresh s)
                  {| kind := k; resolved := false; settled := None |} ->
  now s1 = now s ->
  Waiting (fresh s) k (now s + delay) s1.
Proof.
  intros Hd [Hh Ht] Eh Et Er En.
  constructor; unfold request; rewrite ?Er, ?Et, ?Eh, ?En; unfold update;
    rewrite ?Nat.eqb_refl; simpl; auto; try lia.
  - apply in_or_app. right. now left.
  - intros d Hin. apply in_app_or in Hin as [Hin | [Heq | []]].
    + exfalso. eapply Ht, Hin.
    + congruence.
  - rewrite count_occ_app. simpl. destruct (Nat.eq_dec (fresh s) (fresh s)); [|congruence].
    apply (count_occ_not_In Nat.eq_dec) in Hh. lia.
Qed.

Lemma started_alone k delay s s1 :
  0 <= delay ->
  quiescent s ->
  worker s1 <> None ->
  messageHandlers s1 = (messageHandlers s ++ [fresh s])%list ->
  timers s1 = (timers s ++ [(fresh s, now s + delay)])%list ->
  requests s1 = update (requests s) (fresh s)
                  {| kind := k; resolved := false; settled := None |} ->
  now s1 = now s ->
  Alone (fresh s) k (now s + delay) s1.
Proof.
  intros Hd [Hh Ht] Hw Eh Et Er En.
  constructor; auto.
  - apply started_waiting; auto. split; [rewrite Hh | intro d; rewrite Ht]; auto.
  - rewrite Eh, Hh. reflexivity.
  - rewrite Et, Ht. reflexivity.
Qed.

(** The delay promise always resolves. *)
Lemma sleep_returns ms s :
  exists s', sleep ms s = (Normal tt, s') /\ Evolves s s'.
Proof.
  unfold sleep.
  pose proof (fresh_promised Sleep ms false s) as P.
  destruct (newPromise Sleep s) as [rid s0] eqn:Hnew. simpl in P.
  destruct (await_settles rid Sleep _ P) as (o & s' & Hrun & _ & Hty & _ & E).
  simpl in Hty. subst o. unfold bind. rewrite Hrun. simpl.
  exists s'. split; [reflexivity|].
  eapply Evolves_trans; [|exact E].
  unfold newPromise in Hnew. inversion Hnew; subst.
  constructor; simpl; auto; try lia.
  exists []. split; [constructor|].
  destruct (worker s); simpl; [rewrite app_nil_r|]; reflexivity.
Qed.

Lemma minimumDelay_returns startTime minDelay s :
  exists s', minimumDelay startTime minDelay s = (Normal tt, s') /\ Evolves s s'.
Proof.
  unfold minimumDelay. destruct (now s - startTime <? minDelay).
  - apply sleep_returns.
  - exists s. split; [reflexivity | apply Evolves_refl].
Qed.

(** The engine search always comes back, with a move or with null. *)
Lemma engineSearch_returns fen settings s sent :
  worker s = Some sent ->
  exists m s' replies,
    engineSearch fen settings s = (Normal m, s')
    /\ Forall (eq "isready") replies
    /\ worker s' = Some (sent ++ Spec.sentCommands fen settings ++ replies)%list
    /\ (isReady s = true -> isReady s' = true)
    /\ evaluations s' = evaluations s /\ entropy s' = entropy s /\ drawn s' = drawn s.
Proof.
  intro Hw. unfold engineSearch.
  pose proof (startSearch_posts fen settings s sent Hw) as Hposts.
  pose proof (startSearch_host fen settings s) as (Hrid & Hr & _ & _ & He & Hd & Hv & Hh & Ht & Hq).
  assert (P : promised (fst (startSearch fen settings s)) Search
                (snd (startSearch fen settings s))).
  { rewrite Hrid. unfold promised, typed, armed, request. rewrite Hq, Ht. unfold update.
    rewrite Nat.eqb_refl. simpl. split; [split; [reflexivity | now right]|].
    intros _. eexists. apply in_or_app. right. now left. }
  destruct (startSearch fen settings s) as [rid s1]. simpl in *.
  destruct (await_settles rid Search s1 P) as (o & s' & Hrun & _ & [m ->] & _ & E).
  unfold bind. rewrite Hrun. simpl.
  destruct (ev_worker _ _ E) as (replies & Hrep & Hw').
  exists m, s', replies. split; [reflexivity|]. split; [exact Hrep|].
  split; [rewrite Hw', Hposts; simpl; rewrite <- app_assoc; reflexivity|].
  split; [intro H; apply (ev_ready _ _ E); congruence|].
  rewrite (ev_evaluations _ _ E), (ev_entropy _ _ E), (ev_drawn _ _ E). auto.
Qed.

Section Dispatcher.

Context {chess : ChessJs.Api}.

(** C3 (as amended). On a ready session, for every level handed to the
    engine, [getBestMove] posts, in this order: the strength commands
    (limit on and the rating when [limitStrength] is true and a rating
    other than 0 is present, otherwise limit off), the skill level if
    present, the position, and one [go] command (time budget before
    depth, node limit appended either way); the only lines posted after
    them are [isready] answers to [uciok]. *)
Theorem search_commands_in_order (fen : string) (settings : AISettings)
    (customDelay : option Z) (s : State) (sent : list string) :
  engineBacked (level settings) = true ->
  isReady s = true -> worker s = Some sent ->
  exists replies,
    Forall (eq "isready") replies /\
    worker (snd (getBestMove fen settings customDelay s))
    = Some (sent ++ Spec.sentCommands fen settings ++ replies)%list.
Proof.
  intros Hlevel Hr Hw.
  assert (Hn : notReady s = false) by (apply notReady_false; eauto).
  destruct (engineSearch_returns fen settings s sent Hw)
    as (m & s1 & replies & Hrun & Hrep & Hw1 & _).
  assert (Hgoal : forall minDelay,
             exists replies0,
               Forall (eq "isready") replies0 /\
               worker (snd ((mv <- engineSearch fen settings ;;
                             _ <- minimumDelay (now s) minDelay ;; ret mv) s))
               = Some (sent ++ Spec.sentCommands fen settings ++ replies0)%list).
  { intro minDelay. unfold bind at 1. rewrite Hrun.
    destruct (minimumDelay_returns (now s) minDelay s1) as (s2 & Hdelay & E).
    unfold bind. rewrite Hdelay. simpl.
    destruct (ev_worker _ _ E) as (replies2 & Hrep2 & Hw2).
    exists (replies ++ replies2)%list. split; [apply Forall_app; auto|].
    rewrite Hw2, Hw1. simpl. rewrite <- !app_assoc. reflexivity. }
  unfold getBestMove.
  destruct (level settings); try discriminate Hlevel; rewrite Hn; apply Hgoal.
Qed.

End Dispatcher.

Section Timeouts.

(** If no [bestmove] line arrives within 5000 ms, the engine search
    resolves to null at the deadline and its handler is unsubscribed. *)
Lemma engineSearch_times_out fen settings s :
  unused s ->
  silentUntil Search (now s + 5000) (inbox s) ->
  exists s',
    engineSearch fen settings s = (Normal None, s')
    /\ ~ In (fresh s) (messageHandlers s')
    /\ now s' = now s + 5000.
Proof.
  intros Hu Hsilent. unfold engineSearch.
  pose proof (startSearch_host fen settings s) as (Hrid & _ & Hn & Hi & _ & _ & _ & Hh & Ht & Hq).
  destruct (startSearch fen settings s) as [rid s1]. simpl in *. subst rid.
  pose proof (started_waiting Search 5000 s s1 ltac:(lia) Hu Hh Ht Hq Hn) as W.
  destruct (run_times_out (pendingWork s1) (fresh s) Search (now s + 5000) s1)
    as (s' & Hrun & _ & Hgone & Hnow & _); auto.
  { rewrite Hi. exact Hsilent. }
  unfold await, bind. unfold pendingWork in Hrun. rewrite Hrun. simpl.
  exists s'. split; [reflexivity|]. split; [apply Hgone; discriminate | exact Hnow].
Qed.

(** If neither a line the handler accepts nor a [bestmove] line arrives
    within 3000 ms, [evaluatePosition] rejects with the time-out error at
    the deadline and its handler is unsubscribed. *)
Lemma evaluatePosition_times_out fen depth s :
  notReady s = false ->
  unused s ->
  silentUntil (Evaluate depth) (now s + 3000) (inbox s) ->
  exists s',
    evaluatePosition fen depth s = (Throw "Position evaluation timed out", s')
    /\ ~ In (fresh s) (messageHandlers s')
    /\ now s' = now s + 3000.
Proof.
  intros Hready Hu Hsilent. unfold evaluatePosition. rewrite Hready.
  apply notReady_false in Hready as [Hr [sent Hw]].
  pose proof (startEvaluation_shape fen depth s) as (Hrid & Hh & Ht & Hq).
  pose proof (startEvaluation_host fen depth s sent Hw) as (_ & _ & _ & _ & _ & Hn & Hi).
  destruct (startEvaluation fen depth s) as [rid s1]. simpl in *. subst rid.
  pose proof (started_waiting (Evaluate depth) 3000 s s1 ltac:(lia) Hu Hh Ht Hq Hn) as W.
  destruct (run_times_out (pendingWork s1) (fresh s) (Evaluate depth) (now s + 3000) s1)
    as (s' & Hrun & _ & Hgone & Hnow & _); auto.
  { rewrite Hi. exact Hsilent. }
  unfold await, bind. unfold pendingWork in Hrun. rewrite Hrun. simpl.
  eexists. split; [reflexivity|]. simpl.
  split; [apply Hgone; discriminate | exact Hnow].
Qed.

End Timeouts.

Section Claims.

Context {chess : ChessJs.Api}.

Lemma closest_single (f : ChessJs.Move -> Js.number) (mv : ChessJs.Move) (d : Js.number) :
  closest f [mv] mv d = mv.
Proof. unfold closest. destruct (Js.lt (f mv) d); reflexivity. Qed.

(** C7 (as amended). With no legal move, [getBestMove] returns null for
    the levels random, huddle and swarm, and for worstfish on a ready
    session, without a search or an evaluation command: the only lines
    posted while it waits out its minimum delay are [isready] answers to
    [uciok].  (The selector is called, and it is the selector that tests
    for the empty list.) *)
Theorem no_legal_move_gives_null (fen : string) (settings : AISettings)
    (customDelay : option Z) (s : State) :
  ChessJs.moves (ChessJs.Chess fen) = [] ->
  level settings = random \/ level settings = huddle \/ level settings = swarm
  \/ (level settings = worstfish /\ notReady s = false) ->
  exists s' replies,
    getBestMove fen settings customDelay s = (Normal None, s')
    /\ Forall (eq "isready") replies
    /\ worker s' = option_map (fun sent => (sent ++ replies)%list) (worker s)
    /\ evaluations s' = evaluations s.
Proof.
  intros Hmoves Hlevel.
  assert (Hgoal : forall selector : M (option AIMove),
             selector s = (Normal None, s) ->
             exists s' replies,
               (mv <- selector ;;
                _ <- minimumDelay (now s) (orElse customDelay 500) ;; ret mv) s
               = (Normal None, s')
               /\ Forall (eq "isready") replies
               /\ worker s' = option_map (fun sent => (sent ++ replies)%list) (worker s)
               /\ evaluations s' = evaluations s).
  { intros selector Hsel. unfold bind at 1. rewrite Hsel.
    destruct (minimumDelay_returns (now s) (orElse customDelay 500) s) as (s' & Hd & E).
    unfold bind. rewrite Hd. simpl.
    destruct (ev_worker _ _ E) as (replies & Hrep & Hw).
    exists s', replies. split; [reflexivity|]. split; [exact Hrep|].
    split; [exact Hw | apply (ev_evaluations _ _ E)]. }
  unfold getBestMove.
  destruct Hlevel as [-> | [-> | [-> | [-> Hn]]]]; apply Hgoal.
  - unfold getRandomMove. rewrite Hmoves. reflexivity.
  - unfold getHuddleMove. rewrite Hmoves. reflexivity.
  - unfold getSwarmMove. rewrite Hmoves. reflexivity.
  - unfold getWorstMove. rewrite Hn, Hmoves. reflexivity.
Qed.

(** C8 (as amended). With exactly one legal move, random, huddle and
    swarm return it, and so does worst-move on a ready session, leaving the
    session as it was: nothing is evaluated and nothing is posted.  On a
    session that is not ready worst-move throws instead. *)
Theorem single_legal_move_is_returned (fen : string) (mv : ChessJs.Move)
    (settings : AISettings) (s : State) :
  ChessJs.moves (ChessJs.Chess fen) = [mv] ->
  fst (getRandomMove fen s) = Normal (Some (toAIMove mv))
  /\ fst (getHuddleMove fen s) = Normal (Some (toAIMove mv))
  /\ fst (getSwarmMove fen s) = Normal (Some (toAIMove mv))
  /\ (notReady s = false ->
      getWorstMove fen settings s = (Normal (Some (toAIMove mv)), s))
  /\ (notReady s = true ->
      getWorstMove fen settings s = (Throw "Stockfish is not ready", s)).
Proof.
  intro Hmoves.
  assert (Hrandom : fst (randomLegalMove [mv] s) = Normal (Some (toAIMove mv))).
  { unfold randomLegalMove, bind, mathRandom. simpl.
    rewrite floor_scaled_one. reflexivity. }
  split; [|split; [|split; [|split]]].
  - unfold getRandomMove. rewrite Hmoves. exact Hrandom.
  - unfold getHuddleMove. rewrite Hmoves.
    destruct (findKing _ _); [|exact Hrandom].
    unfold ret. rewrite closest_single. reflexivity.
  - unfold getSwarmMove. rewrite Hmoves.
    destruct (findKing _ _); [|exact Hrandom].
    unfold ret. rewrite closest_single. reflexivity.
  - intro Hn. unfold getWorstMove. rewrite Hn, Hmoves. reflexivity.
  - intro Hn. unfold getWorstMove. rewrite Hn. reflexivity.
Qed.

(** C9. Huddle and swarm are deterministic.  On a position whose king
    the heuristic looks for is on the board (the mover's for huddle, the
    opponent's for swarm; chess.js loads no FEN without both kings, so
    this is every position the selectors load), the move returned does not
    depend on the session or on [Math.random]: two calls on the same
    position return the same move. *)
Theorem king_heuristics_are_deterministic (fen : string) (s1 s2 : State) :
  (isNull (findKing (ChessJs.Chess fen) (ChessJs.turn (ChessJs.Chess fen))) = false ->
   fst (getHuddleMove fen s1) = fst (getHuddleMove fen s2))
  /\ (isNull (findKing (ChessJs.Chess fen)
                (opponent (ChessJs.turn (ChessJs.Chess fen)))) = false ->
      fst (getSwarmMove fen s1) = fst (getSwarmMove fen s2)).
Proof.
  split; intro Hking.
  - unfold getHuddleMove.
    destruct (ChessJs.moves (ChessJs.Chess fen)); [reflexivity|].
    destruct (findKing _ _); [reflexivity | discriminate].
  - unfold getSwarmMove.
    destruct (ChessJs.moves (ChessJs.Chess fen)); [reflexivity|].
    destruct (findKing _ _); [reflexivity | discriminate].
Qed.

(** C10. A move returned by any of the four selectors has the from, to
    and promotion fields of a legal move of the position; and with a
    non-empty list of legal moves random, huddle and swarm return a
    move, never null. *)
Theorem selected_moves_are_legal (fen : string) (settings : AISettings) (s : State) :
  (forall m,
      fst (getRandomMove fen s) = Normal (Some m)
      \/ fst (getHuddleMove fen s) = Normal (Some m)
      \/ fst (getSwarmMove fen s) = Normal (Some m)
      \/ fst (getWorstMove fen settings s) = Normal (Some m) ->
      exists mv,
        In mv (ChessJs.moves (ChessJs.Chess fen))
        /\ from m = ChessJs.from mv /\ to m = ChessJs.to mv
        /\ promotion m = ChessJs.promotion mv)
  /\ (ChessJs.moves (ChessJs.Chess fen) <> [] ->
      exists m1 m2 m3,
        fst (getRandomMove fen s) = Normal (Some m1)
        /\ fst (getHuddleMove fen s) = Normal (Some m2)
        /\ fst (getSwarmMove fen s) = Normal (Some m3)).
Proof.
  split.
  - intros m H.
    assert (Hlegal : exists mv, In mv (ChessJs.moves (ChessJs.Chess fen)) /\ m = toAIMove mv).
    { destruct (ChessJs.moves (ChessJs.Chess fen)) as [|mv0 rest] eqn:Hmoves.
      - exfalso. destruct H as [H | [H | [H | H]]].
        + unfold getRandomMove in H. rewrite Hmoves in H. discriminate.
        + unfold getHuddleMove in H. rewrite Hmoves in H. discriminate.
        + unfold getSwarmMove in H. rewrite Hmoves in H. discriminate.
        + unfold getWorstMove in H. rewrite Hmoves in H.
          destruct (notReady s); discriminate.
      - rewrite <- Hmoves in *.
        assert (Hne : ChessJs.moves (ChessJs.Chess fen) <> []) by congruence.
        destruct H as [H | [H | [H | H]]].
        + destruct (getRandomMove_legal fen s Hne) as (mv & Hin & Heq).
          exists mv. split; [exact Hin | congruence].
        + destruct (getHuddleMove_legal fen s Hne) as (mv & Hin & Heq).
          exists mv. split; [exact Hin | congruence].
        + destruct (getSwarmMove_legal fen s Hne) as (mv & Hin & Heq).
          exists mv. split; [exact Hin | congruence].
        + apply (getWorstMove_legal fen settings s m H). }
    destruct Hlegal as (mv & Hin & ->). exists mv. repeat split; auto.
  - intro Hne.
    destruct (getRandomMove_legal fen s Hne) as (mv1 & _ & H1).
    destruct (getHuddleMove_legal fen s Hne) as (mv2 & _ & H2).
    destruct (getSwarmMove_legal fen s Hne) as (mv3 & _ & H3).
    exists (toAIMove mv1), (toAIMove mv2), (toAIMove mv3).
    split; [exact H1 | split; [exact H2 | exact H3]].
Qed.

End Claims.


(** ** The properties on the positions of the book *)

(** C2. On the position [Book.cornered] the legal move that minimises the
    distances of White's pieces to White's king after the move is Kb7
    (sum 11), but [getHuddleMove] returns b6-b7: it measures to a8, the
    square the king stood on before the move. *)
Theorem huddle_measures_to_the_square_the_king_left :
  let legalMoves := ChessJs.moves (ChessJs.Chess Book.cornered) in
  Spec.firstMinimum (Spec.postMoveKingDistance Book.cornered) legalMoves 1
  /\ nth_error legalMoves 1 = Some (Book.mk "Kb7" "a8" "b7")
  /\ map (Spec.postMoveKingDistance Book.cornered) legalMoves
     = [Js.Int 13; Js.Int 11; Js.Int 13; Js.Int 13]
  /\ map (Spec.preMoveKingDistance Book.cornered {| file := 0; rank := 0 |}) legalMoves
     = [Js.Int 15; Js.Int 15; Js.Int 15; Js.Int 13]
  /\ forall s,
       fst (getHuddleMove Book.cornered s)
       = Normal (Some {| from := "b6"; to := "b7"; promotion := None |}).
Proof.
  split; [|split; [reflexivity|split; [vm_compute; reflexivity|split;
    [vm_compute; reflexivity | intro s; vm_compute; reflexivity]]]].
  exists (Book.mk "Kb7" "a8" "b7"), 11.
  split; [reflexivity|]. split; [vm_compute; reflexivity|].
  intros j a' Hj.
  destruct j as [|[|[|[|j]]]]; simpl in Hj; try (destruct j; discriminate);
    inversion Hj; subst; eexists; (split; [vm_compute; reflexivity | lia]).
Qed.

(** C4. The second blank-separated part of a [bestmove] line is cut into
    from (characters 0-1), to (characters 2-3) and promotion (the rest, if
    any); [bestmove e7e8q ponder d7d6] gives e7, e8, q; [(none)] or a
    missing part gives null; and that is what the handler resolves the
    search with. *)
Theorem bestmove_line_parsing :
  (forall c0 c1 c2 c3 rest tail,
      let token := String c0 (String c1 (String c2 (String c3 rest))) in
      Spec.spaceless token = true ->
      String.eqb token "(none)" = false ->
      tail = "" \/ (exists more, tail = String " "%char more) ->
      parseBestMove ("bestmove " ++ token ++ tail)
      = Some {| from := String c0 (String c1 "");
                to := String c2 (String c3 "");
                promotion := match rest with "" => None | _ => Some rest end |})
  /\ parseBestMove "bestmove e7e8q ponder d7d6"
     = Some {| from := "e7"; to := "e8"; promotion := Some "q" |}
  /\ parseBestMove "bestmove (none)" = None
  /\ parseBestMove "bestmove" = None
  /\ (forall rid message s,
        Js.startsWith message "bestmove" = true ->
        resolved (request rid s) = false ->
        settled (request rid s) = None ->
        settled (request rid (searchHandler rid message s))
        = Some (Resolved (VMove (parseBestMove message)))).
Proof.
  split; [|split; [reflexivity|split; [reflexivity|split; [reflexivity|]]]].
  - intros c0 c1 c2 c3 rest tail token Hsp Hnone Htail.
    unfold parseBestMove. rewrite (second_part token tail Hsp Htail).
    rewrite Hnone. subst token. cbn [String.eqb orb].
    replace (String.eqb (String c0 (String c1 (String c2 (String c3 rest)))) "")
      with false by reflexivity.
    cbn [orb]. unfold Js.substring, Js.substringFrom. cbn -[String.substring].
    simpl. rewrite ?substring_none.
    destruct rest as [|c r]; [reflexivity|].
    simpl. rewrite ?Nat.sub_0_r, ?substring_whole. reflexivity.
  - intros rid message s Hstart Hres Hset.
    unfold searchHandler. rewrite Hstart, Hres. simpl.
    unfold resolve, request. rewrite finish_settled. unfold request in Hset.
    rewrite Hset. reflexivity.
Qed.

Lemma bestmove_line_parsing_witness :
  parseBestMove ("bestmove " ++ "e2e4" ++ "")
  = Some {| from := "e2"; to := "e4"; promotion := None |}
  /\ settled (request 0 (searchHandler 0 "bestmove e2e4"
                           (snd (startSearch Book.cornered (plain easy)
                                   (Book.ready [] (fun _ => Book.zero))))))
     = Some (Resolved (VMove (parseBestMove "bestmove e2e4"))).
Proof.
  split.
  - apply (proj1 bestmove_line_parsing "e"%char "2"%char "e"%char "4"%char "" "");
      [reflexivity | reflexivity | left; reflexivity].
  - apply (proj2 (proj2 (proj2 (proj2 bestmove_line_parsing)))); reflexivity.
Defined.

(** C5. At target depth 8 the handler of [evaluatePosition] resolves, with
    the score 23, on an info line that reports depth 5: the line's
    [seldepth 8] contains the text [depth 8] the handler looks for. *)
Theorem shallower_line_resolves_evaluation :
  let line := "info depth 5 seldepth 8 multipv 1 score cp 23 nodes 1643 nps 205375 time 8 pv e2e4" in
  let pending := snd (startEvaluation Book.cornered 8 (Book.ready [] (fun _ => Book.zero))) in
  Spec.reportedDepth line = Js.Int 5
  /\ settled (request 0 pending) = None
  /\ settled (request 0 (evaluationHandler 0 8 line pending))
     = Some (Resolved (VScore (Js.Int 23)))
  /\ messageHandlers (evaluationHandler 0 8 line pending) = []
  /\ timers (evaluationHandler 0 8 line pending) = [].
Proof. vm_compute. repeat split. Qed.

(** C6. An evaluation at depth 8 to which the engine sends, after 100 ms,
    one info line of depth 5 (with [seldepth 8]) and nothing else does not
    reject with the time-out error at 3000 ms: it resolves with 23 at
    100 ms.  A search that hears nothing resolves to null at 5000 ms. *)
Theorem evaluation_settles_on_shallower_line_before_timeout :
  let line := "info depth 5 seldepth 8 multipv 1 score cp 23 nodes 1643 nps 205375 time 8 pv e2e4" in
  let s := Book.ready [(100, line)] (fun _ => Book.zero) in
  Spec.reportedDepth line = Js.Int 5
  /\ Js.startsWith line "bestmove" = false
  /\ fst (evaluatePosition Book.cornered 8 s) = Normal (Js.Int 23)
  /\ now (snd (evaluatePosition Book.cornered 8 s)) = 100
  /\ fst (engineSearch Book.cornered (plain easy) s) = Normal None
  /\ now (snd (engineSearch Book.cornered (plain easy) s)) = 5000.
Proof. vm_compute. repeat split. Qed.

Lemma zero_rating_is_not_sent :
  let s := Book.ready [] (fun _ => Book.zero) in
  worker (snd (getBestMove Book.cornered zeroRating None s))
  = Some [ "uci"; "isready"; "setoption name UCI_LimitStrength value false";
           "position fen K7/8/1P6/8/5p1p/5P1P/8/4k3 w - - 0 1"; "go depth 5" ]
  /\ worker (snd (getBestMove Book.cornered zeroRating None s))
     <> Some (["uci"; "isready"] ++ Spec.specifiedCommands Book.cornered zeroRating)%list.
Proof. split; [vm_compute; reflexivity | vm_compute; discriminate]. Qed.

Lemma search_commands_in_order_witness :
  exists replies,
    Forall (eq "isready") replies /\
    worker (snd (getBestMove Book.cornered (getSettingsForLevel easy None) None
                   (Book.ready [] (fun _ => Book.zero))))
    = Some (["uci"; "isready"]
            ++ Spec.sentCommands Book.cornered (getSettingsForLevel easy None)
            ++ replies)%list.
Proof. apply search_commands_in_order; reflexivity. Defined.

Lemma engine_is_asked_without_legal_move :
  let s := Book.ready [(20, "bestmove (none)")] (fun _ => Book.zero) in
  ChessJs.moves (ChessJs.Chess Book.mated) = []
  /\ worker (snd (getBestMove Book.mated (getSettingsForLevel easy None) None s))
     = Some [ "uci"; "isready"; "setoption name UCI_LimitStrength value true";
              "setoption name UCI_Elo value 1320"; "setoption name Skill Level value 1";
              "position fen rnb1kbnr/pppp1ppp/8/4p3/6Pq/5P2/PPPPP2P/RNBQKBNR w KQkq - 1 3";
              "go movetime 500" ]
  /\ worker (snd (getBestMove Book.mated (getSettingsForLevel easy None) None s))
     <> worker s.
Proof. split; [reflexivity | split; [vm_compute; reflexivity | vm_compute; discriminate]]. Qed.

Lemma no_legal_move_gives_null_witness :
  exists s' replies,
    getBestMove Book.mated (plain random) None (Book.ready [] (fun _ => Book.zero))
    = (Normal None, s')
    /\ Forall (eq "isready") replies
    /\ worker s' = option_map (fun sent => (sent ++ replies)%list)
                     (worker (Book.ready [] (fun _ => Book.zero)))
    /\ evaluations s' = evaluations (Book.ready [] (fun _ => Book.zero)).
Proof. apply no_legal_move_gives_null; [reflexivity | left; reflexivity]. Defined.

Lemma worst_move_throws_when_not_ready :
  ChessJs.moves (ChessJs.Chess Book.forced) = [Book.mk "Ka2" "a1" "a2"]
  /\ fst (getWorstMove Book.forced (plain worstfish) (Book.cold (fun _ => Book.zero)))
     = Throw "Stockfish is not ready"
  /\ fst (getWorstMove Book.forced (plain worstfish) (Book.cold (fun _ => Book.zero)))
     <> Normal (Some (toAIMove (Book.mk "Ka2" "a1" "a2"))).
Proof. split; [reflexivity | split; [reflexivity | discriminate]]. Qed.

Lemma single_legal_move_is_returned_witness :
  let s := Book.ready [] (fun _ => Book.half) in
  let mv := Book.mk "Ka2" "a1" "a2" in
  fst (getRandomMove Book.forced s) = Normal (Some (toAIMove mv))
  /\ fst (getHuddleMove Book.forced s) = Normal (Some (toAIMove mv))
  /\ fst (getSwarmMove Book.forced s) = Normal (Some (toAIMove mv))
  /\ (notReady s = false ->
      getWorstMove Book.forced (plain worstfish) s = (Normal (Some (toAIMove mv)), s))
  /\ (notReady s = true ->
      getWorstMove Book.forced (plain worstfish) s = (Throw "Stockfish is not ready", s)).
Proof. intros s mv. apply single_legal_move_is_returned. reflexivity. Defined.


Lemma king_heuristics_are_deterministic_witness :
  let first := Book.ready [] (fun _ => Book.zero) in
  let second := Book.ready [(10, "bestmove a8b8")] (fun _ => Book.half) in
  fst (getHuddleMove Book.cornered first) = fst (getHuddleMove Book.cornered second)
  /\ fst (getSwarmMove Book.cornered first) = fst (getSwarmMove Book.cornered second).
Proof.
  intros first second.
  split; [apply (proj1 (king_heuristics_are_deterministic Book.cornered first second))
         | apply (proj2 (king_heuristics_are_deterministic Book.cornered first second))];
    vm_compute; reflexivity.
Defined.

Lemma selected_moves_are_legal_witness :
  let s := Book.ready [] (fun _ => Book.half) in
  (exists mv,
      In mv (ChessJs.moves (ChessJs.Chess Book.cornered))
      /\ "a8" = ChessJs.from mv /\ "a7" = ChessJs.to mv /\ None = ChessJs.promotion mv)
  /\ exists m1 m2 m3,
       fst (getRandomMove Book.cornered s) = Normal (Some m1)
       /\ fst (getHuddleMove Book.cornered s) = Normal (Some m2)
       /\ fst (getSwarmMove Book.cornered s) = Normal (Some m3).
Proof.
  intro s. split.
  - apply (proj1 (selected_moves_are_legal Book.cornered (plain worstfish) s)
             {| from := "a8"; to := "a7"; promotion := None |}).
    left. vm_compute. reflexivity.
  - apply (proj2 (selected_moves_are_legal Book.cornered (plain worstfish) s)).
    vm_compute. discriminate.
Defined.

(** ** What else the session guarantees *)

Lemma forEachHandler_unsubscribed rid count index message s :
  ~ In rid (messageHandlers s) ->
  requests (forEachHandler count index message s) rid = requests s rid
  /\ ~ In rid (messageHandlers (forEachHandler count index message s)).
Proof.
  revert index s. induction count as [|count IH]; intros index s Hout; simpl; [auto|].
  destruct (nth_error (messageHandlers s) index) as [h|] eqn:Hh; [|apply IH, Hout].
  assert (Hne : h <> rid) by (intros ->; apply Hout; eapply nth_error_In; eassumption).
  pose proof (callHandler_touches h message s) as T.
  destruct (IH (S index) (callHandler h message s)) as [H1 H2].
  - destruct (t_handlers _ _ _ T) as [-> | ->]; [exact Hout|].
    intro Hin. apply Hout. eapply remove_first_subset; eassumption.
  - split; [|exact H2]. rewrite H1. apply (t_others _ _ _ T). congruence.
Qed.

Lemma onmessage_unsubscribed (rid : nat) (message : string) (s : State) :
  ~ In rid (messageHandlers s) ->
  requests (onmessage message s) rid = requests s rid
  /\ ~ In rid (messageHandlers (onmessage message s)).
Proof.
  intro Hout. unfold onmessage.
  destruct (String.eqb message "uciok");
    [unfold postMessage; simpl; destruct (worker s); auto|].
  destruct (String.eqb message "readyok"); [destruct (uciReceived s); auto|].
  apply forEachHandler_unsubscribed, Hout.
Qed.

(** X1.  A handler that is not subscribed is never called: whatever lines
    arrive, its request holds what it held and it stays unsubscribed. *)
Theorem unsubscribed_request_is_not_touched (rid : nat) (messages : list string)
    (s : State) :
  ~ In rid (messageHandlers s) ->
  let s' := fold_left (fun st message => onmessage message st) messages s in
  request rid s' = request rid s /\ ~ In rid (messageHandlers s').
Proof.
  revert s. induction messages as [|message rest IH]; intros s Hout; simpl; [auto|].
  destruct (onmessage_unsubscribed rid message s Hout) as [Hr Hh].
  destruct (IH (onmessage message s) Hh) as [Hr' Hh'].
  split; [|exact Hh']. rewrite Hr'. exact Hr.
Qed.

(** X3.  After a search has timed out, a [bestmove] line that arrives late
    changes nothing of it: the result stays null. *)
Theorem late_bestmove_is_dropped (fen : string) (settings : AISettings) (s : State)
    (late : string) :
  unused s ->
  silentUntil Search (now s + 5000) (inbox s) ->
  let after := snd (engineSearch fen settings s) in
  fst (engineSearch fen settings s) = Normal None
  /\ settled (request (fresh s) after) = Some (Resolved (VMove None))
  /\ request (fresh s) (onmessage late after) = request (fresh s) after.
Proof.
  intros Hu Hsilent. unfold engineSearch.
  pose proof (startSearch_host fen settings s) as (Hrid & _ & Hn & Hi & _ & _ & _ & Hh & Ht & Hq).
  destruct (startSearch fen settings s) as [rid s1]. simpl in *. subst rid.
  pose proof (started_waiting Search 5000 s s1 ltac:(lia) Hu Hh Ht Hq Hn) as W.
  destruct (run_times_out (pendingWork s1) (fresh s) Search (now s + 5000) s1)
    as (s' & Hrun & Hset & Hgone & Hnow & _); auto.
  { rewrite Hi. exact Hsilent. }
  unfold await, bind. unfold pendingWork in Hrun. rewrite Hrun. simpl.
  split; [reflexivity|]. split; [exact Hset|].
  unfold request. apply onmessage_unsubscribed. apply Hgone. discriminate.
Qed.

(** X2.  Two handlers subscribed, and a line the first one accepts: the first
    settles and splices itself out of the list while [forEach] runs, so the
    second is not called for this line and stays pending. *)
Theorem second_subscriber_misses_the_line (h1 h2 : nat) (k1 : Kind) (message : string)
    (s : State) :
  h1 <> h2 ->
  messageHandlers s = [h1; h2] ->
  kind (request h1 s) = k1 -> resolved (request h1 s) = false ->
  settled (request h1 s) = None ->
  settlesOn k1 message = true ->
  let s' := onmessage message s in
  settled (request h1 s') = Some (settlementOn k1 message)
  /\ request h2 s' = request h2 s
  /\ messageHandlers s' = [h2].
Proof.
  intros Hne Hh Hk Hr Hs Hm s'. subst s'. unfold onmessage.
  destruct (settlesOn_dispatched k1 message Hm) as [-> ->].
  rewrite Hh. simpl. rewrite Hh. simpl.
  rewrite (callHandler_settles h1 k1 message s Hk Hm Hr).
  set (s1 := settle h1 _ _).
  assert (Hh1 : messageHandlers s1 = [h2]).
  { subst s1. unfold settle, clearTimeout, removeHandler, markResolved, request, update.
    simpl. rewrite Nat.eqb_refl. simpl. rewrite Hh. simpl. rewrite Nat.eqb_refl.
    destruct (settled (requests s h1)); reflexivity. }
  rewrite Hh1. simpl.
  split; [|split; [|exact Hh1]].
  - subst s1. unfold request in *. rewrite finish_settled, Hs. reflexivity.
  - subst s1. unfold request. apply (t_others _ _ _ (finish_touches h1 _ s)). congruence.
Qed.

Lemma bestmove_is_not_info message :
  Js.startsWith message "bestmove" = true -> Js.startsWith message "info" = false.
Proof.
  unfold Js.startsWith. destruct message as [|c m]; [discriminate|].
  cbn [prefix]. destruct (ascii_dec "b" c) as [E|E]; [subst c; reflexivity | discriminate].
Qed.

Lemma settlementOn_score d message :
  settlementOn (Evaluate d) message = Resolved (VScore (scoreOn message)).
Proof.
  unfold settlementOn, scoreOn.
  destruct (Js.startsWith message "info" && Js.includes message "score cp");
    [destruct (Js.match_score_cp message)|]; reflexivity.
Qed.

(** X4.  On a session with nothing else pending, the search returns what the
    first [bestmove] line says, provided the line arrives before the
    5000 ms deadline; its handler and its timer are gone, and the lines
    behind it are still in the queue. *)
Theorem search_returns_first_bestmove (fen : string) (settings : AISettings) (s : State)
    (sent : list string) (pre : list (Z * string)) (at_ : Z) (message : string)
    (post : list (Z * string)) :
  worker s = Some sent -> quiescent s ->
  inbox s = (pre ++ (at_, message) :: post)%list ->
  (forall a m, In (a, m) pre -> a < now s + 5000 /\ Js.startsWith m "bestmove" = false) ->
  at_ < now s + 5000 -> Js.startsWith message "bestmove" = true ->
  exists s',
    engineSearch fen settings s = (Normal (parseBestMove message), s')
    /\ messageHandlers s' = [] /\ timers s' = [] /\ inbox s' = post
    /\ now s' = Z.max (now s) (lastArrival at_ pre).
Proof.
  intros Hw Hq Hin Hpre Hat Hm. unfold engineSearch.
  pose proof (startSearch_posts fen settings s sent Hw) as Hposts.
  pose proof (startSearch_host fen settings s) as (Hrid & _ & Hn & Hi & _ & _ & _ & Hh & Ht & Hr).
  destruct (startSearch fen settings s) as [rid s1]. simpl in *. subst rid.
  assert (A : Alone (fresh s) Search (now s + 5000) s1).
  { apply started_alone; auto; [lia | congruence]. }
  destruct (run_hears (fresh s) Search (now s + 5000) pre at_ message post
              (pendingWork s1) s1 A) as (s' & Hrun & H1 & H2 & H3 & H4 & _); auto.
  { congruence. }
  unfold await, bind. unfold pendingWork in Hrun. rewrite Hrun. simpl.
  exists s'. rewrite Hn in H4. auto.
Qed.

(** X5.  On a ready session with nothing else pending, an evaluation
    resolves with the score of the first line its handler accepts, or with
    0 if that line is a [bestmove] line, provided the line arrives before
    the 3000 ms deadline; its handler and its timer are gone afterwards. *)
Theorem evaluation_returns_first_accepted_line (fen : string) (depth : Z) (s : State)
    (pre : list (Z * string)) (at_ : Z) (message : string) (post : list (Z * string)) :
  notReady s = false -> quiescent s ->
  inbox s = (pre ++ (at_, message) :: post)%list ->
  (forall a m, In (a, m) pre ->
               a < now s + 3000 /\ settlesOn (Evaluate depth) m = false) ->
  at_ < now s + 3000 -> settlesOn (Evaluate depth) message = true ->
  exists s',
    evaluatePosition fen depth s = (Normal (scoreOn message), s')
    /\ (Js.startsWith message "bestmove" = true -> scoreOn message = Js.Int 0)
    /\ messageHandlers s' = [] /\ timers s' = [] /\ inbox s' = post
    /\ now s' = Z.max (now s) (lastArrival at_ pre).
Proof.
  intros Hready Hq Hin Hpre Hat Hm. unfold evaluatePosition. rewrite Hready.
  apply notReady_false in Hready as [Hr [sent Hw]].
  pose proof (startEvaluation_shape fen depth s) as (Hrid & Hh & Ht & Hreq).
  pose proof (startEvaluation_host fen depth s sent Hw) as (Hw1 & _ & _ & _ & _ & Hn & Hi).
  destruct (startEvaluation fen depth s) as [rid s1]. simpl in *. subst rid.
  assert (A : Alone (fresh s) (Evaluate depth) (now s + 3000) s1).
  { apply started_alone; auto; [lia | congruence]. }
  destruct (run_hears (fresh s) (Evaluate depth) (now s + 3000) pre at_ message post
              (pendingWork s1) s1 A) as (s' & Hrun & H1 & H2 & H3 & H4 & _); auto.
  { congruence. }
  unfold await, bind. unfold pendingWork in Hrun. rewrite Hrun.
  rewrite settlementOn_score. simpl.
  eexists. split; [reflexivity|]. simpl. rewrite Hn in H4.
  split; [|auto].
  intro Hb. unfold scoreOn. rewrite (bestmove_is_not_info _ Hb). reflexivity.
Qed.

(** ** Pacing *)

Lemma Shrinks_refl s : Shrinks s s.
Proof. constructor; auto. Qed.

Lemma Shrinks_trans s1 s2 s3 : Shrinks s1 s2 -> Shrinks s2 s3 -> Shrinks s1 s3.
Proof.
  intros [F1 H1 T1 I1] [F2 H2 T2 I2]. constructor; [congruence | auto | auto | auto].
Qed.

Lemma Shrinks_wellFormed s s' : Shrinks s s' -> wellFormed s -> wellFormed s'.
Proof.
  intros [F H T _] [Wh Wt]. split.
  - intros r Hr. rewrite F. auto.
  - intros r d Hr. rewrite F. eauto.
Qed.

Lemma wellFormed_unused s : wellFormed s -> unused s.
Proof.
  intros [Wh Wt]. split.
  - intro H. apply Wh in H. lia.
  - intros d H. apply Wt in H. lia.
Qed.

Lemma onmessage_shrinks message s : Shrinks s (onmessage message s).
Proof.
  destruct (onmessage_work message s) as (Hi & _ & Ht & _ & _ & Hc & Hf).
  constructor; auto; [|rewrite Hi; auto].
  intros r Hr. apply (count_occ_In Nat.eq_dec) in Hr.
  apply (count_occ_In Nat.eq_dec). specialize (Hc r). lia.
Qed.

Lemma fire_shrinks t s : Shrinks s (fire t s).
Proof.
  unfold fire.
  set (s0 := set_now _ _).
  destruct (timeoutCallback_touches (fst t) s0)
    as [(_&_&_&_&_&_&_&Hi&Hf) _ _ _ _ Hsub _ Hh].
  constructor.
  - rewrite Hf. reflexivity.
  - intros r Hr. destruct Hh as [Hh | Hh]; rewrite Hh in Hr;
      [exact Hr | apply remove_first_subset in Hr; exact Hr].
  - intros u Hu. apply Hsub in Hu. simpl in Hu. eapply disarm_sub, Hu.
  - rewrite Hi. auto.
Qed.

Lemma deliver_shrinks at_ message s : Shrinks s (deliver at_ message s).
Proof.
  unfold deliver. simpl. destruct (worker s).
  - eapply Shrinks_trans;
      [|apply (onmessage_shrinks message (set_now (Z.max (now s) at_) s))].
    constructor; auto.
  - constructor; auto.
Qed.

Lemma tick_shrinks s s' : tick s = Some s' -> Shrinks s s'.
Proof.
  unfold tick. intro H.
  destruct (inbox s) as [|[at_ message] rest] eqn:Hin;
    destruct (earliest (timers s)) as [t|] eqn:Ht; try discriminate.
  - inversion H; subst. apply fire_shrinks.
  - destruct (snd t <=? at_); inversion H; subst.
    + apply fire_shrinks.
    + eapply Shrinks_trans; [|apply (deliver_shrinks at_ message (set_inbox rest s))].
      constructor; auto. simpl. intros l Hl. rewrite Hin. now right.
  - inversion H; subst.
    eapply Shrinks_trans; [|apply (deliver_shrinks at_ message (set_inbox rest s))].
    constructor; auto. simpl. intros l Hl. rewrite Hin. now right.
Qed.

Lemma run_shrinks fuel rid s : Shrinks s (snd (run fuel rid s)).
Proof.
  revert s. induction fuel as [|fuel IH]; intro s; simpl.
  - destruct (settled (request rid s)) as [[v|e]|]; apply Shrinks_refl.
  - destruct (settled (request rid s)) as [[v|e]|]; try apply Shrinks_refl.
    destruct (tick s) as [s'|] eqn:Ht; [|apply Shrinks_refl].
    eapply Shrinks_trans; [apply tick_shrinks, Ht | apply IH].
Qed.

Lemma await_shrinks rid s : Shrinks s (snd (await rid s)).
Proof. apply run_shrinks. Qed.

(** A request that has just been started keeps the numbering in order. *)
Lemma started_wellFormed s s1 hs ts :
  wellFormed s ->
  fresh s1 = S (fresh s) ->
  (forall r, In r (messageHandlers s1) -> In r (messageHandlers s) \/ r = fresh s) ->
  (forall r d, In (r, d) (timers s1) -> In (r, d) (timers s) \/ r = fresh s) ->
  hs = messageHandlers s1 -> ts = timers s1 ->
  wellFormed s1.
Proof.
  intros [Wh Wt] Hf Hh Ht _ _. split.
  - intros r Hr. rewrite Hf. destruct (Hh r Hr) as [H | ->]; [apply Wh in H|]; lia.
  - intros r d Hr. rewrite Hf. destruct (Ht r d Hr) as [H | ->]; [apply Wt in H|]; lia.
Qed.

(** The delay promise is resolved by its timer: the clock stands at the
    due time afterwards. *)
Lemma sleep_wakes ms s :
  wellFormed s ->
  exists s',
    sleep ms s = (Normal tt, s') /\ now s' = now s + Z.max 0 ms
    /\ wellFormed s' /\ Evolves s s'.
Proof.
  intro W. pose proof (wellFormed_unused s W) as [Uh Ut].
  destruct (sleep_returns ms s) as (s' & Hs & E).
  exists s'. split; [exact Hs|]. split; [|split; [|exact E]].
  - unfold sleep, newPromise in Hs. cbv zeta in Hs.
    set (s1 := setTimeout _ _ _) in Hs.
    assert (Wt : Waiting (fresh s) Sleep (now s + Z.max 0 ms) s1).
    { constructor; unfold s1, setTimeout, request; simpl; unfold update;
        rewrite ?Nat.eqb_refl; simpl; auto; try lia.
      - apply in_or_app. right. now left.
      - intros d Hin. apply in_app_or in Hin as [Hin | [Heq | []]].
        + exfalso. eapply Ut, Hin.
        + congruence.
      - apply (count_occ_not_In Nat.eq_dec) in Uh. lia. }
    destruct (run_times_out (pendingWork s1) (fresh s) Sleep _ s1 Wt) as (s2 & Hrun & _ & _ & Hn & _).
    { intros a m _ _. reflexivity. }
    { apply Nat.le_refl. }
    unfold bind, await in Hs. unfold pendingWork in Hrun. rewrite Hrun in Hs.
    simpl in Hs. inversion Hs; subst. exact Hn.
  - unfold sleep, newPromise in Hs. cbv zeta in Hs.
    set (s1 := setTimeout _ _ _) in Hs.
    pose proof (await_shrinks (fresh s) s1) as Sh.
    unfold bind in Hs. destruct (await (fresh s) s1) as [[v|e|] s2]; simpl in *;
      inversion Hs; subst.
    apply (Shrinks_wellFormed s1 s' Sh).
    apply (started_wellFormed s s1 (messageHandlers s1) (timers s1)); auto.
    intros r d Hin. unfold s1, setTimeout in Hin. simpl in Hin.
    apply in_app_or in Hin as [Hin | [Heq | []]]; [now left | right; congruence].
Qed.

(** After the wait of [getBestMove] the clock stands at the start time
    plus the delay, or where it stood already if that is later. *)
Lemma minimumDelay_paces startTime minDelay s :
  wellFormed s ->
  exists s',
    minimumDelay startTime minDelay s = (Normal tt, s')
    /\ now s' = Z.max (now s) (startTime + minDelay)
    /\ wellFormed s' /\ Evolves s s'.
Proof.
  intro W. unfold minimumDelay.
  destruct (now s - startTime <? minDelay) eqn:Hc.
  - apply Z.ltb_lt in Hc.
    destruct (sleep_wakes (minDelay - (now s - startTime)) s W) as (s' & Hs & Hn & W' & E).
    exists s'. split; [exact Hs|]. split; [lia | auto].
  - apply Z.ltb_ge in Hc. exists s. split; [reflexivity|].
    split; [lia|]. split; [exact W | apply Evolves_refl].
Qed.

Lemma run_clock fuel rid s : now s <= now (snd (run fuel rid s)).
Proof.
  revert s. induction fuel as [|fuel IH]; intro s; simpl.
  - destruct (settled (request rid s)) as [[v|e]|]; simpl; lia.
  - destruct (settled (request rid s)) as [[v|e]|]; simpl; try lia.
    destruct (tick s) as [s'|] eqn:Ht; [|simpl; lia].
    pose proof (ev_clock _ _ (tick_evolves _ _ Ht)). specialize (IH s'). lia.
Qed.

Lemma startSearch_fresh fen settings s :
  fresh (snd (startSearch fen settings s)) = S (fresh s).
Proof.
  unfold startSearch, newPromise. cbv zeta.
  destruct (isTrue _ && truthy _), (skillLevel settings);
    repeat match goal with
           | |- context [postMessage ?l ?st] =>
               destruct (postMessage_frame l st) as [? ->]
           end; reflexivity.
Qed.

Lemma startEvaluation_fresh fen d s :
  fresh (snd (startEvaluation fen d s)) = S (fresh s)
  /\ now (snd (startEvaluation fen d s)) = now s.
Proof.
  unfold startEvaluation, newPromise. cbv zeta.
  repeat match goal with
         | |- context [postMessage ?l ?st] =>
             destruct (postMessage_frame l st) as [? ->]
         end; split; reflexivity.
Qed.

Lemma started_paced rid s s1 delay :
  wellFormed s ->
  fresh s1 = S (fresh s) ->
  messageHandlers s1 = (messageHandlers s ++ [fresh s])%list ->
  timers s1 = (timers s ++ [(fresh s, now s + delay)])%list ->
  now s1 = now s ->
  wellFormed (snd (await rid s1)) /\ now s <= now (snd (await rid s1)).
Proof.
  intros W Hf Hh Ht Hn. split.
  - apply (Shrinks_wellFormed s1 _ (await_shrinks rid s1)).
    apply (started_wellFormed s s1 (messageHandlers s1) (timers s1)); auto.
    + intros r Hr. rewrite Hh in Hr. apply in_app_or in Hr as [Hr | [Heq | []]]; auto.
    + intros r d Hr. rewrite Ht in Hr.
      apply in_app_or in Hr as [Hr | [Heq | []]]; [now left | right; congruence].
  - rewrite <- Hn. apply run_clock.
Qed.

Lemma engineSearch_paced fen settings s :
  wellFormed s ->
  wellFormed (snd (engineSearch fen settings s))
  /\ now s <= now (snd (engineSearch fen settings s)).
Proof.
  intro W. unfold engineSearch.
  pose proof (startSearch_fresh fen settings s) as Hf.
  pose proof (startSearch_host fen settings s) as (Hrid & _ & Hn & _ & _ & _ & _ & Hh & Ht & _).
  destruct (startSearch fen settings s) as [rid s1]. simpl in *.
  destruct (started_paced rid s s1 5000 W Hf Hh Ht Hn) as [W' Hc].
  unfold bind. destruct (await rid s1) as [[v|e|] s2]; simpl in *; auto.
Qed.

Section Pacing.

Context {chess : ChessJs.Api}.

Lemma evaluatePosition_paced fen d s :
  wellFormed s ->
  wellFormed (snd (evaluatePosition fen d s))
  /\ now s <= now (snd (evaluatePosition fen d s)).
Proof.
  intro W. unfold evaluatePosition.
  destruct (notReady s); [simpl; split; [exact W | lia]|].
  pose proof (startEvaluation_fresh fen d s) as [Hf Hn].
  pose proof (startEvaluation_shape fen d s) as (Hrid & Hh & Ht & _).
  destruct (startEvaluation fen d s) as [rid s1]. simpl in *.
  destruct (started_paced rid s s1 3000 W Hf Hh Ht Hn) as [W' Hc].
  unfold bind. destruct (await rid s1) as [[v|e|] s2]; simpl in *; auto.
Qed.

Lemma evaluateMoves_paced fen d l :
  forall worstMove worstScore s,
    wellFormed s ->
    wellFormed (snd (evaluateMoves fen d l worstMove worstScore s))
    /\ now s <= now (snd (evaluateMoves fen d l worstMove worstScore s)).
Proof.
  induction l as [|mv rest IH]; intros worstMove worstScore s W; simpl.
  - split; [exact W | lia].
  - destruct (evaluatePosition_paced (ChessJs.fen (ChessJs.move (ChessJs.Chess fen) mv)) d s W)
      as [W1 Hc1].
    destruct (evaluatePosition _ d s) as [[score|e|] s1]; simpl in *.
    + destruct (Js.lt score worstScore).
      * destruct (IH (Some (toAIMove mv)) score s1 W1). split; [auto | lia].
      * destruct (IH worstMove worstScore s1 W1). split; [auto | lia].
    + destruct (IH worstMove worstScore s1 W1). split; [auto | lia].
    + auto.
Qed.

Lemma randomLegalMove_paced l s :
  wellFormed s ->
  wellFormed (snd (randomLegalMove l s)) /\ now (snd (randomLegalMove l s)) = now s.
Proof.
  intro W. unfold randomLegalMove, bind, mathRandom. simpl.
  destruct (nth_error l _); simpl; split; auto.
Qed.

Lemma getWorstMove_paced fen settings s :
  wellFormed s ->
  wellFormed (snd (getWorstMove fen settings s))
  /\ now s <= now (snd (getWorstMove fen settings s)).
Proof.
  intro W. unfold getWorstMove.
  destruct (notReady s); [simpl; split; [exact W | lia]|].
  destruct (ChessJs.moves (ChessJs.Chess fen)) as [|mv1 [|mv2 rest]];
    try (simpl; split; [exact W | lia]).
  unfold bind.
  destruct (evaluateMoves_paced fen (orElse (depth settings) 8) (mv1 :: mv2 :: rest)
              None Js.Infinity s W) as [W1 Hc1].
  destruct (evaluateMoves _ _ _ _ _ s) as [[[m|]|e|] s1]; simpl in *; auto.
  destruct (randomLegalMove_paced (mv1 :: mv2 :: rest) s1 W1) as [W2 Hc2].
  split; [exact W2 | lia].
Qed.

Lemma getRandomMove_paced fen s :
  wellFormed s ->
  wellFormed (snd (getRandomMove fen s)) /\ now (snd (getRandomMove fen s)) = now s.
Proof.
  intro W. unfold getRandomMove.
  destruct (ChessJs.moves (ChessJs.Chess fen)) as [|mv rest] eqn:Hm; [simpl; auto|].
  apply randomLegalMove_paced, W.
Qed.

Lemma getHuddleMove_paced fen s :
  wellFormed s ->
  wellFormed (snd (getHuddleMove fen s)) /\ now (snd (getHuddleMove fen s)) = now s.
Proof.
  intro W. unfold getHuddleMove.
  destruct (ChessJs.moves (ChessJs.Chess fen)) as [|mv rest] eqn:Hm; [simpl; auto|].
  destruct (findKing _ _); [unfold ret; simpl; auto|].
  apply randomLegalMove_paced, W.
Qed.

Lemma getSwarmMove_paced fen s :
  wellFormed s ->
  wellFormed (snd (getSwarmMove fen s)) /\ now (snd (getSwarmMove fen s)) = now s.
Proof.
  intro W. unfold getSwarmMove.
  destruct (ChessJs.moves (ChessJs.Chess fen)) as [|mv rest] eqn:Hm; [simpl; auto|].
  destruct (findKing _ _); [unfold ret; simpl; auto|].
  apply randomLegalMove_paced, W.
Qed.

(** The tail shared by the branches of [getBestMove]: a result of the
    selector, the wait, the return. *)
Lemma paced_tail {A} (m : M A) (startTime minDelay : Z) (s : State) :
  wellFormed (snd (m s)) ->
  forall r s',
    (x <- m ;; _ <- minimumDelay startTime minDelay ;; ret x) s = (Normal r, s') ->
    fst (m s) = Normal r
    /\ now s' = Z.max (now (snd (m s))) (startTime + minDelay).
Proof.
  intros W r s' H. unfold bind in H.
  destruct (m s) as [[x|e|] s1]; simpl in *; try discriminate.
  destruct (minimumDelay_paces startTime minDelay s1 W) as (s2 & Hd & Hn & _).
  rewrite Hd in H. unfold ret in H. inversion H; subst. auto.
Qed.

(** X8.  [getBestMove] never returns a move before the minimum delay has
    passed since the call; the three synchronous selectors return at
    exactly that time (or at once, if the delay is not positive). *)
Theorem best_move_waits_minimum_delay (fen : string) (settings : AISettings)
    (customDelay : option Z) (s : State) (r : option AIMove) (s' : State) :
  wellFormed s ->
  getBestMove fen settings customDelay s = (Normal r, s') ->
  now s + minimumDelayFor settings customDelay <= now s'
  /\ (level settings = random \/ level settings = huddle \/ level settings = swarm ->
      now s' = Z.max (now s) (now s + minimumDelayFor settings customDelay)).
Proof.
  intros W H. unfold getBestMove, minimumDelayFor in *.
  destruct (level settings) eqn:Hl; simpl;
    try (destruct (notReady s); [discriminate|];
         destruct (engineSearch_paced fen settings s W) as [W1 Hc];
         apply (paced_tail _ _ _ _ W1) in H as [_ Hn];
         split; [lia | intros [? | [? | ?]]; discriminate]).
  - destruct (getWorstMove_paced fen settings s W) as [W1 Hc].
    apply (paced_tail _ _ _ _ W1) in H as [_ Hn].
    split; [lia | intros [? | [? | ?]]; discriminate].
  - destruct (getRandomMove_paced fen s W) as [W1 Hc].
    apply (paced_tail _ _ _ _ W1) in H as [_ Hn]. rewrite Hc in Hn.
    split; [lia | intros _; exact Hn].
  - destruct (getHuddleMove_paced fen s W) as [W1 Hc].
    apply (paced_tail _ _ _ _ W1) in H as [_ Hn]. rewrite Hc in Hn.
    split; [lia | intros _; exact Hn].
  - destruct (getSwarmMove_paced fen s W) as [W1 Hc].
    apply (paced_tail _ _ _ _ W1) in H as [_ Hn]. rewrite Hc in Hn.
    split; [lia | intros _; exact Hn].
Qed.

End Pacing.

Section Dispatch.

Context {chess : ChessJs.Api}.

Lemma tail_returns {A} (m : M A) (startTime minDelay : Z) (s : State) :
  (exists r s1, m s = (Normal r, s1)) ->
  exists r s', (x <- m ;; _ <- minimumDelay startTime minDelay ;; ret x) s = (Normal r, s').
Proof.
  intros (r & s1 & Hm). unfold bind. rewrite Hm.
  destruct (minimumDelay_returns startTime minDelay s1) as (s' & Hd & _).
  rewrite Hd. unfold ret. eauto.
Qed.

(** X9.  [getBestMove] on a session that is not ready throws the error
    that Stockfish is not ready, before anything was done, for every level
    other than random, huddle and swarm (worstfish included: its guard comes
    before the position is loaded); and for a Stockfish level (none of
    worstfish, random, huddle, swarm) on a ready session it returns a move
    or null, whatever the text of the FEN, which these levels only pass on
    to the engine. *)
Theorem best_move_settles (fen : string) (settings : AISettings)
    (customDelay : option Z) (s : State) :
  (needsEngine (level settings) && notReady s = true ->
   getBestMove fen settings customDelay s = (Throw "Stockfish is not ready", s))
  /\ (engineBacked (level settings) = true /\ notReady s = false ->
      exists r s', getBestMove fen settings customDelay s = (Normal r, s')).
Proof.
  unfold getBestMove. split; intro H.
  - apply andb_true_iff in H as [Hl Hn].
    destruct (level settings); try discriminate; try (rewrite Hn; reflexivity).
    unfold bind, getWorstMove. rewrite Hn. reflexivity.
  - destruct H as [Hl Hn].
    assert (Hengine : exists r s1, engineSearch fen settings s = (Normal r, s1)).
    { apply notReady_false in Hn as [_ [sent Hw]].
      destruct (engineSearch_returns fen settings s sent Hw) as (m & s1 & _ & Hs & _). eauto. }
    destruct (level settings); try discriminate; rewrite Hn; apply tail_returns, Hengine.
Qed.


(** X6.  A search with no [bestmove] line before its deadline resolves with
    null at the deadline, 5000 ms after the call; its handler is
    unsubscribed, and the commands were posted all the same. *)
Theorem search_times_out_at_deadline (fen : string) (settings : AISettings) (s : State)
    (sent : list string) :
  worker s = Some sent -> wellFormed s ->
  silentUntil Search (now s + 5000) (inbox s) ->
  exists s' replies,
    engineSearch fen settings s = (Normal None, s')
    /\ now s' = now s + 5000
    /\ ~ In (fresh s) (messageHandlers s')
    /\ Forall (eq "isready") replies
    /\ worker s' = Some (sent ++ Spec.sentCommands fen settings ++ replies)%list
    /\ wellFormed s'.
Proof.
  intros Hw W Hsilent.
  destruct (engineSearch_times_out fen settings s (wellFormed_unused s W) Hsilent)
    as (s' & Hs & Hgone & Hnow).
  destruct (engineSearch_returns fen settings s sent Hw) as (m & s2 & replies & Hs2 & Hrep & Hw2 & _).
  destruct (engineSearch_paced fen settings s W) as [W' _].
  rewrite Hs in Hs2, W'. inversion Hs2; subst. simpl in W'.
  exists s2, replies. repeat split; auto; apply W'.
Qed.

(** X7.  An evaluation with no line its handler accepts before its deadline
    rejects with the time-out error at the deadline, 3000 ms after the
    call; its handler is unsubscribed and the two commands were posted. *)
Theorem evaluation_times_out_at_deadline (fen : string) (depth : Z) (s : State) :
  notReady s = false -> wellFormed s ->
  silentUntil (Evaluate depth) (now s + 3000) (inbox s) ->
  exists s' sent replies,
    evaluatePosition fen depth s = (Throw "Position evaluation timed out", s')
    /\ now s' = now s + 3000
    /\ ~ In (fresh s) (messageHandlers s')
    /\ worker s = Some sent
    /\ Forall (eq "isready") replies
    /\ worker s' = Some (sent ++ [("position fen " ++ fen)%string;
                                   ("go depth " ++ Js.string_of_Z depth)%string]
                               ++ replies)%list
    /\ notReady s' = false /\ wellFormed s'.
Proof.
  intros Hn W Hsilent.
  destruct (evaluatePosition_times_out fen depth s Hn (wellFormed_unused s W) Hsilent)
    as (s' & Hs & Hgone & Hnow).
  pose proof Hn as Hn'. apply notReady_false in Hn' as [Hr [sent Hw]].
  destruct (evaluatePosition_ready fen depth s sent Hr Hw)
    as (r & s2 & replies & Hs2 & _ & Hr2 & Hrep & Hw2 & _).
  destruct (evaluatePosition_paced fen depth s W) as [W' _].
  rewrite Hs in Hs2, W'. inversion Hs2; subst. simpl in W'.
  exists s2, sent, replies. repeat split; auto; try apply W'.
  apply notReady_false. eauto.
Qed.



End Dispatch.

(** ** [terminate] *)

Lemma tick_terminated s s' :
  tick s = Some s' -> worker s = None -> worker s' = None /\ isReady s' = isReady s.
Proof.
  unfold tick. intros H Hw.
  assert (Hfire : forall t, worker (fire t s) = None /\ isReady (fire t s) = isReady s).
  { intro t. unfold fire.
    destruct (timeoutCallback_touches (fst t)
                (set_now (Z.max (now s) (snd t)) (set_timers (disarm t (timers s)) s)))
      as [(Hw' & Hr' & _) _ _ _ _ _ _ _].
    simpl in *. split; congruence. }
  assert (Hdeliver : forall at_ message rest,
            worker (deliver at_ message (set_inbox rest s)) = None
            /\ isReady (deliver at_ message (set_inbox rest s)) = isReady s).
  { intros. unfold deliver. simpl. rewrite Hw. simpl. auto. }
  destruct (inbox s) as [|[at_ message] rest]; destruct (earliest (timers s)) as [t|];
    try discriminate.
  - inversion H; subst. apply Hfire.
  - destruct (snd t <=? at_); inversion H; subst; [apply Hfire | apply Hdeliver].
  - inversion H; subst. apply Hdeliver.
Qed.

Lemma run_terminated fuel rid s :
  worker s = None ->
  worker (snd (run fuel rid s)) = None /\ isReady (snd (run fuel rid s)) = isReady s.
Proof.
  revert s. induction fuel as [|fuel IH]; intros s Hw; simpl.
  - destruct (settled (request rid s)) as [[v|e]|]; simpl; auto.
  - destruct (settled (request rid s)) as [[v|e]|]; simpl; auto.
    destruct (tick s) as [s'|] eqn:Ht; [|simpl; auto].
    destruct (tick_terminated s s' Ht Hw) as [Hw' Hr'].
    destruct (IH s' Hw') as [H1 H2]. split; congruence.
Qed.

(** X11.  When the worker is terminated while a search is waiting, no further
    line is delivered: whatever the engine still had to say, the search
    resolves with null at its deadline and its handler is unsubscribed. *)
Theorem terminated_search_resolves_null (fen : string) (settings : AISettings)
    (s : State) :
  wellFormed s ->
  let rid := fst (startSearch fen settings s) in
  let s1 := snd (startSearch fen settings s) in
  exists s',
    await rid (terminate s1) = (Normal (VMove None), s')
    /\ now s' = now s + 5000
    /\ ~ In rid (messageHandlers s')
    /\ worker s' = None /\ isReady s' = false.
Proof.
  intros W rid s1. subst rid s1.
  pose proof (startSearch_host fen settings s) as (Hrid & _ & Hn & Hi & _ & _ & _ & Hh & Ht & Hq).
  destruct (startSearch fen settings s) as [rid s1]. simpl in *. subst rid.
  pose proof (started_waiting Search 5000 s s1 ltac:(lia) (wellFormed_unused s W) Hh Ht Hq Hn)
    as W1.
  assert (W2 : Waiting (fresh s) Search (now s + 5000) (terminate s1)).
  { eapply Waiting_ext; [| | | |exact W1]; try reflexivity. apply W1. }
  destruct (run_times_out_either (pendingWork (terminate s1)) (fresh s) Search
              (now s + 5000) (terminate s1) W2) as (s' & Hrun & _ & Hgone & Hnow & E).
  { left. reflexivity. }
  { apply Nat.le_refl. }
  unfold await. unfold pendingWork in Hrun. rewrite Hrun. simpl.
  exists s'. split; [reflexivity|]. split; [exact Hnow|].
  split; [apply Hgone; discriminate|].
  destruct (run_terminated (List.length (inbox (terminate s1))
                            + List.length (timers (terminate s1)))
              (fresh s) (terminate s1) eq_refl) as [Hw Hr].
  rewrite Hrun in Hw, Hr. auto.
Qed.

Section Terminated.

Context {chess : ChessJs.Api}.

(** X12.  After [terminate] the session refuses every call that needs the
    engine, at once and without a trace: [getBestMove] for the levels
    other than random, huddle and swarm, and [evaluatePosition].  The three
    synchronous selectors are not affected. *)
Theorem terminate_stops_engine_work (fen : string) (settings : AISettings)
    (customDelay : option Z) (depth : Z) (s : State) :
  let s' := terminate s in
  (needsEngine (level settings) = true ->
   getBestMove fen settings customDelay s' = (Throw "Stockfish is not ready", s'))
  /\ fst (evaluatePosition fen depth s') = Throw "Stockfish is not ready"
  /\ worker (snd (evaluatePosition fen depth s')) = None
  /\ messageHandlers (snd (evaluatePosition fen depth s')) = messageHandlers s
  /\ timers (snd (evaluatePosition fen depth s')) = timers s
  /\ fst (getRandomMove fen s') = fst (getRandomMove fen s)
  /\ fst (getHuddleMove fen s') = fst (getHuddleMove fen s)
  /\ fst (getSwarmMove fen s') = fst (getSwarmMove fen s)
  /\ terminate s' = s'.
Proof.
  intro s'. subst s'.
  split.
  { intro Hl. unfold getBestMove.
    destruct (level settings); try discriminate; reflexivity. }
  assert (Hrandom : forall l, fst (randomLegalMove l (terminate s)) = fst (randomLegalMove l s)).
  { intro l. unfold randomLegalMove, bind, mathRandom. simpl.
    destruct (nth_error l _); reflexivity. }
  repeat split.
  - unfold getRandomMove. destruct (ChessJs.moves _); [reflexivity | apply Hrandom].
  - unfold getHuddleMove. destruct (ChessJs.moves _); [reflexivity|].
    destruct (findKing _ _); [reflexivity | apply Hrandom].
  - unfold getSwarmMove. destruct (ChessJs.moves _); [reflexivity|].
    destruct (findKing _ _); [reflexivity | apply Hrandom].
Qed.

End Terminated.

(** ** The two king heuristics *)

Section Heuristics.

Context {chess : ChessJs.Api}.

Lemma cells_on_board (r f : nat) : In (r, f) cells <-> (r < 8)%nat /\ (f < 8)%nat.
Proof.
  unfold cells. rewrite in_flat_map. split.
  - intros (r' & Hr & Hin). apply in_map_iff in Hin as (f' & Heq & Hf).
    inversion Heq; subst. apply in_seq in Hr. apply in_seq in Hf. lia.
  - intros [Hr Hf]. exists r. split; [apply in_seq; lia|].
    apply in_map_iff. exists f. split; [reflexivity | apply in_seq; lia].
Qed.

(** X13.  The king search returns a square of the board that holds a king
    of the colour asked for, and null exactly when the board holds none. *)
Theorem found_king_stands_on_its_square (game : ChessJs.Game) (c : ChessJs.Color) :
  match findKing game c with
  | Some kingPos =>
      exists r f piece,
        kingPos = {| file := Z.of_nat f; rank := Z.of_nat r |}
        /\ (r < 8)%nat /\ (f < 8)%nat
        /\ ChessJs.board game r f = Some piece
        /\ ChessJs.is_king (ChessJs.type piece) = true
        /\ ChessJs.color_eqb (ChessJs.color piece) c = true
  | None =>
      forall r f piece,
        (r < 8)%nat -> (f < 8)%nat -> ChessJs.board game r f = Some piece ->
        ChessJs.is_king (ChessJs.type piece) && ChessJs.color_eqb (ChessJs.color piece) c
        = false
  end.
Proof.
  unfold findKing.
  destruct (find _ cells) as [[r f]|] eqn:Hfind.
  - apply find_some in Hfind as [Hin Hk]. simpl in Hk.
    apply cells_on_board in Hin as [Hr Hf].
    destruct (ChessJs.board game r f) as [piece|] eqn:Hb; [|discriminate].
    apply andb_true_iff in Hk as [H1 H2].
    exists r, f, piece. simpl. repeat split; auto.
  - intros r f piece Hr Hf Hb.
    pose proof (find_none _ _ Hfind (r, f)) as Hn. simpl in Hn.
    rewrite Hb in Hn. apply Hn. apply cells_on_board. auto.
Qed.

(** X14.  The distance from a square of the board, named as the distance loops
    name it, to a square of the board: the larger of the file and rank
    differences, between 0 and 7, and 0 on the target square only. *)
Theorem chebyshev_distance_on_the_board (r f tr tf : nat) :
  (r < 8)%nat -> (f < 8)%nat -> (tr < 8)%nat -> (tf < 8)%nat ->
  exists d,
    getChebyshevDistance (squareName r f) {| file := Z.of_nat tf; rank := Z.of_nat tr |}
    = Js.Int d
    /\ d = Z.max (Z.abs (Z.of_nat f - Z.of_nat tf)) (Z.abs (Z.of_nat r - Z.of_nat tr))
    /\ 0 <= d <= 7
    /\ (d = 0 <-> r = tr /\ f = tf).
Proof.
  intros Hr Hf Htr Htf.
  eexists. split; [apply chebyshev_on_board, cells_on_board; auto|].
  simpl. split; [reflexivity|]. split; lia.
Qed.

(** X15.  Swarm, with the opponent's king on the board: the move returned is
    the first legal move for which the mover's pieces, after the move, are
    closest in total to the square the opponent's king stood on before it.
    Nothing is drawn at random and the session is left as it was. *)
Theorem swarm_picks_first_minimum (fen : string) (kingPos : BoardPos) (s : State) :
  let game := ChessJs.Chess fen in
  let distanceAfter mv :=
    totalDistanceTo (ChessJs.turn game) kingPos
      (ChessJs.move (ChessJs.Chess (ChessJs.fen game)) mv) in
  ChessJs.moves game <> [] ->
  findKing game (opponent (ChessJs.turn game)) = Some kingPos ->
  exists i mv,
    Spec.firstMinimum distanceAfter (ChessJs.moves game) i
    /\ nth_error (ChessJs.moves game) i = Some mv
    /\ getSwarmMove fen s = (Normal (Some (toAIMove mv)), s).
Proof.
  intros game distanceAfter Hne Hking. unfold getSwarmMove. fold game. rewrite Hking.
  destruct (ChessJs.moves game) as [|first rest] eqn:Hmoves; [congruence|].
  assert (Hint : forall mv, In mv (first :: rest) -> exists z, distanceAfter mv = Js.Int z).
  { intros mv _. apply totalDistanceTo_integer. }
  destruct (closest_first_minimum distanceAfter (first :: rest) Hint [] first Js.Infinity)
    as (i & Hmin & Hnth); [now left | discriminate |].
  exists i, (closest distanceAfter (first :: rest) first Js.Infinity).
  split; [exact Hmin | split; [exact Hnth | reflexivity]].
Qed.

(** X16.  Huddle, with the mover's king on the board: the move returned is the
    first legal move for which the mover's pieces, after the move, are
    closest in total to the square the mover's king stood on before it. *)
Theorem huddle_picks_first_minimum_to_the_old_square (fen : string) (kingPos : BoardPos)
    (s : State) :
  let game := ChessJs.Chess fen in
  let distanceAfter mv :=
    totalDistanceTo (ChessJs.turn game) kingPos
      (ChessJs.move (ChessJs.Chess (ChessJs.fen game)) mv) in
  ChessJs.moves game <> [] ->
  findKing game (ChessJs.turn game) = Some kingPos ->
  exists i mv,
    Spec.firstMinimum distanceAfter (ChessJs.moves game) i
    /\ nth_error (ChessJs.moves game) i = Some mv
    /\ getHuddleMove fen s = (Normal (Some (toAIMove mv)), s).
Proof.
  intros game distanceAfter Hne Hking. unfold getHuddleMove. fold game. rewrite Hking.
  destruct (ChessJs.moves game) as [|first rest] eqn:Hmoves; [congruence|].
  assert (Hint : forall mv, In mv (first :: rest) -> exists z, distanceAfter mv = Js.Int z).
  { intros mv _. apply totalDistanceTo_integer. }
  destruct (closest_first_minimum distanceAfter (first :: rest) Hint [] first Js.Infinity)
    as (i & Hmin & Hnth); [now left | discriminate |].
  exists i, (closest distanceAfter (first :: rest) first Js.Infinity).
  split; [exact Hmin | split; [exact Hnth | reflexivity]].
Qed.



End Heuristics.

(** ** The profiles *)

(** X17.  Every level but [custom] gets its table entry, which carries the
    level's own name, whatever custom settings come with the call; and
    [custom] without custom settings gets the profile of [medium], level
    name included. *)
Theorem settings_for_level_carry_the_level (l : AILevel) (c : option Partial.t) :
  (l <> custom ->
   getSettingsForLevel l c = getSettingsForLevel l None
   /\ DEFAULT_SETTINGS l = Some (getSettingsForLevel l c)
   /\ level (getSettingsForLevel l c) = l)
  /\ getSettingsForLevel custom None = getSettingsForLevel medium c.
Proof.
  split.
  - intro Hl. destruct l; try congruence; destruct c; repeat split.
  - destruct c; reflexivity.
Qed.

Lemma last_of_app {A} (l1 l2 : list A) (d : A) :
  l2 <> [] -> last (l1 ++ l2)%list d = last l2 d.
Proof.
  intro Hne. induction l1 as [|a l1 IH]; [reflexivity|].
  simpl. rewrite IH. destruct (l1 ++ l2)%list eqn:E; [|reflexivity].
  apply app_eq_nil in E as [_ E]. congruence.
Qed.

(** X18.  The three engine profiles of the table bound the search by a move
    time between 500 and 2000 ms, which is what the [go] command carries,
    and the delay waited out by [getBestMove] is at least 100 ms longer. *)
Theorem table_profiles_search_by_move_time (l : AILevel) (c : option Partial.t)
    (fen : string) (customDelay : option Z) (s : State) (sent : list string) :
  l = easy \/ l = medium \/ l = hard ->
  worker s = Some sent ->
  let settings := getSettingsForLevel l c in
  exists t,
    time settings = Some t /\ 500 <= t <= 2000
    /\ last (match worker (snd (startSearch fen settings s)) with
             | Some posted => posted
             | None => []
             end) ""
       = "go movetime " ++ Js.string_of_Z t
    /\ t + 100 <= minimumDelayFor settings customDelay.
Proof.
  intros Hl Hw settings. subst settings.
  pose proof (startSearch_posts fen (getSettingsForLevel l c) s sent Hw) as Hp.
  rewrite Hp.
  destruct Hl as [-> | [-> | ->]]; destruct c;
    (eexists; split; [reflexivity|]; split; [lia|]; split;
     [unfold Spec.sentCommands; rewrite last_of_app by discriminate; reflexivity
     | unfold minimumDelayFor; simpl; lia]).
Qed.

(** X19.  Custom settings are passed on as they are, no default is filled in:
    with neither time, depth nor nodes the search is started by a bare
    [go], which nothing bounds but the 5000 ms time-out. *)
Theorem custom_settings_without_limit_send_bare_go (c : Partial.t) (fen : string)
    (s : State) (sent : list string) :
  Partial.time c = None -> Partial.depth c = None -> Partial.nodes c = None ->
  worker s = Some sent ->
  let settings := getSettingsForLevel custom (Some c) in
  time settings = None /\ depth settings = None /\ nodes settings = None
  /\ eloRating settings = Partial.eloRating c
  /\ limitStrength settings = Partial.limitStrength c
  /\ skillLevel settings = Partial.skillLevel c
  /\ exists before,
       worker (snd (startSearch fen settings s))
       = Some (sent ++ before ++ [("position fen " ++ fen)%string; "go"])%list.
Proof.
  intros Ht Hd Hn Hw settings. subst settings.
  rewrite (startSearch_posts fen _ s sent Hw).
  simpl. repeat split; auto.
  unfold Spec.sentCommands, Spec.goCommand. simpl. rewrite Ht, Hd, Hn. simpl.
  exists (Spec.sentStrength (getSettingsForLevel custom (Some c))
          ++ Spec.skillCommand (getSettingsForLevel custom (Some c)))%list.
  rewrite <- app_assoc. reflexivity.
Qed.

(** ** How long a call can take *)

Lemma forEachHandler_waiting_or_settled rid k due count index message s :
  Waiting rid k due s \/ settled (request rid s) <> None ->
  Waiting rid k due (forEachHandler count index message s)
  \/ settled (request rid (forEachHandler count index message s)) <> None.
Proof.
  revert index s. induction count as [|count IH]; intros index s H; simpl; [exact H|].
  apply IH. destruct (nth_error (messageHandlers s) index) as [h|]; [|exact H].
  destruct H as [W | Hs].
  - destruct (Nat.eq_dec h rid) as [-> | Hne].
    + destruct (settlesOn k message) eqn:Hm.
      * right. rewrite (callHandler_settles rid k message s (w_kind _ _ _ _ W) Hm
                          (w_unresolved _ _ _ _ W)).
        unfold request. rewrite finish_settled. discriminate.
      * left. rewrite (callHandler_ignores rid k); [exact W | apply W | exact Hm].
    + left. eapply Waiting_other; [apply callHandler_touches | exact Hne | exact W].
  - right. destruct (settled (request rid s)) as [o|] eqn:Ho; [|congruence].
    unfold request in *.
    rewrite (t_stable _ _ _ (callHandler_touches h message s) rid o Ho). discriminate.
Qed.

Lemma onmessage_waiting_or_settled rid k due message s :
  Waiting rid k due s ->
  Waiting rid k due (onmessage message s)
  \/ settled (request rid (onmessage message s)) <> None.
Proof.
  intro W. unfold onmessage.
  destruct (String.eqb message "uciok").
  - left. eapply Waiting_ext; [| | | |exact W]; unfold postMessage; simpl;
      destruct (worker s); try reflexivity; apply W.
  - destruct (String.eqb message "readyok").
    + left. destruct (uciReceived s); [|exact W].
      eapply Waiting_ext; [| | | |exact W]; try reflexivity. apply W.
    + apply forEachHandler_waiting_or_settled. now left.
Qed.

(** One turn of the loop, seen from a waiting request: the clock does not
    pass its deadline, and the request is still waiting or is settled. *)
Lemma tick_waiting rid k due s s' :
  Waiting rid k due s -> tick s = Some s' ->
  now s' <= due
  /\ (Waiting rid k due s' \/ settled (request rid s') <> None).
Proof.
  intros W Ht.
  assert (Hfire : forall t, earliest (timers s) = Some t ->
            now (fire t s) <= due
            /\ (Waiting rid k due (fire t s) \/ settled (request rid (fire t s)) <> None)).
  { intros t He. pose proof (earliest_In _ _ He) as Hin.
    destruct (Nat.eq_dec (fst t) rid) as [Heq | Hne].
    - assert (t = (rid, due)) as ->.
      { destruct t as [r d]. simpl in Heq. subst r. f_equal. apply (w_due _ _ _ _ W), Hin. }
      destruct (fire_waiting_own rid k due s W) as (H1 & _ & H3).
      split; [lia | right; rewrite H1; discriminate].
    - assert (Hle : snd t <= due) by (apply (earliest_least _ _ He (rid, due)), W).
      pose proof (fire_waiting_other rid k due t s W Hne Hle) as W'.
      split; [apply W' | now left]. }
  assert (Hdeliver : forall t at_ message rest,
            earliest (timers s) = Some t -> (snd t <=? at_) = false ->
            now (deliver at_ message (set_inbox rest s)) <= due
            /\ (Waiting rid k due (deliver at_ message (set_inbox rest s))
                \/ settled (request rid (deliver at_ message (set_inbox rest s))) <> None)).
  { intros t at_ message rest He Hc. apply Z.leb_gt in Hc.
    assert (Hle : snd t <= due) by (apply (earliest_least _ _ He (rid, due)), W).
    assert (W0 : Waiting rid k due (set_now (Z.max (now s) at_) (set_inbox rest s))).
    { eapply Waiting_ext; [| | | |exact W]; try reflexivity.
      simpl. pose proof (w_clock _ _ _ _ W). lia. }
    unfold deliver. simpl. destruct (worker s).
    - split; [rewrite onmessage_now; apply W0 | apply onmessage_waiting_or_settled, W0].
    - split; [apply W0 | now left]. }
  unfold tick in Ht.
  destruct (earliest_some (timers s)) as [t He].
  { intro E. pose proof (w_armed _ _ _ _ W) as Ha. rewrite E in Ha. contradiction. }
  rewrite He in Ht.
  destruct (inbox s) as [|[at_ message] rest].
  - inversion Ht; subst. apply Hfire, He.
  - destruct (snd t <=? at_) eqn:Hc; inversion Ht; subst.
    + apply Hfire, He.
    + eapply Hdeliver; eassumption.
Qed.

(** A waiting request is settled by its deadline. *)
Lemma run_bounded fuel rid k due s :
  Waiting rid k due s -> (pendingWork s <= fuel)%nat ->
  exists o, fst (run fuel rid s) = completionOf o /\ now (snd (run fuel rid s)) <= due.
Proof.
  revert s. induction fuel as [|fuel IH]; intros s W Hfuel.
  - exfalso. pose proof (w_armed _ _ _ _ W) as Ha. unfold pendingWork in Hfuel.
    destruct (timers s); [contradiction | simpl in Hfuel; lia].
  - simpl. rewrite (w_pending _ _ _ _ W).
    destruct (tick s) as [s'|] eqn:Ht.
    + destruct (tick_waiting rid k due s s' W Ht) as [Hn [W' | Hs]].
      * apply IH; [exact W'|]. pose proof (tick_work _ _ Ht). lia.
      * destruct (settled (request rid s')) as [o|] eqn:Ho; [|congruence].
        exists o. rewrite (run_done fuel rid o s' Ho). auto.
    + exfalso. unfold tick in Ht.
      destruct (earliest_some (timers s)) as [t He].
      { intro E. pose proof (w_armed _ _ _ _ W) as Ha. rewrite E in Ha. contradiction. }
      rewrite He in Ht. destruct (inbox s) as [|[a m] r]; [discriminate|].
      destruct (snd t <=? a); discriminate.
Qed.

Lemma engineSearch_bounded fen settings s :
  wellFormed s -> now (snd (engineSearch fen settings s)) <= now s + 5000.
Proof.
  intro W. unfold engineSearch.
  pose proof (startSearch_host fen settings s) as (Hrid & _ & Hn & _ & _ & _ & _ & Hh & Ht & Hq).
  destruct (startSearch fen settings s) as [rid s1]. simpl in *. subst rid.
  pose proof (started_waiting Search 5000 s s1 ltac:(lia) (wellFormed_unused s W) Hh Ht Hq Hn)
    as W1.
  destruct (run_bounded (pendingWork s1) (fresh s) Search _ s1 W1 (Nat.le_refl _))
    as (o & Ho & Hb).
  unfold await, bind. unfold pendingWork in Ho, Hb.
  destruct (run _ (fresh s) s1) as [[v|e|] s2]; simpl in *; exact Hb.
Qed.

(** X28.  An engine search on a session with a worker never throws and
    never hangs: it returns a move or null, no later than 5000 ms after it
    was started. *)
Theorem search_settles_in_time (fen : string) (settings : AISettings) (s : State)
    (sent : list string) :
  worker s = Some sent -> wellFormed s ->
  exists m s',
    engineSearch fen settings s = (Normal m, s')
    /\ now s <= now s' <= now s + 5000
    /\ wellFormed s'.
Proof.
  intros Hw W.
  destruct (engineSearch_returns fen settings s sent Hw) as (m & s' & _ & Hs & _).
  destruct (engineSearch_paced fen settings s W) as [W' Hc].
  pose proof (engineSearch_bounded fen settings s W) as Hb.
  rewrite Hs in W', Hc, Hb. simpl in W', Hc, Hb.
  exists m, s'. split; [exact Hs|]. split; [lia | exact W'].
Qed.

Section Bounds.

Context {chess : ChessJs.Api}.

Lemma evaluatePosition_bounded fen d s :
  wellFormed s -> now (snd (evaluatePosition fen d s)) <= now s + 3000.
Proof.
  intro W. unfold evaluatePosition.
  destruct (notReady s) eqn:Hready; [simpl; lia|].
  pose proof (startEvaluation_shape fen d s) as (Hrid & Hh & Ht & Hq).
  pose proof (startEvaluation_fresh fen d s) as [_ Hn].
  destruct (startEvaluation fen d s) as [rid s1]. simpl in *. subst rid.
  pose proof (started_waiting (Evaluate d) 3000 s s1 ltac:(lia) (wellFormed_unused s W)
                Hh Ht Hq Hn) as W1.
  destruct (run_bounded (pendingWork s1) (fresh s) (Evaluate d) _ s1 W1 (Nat.le_refl _))
    as (o & Ho & Hb).
  unfold await, bind. unfold pendingWork in Ho, Hb.
  destruct (run _ (fresh s) s1) as [[v|e|] s2]; simpl in *; exact Hb.
Qed.

(** X29.  [evaluatePosition] on a ready session never hangs and never
    yields NaN: it returns a number (the double nearest to the captured
    digits, so an integer, rounded above 2^53, or an infinity from 309
    digits on; 0 after a [bestmove] line) or throws the time-out error, no
    later than 3000 ms after the call, and the session is still ready. *)
Theorem evaluation_settles_in_time (fen : string) (d : Z) (s : State) :
  notReady s = false -> wellFormed s ->
  exists r s',
    evaluatePosition fen d s = (r, s')
    /\ ((exists n, r = Normal n /\ n <> Js.NaN) \/ r = Throw "Position evaluation timed out")
    /\ now s <= now s' <= now s + 3000
    /\ notReady s' = false /\ wellFormed s'.
Proof.
  intros Hn W.
  pose proof Hn as Hn'. apply notReady_false in Hn' as [Hr [sent Hw]].
  destruct (evaluatePosition_ready fen d s sent Hr Hw)
    as (r & s' & replies & Hs & Hres & Hr' & _ & Hw' & _ & _ & _ & Hc).
  destruct (evaluatePosition_paced fen d s W) as [W' _].
  pose proof (evaluatePosition_bounded fen d s W) as Hb.
  rewrite Hs in W', Hb. simpl in W', Hb.
  exists r, s'. split; [exact Hs|]. split; [exact Hres|]. split; [lia|].
  split; [apply notReady_false; eauto | exact W'].
Qed.

Lemma evaluateMoves_bounded fen d l :
  forall worstMove worstScore s,
    wellFormed s ->
    now (snd (evaluateMoves fen d l worstMove worstScore s))
    <= now s + 3000 * Z.of_nat (List.length l).
Proof.
  induction l as [|mv rest IH]; intros worstMove worstScore s W.
  - simpl. lia.
  - cbn [evaluateMoves].
    set (newFen := ChessJs.fen (ChessJs.move (ChessJs.Chess fen) mv)).
    destruct (evaluatePosition_paced newFen d s W) as [W1 _].
    pose proof (evaluatePosition_bounded newFen d s W) as Hb.
    destruct (evaluatePosition newFen d s) as [[score|e|] s1]; simpl in W1, Hb;
      cbv beta iota.
    + destruct (Js.lt score worstScore);
        [specialize (IH (Some (toAIMove mv)) score s1 W1)
        | specialize (IH worstMove worstScore s1 W1)];
        cbn [List.length]; lia.
    + specialize (IH worstMove worstScore s1 W1). cbn [List.length]. lia.
    + cbn [snd List.length]. lia.
Qed.

Lemma getWorstMove_bounded fen settings s :
  wellFormed s ->
  now (snd (getWorstMove fen settings s))
  <= now s + 3000 * Z.of_nat (List.length (ChessJs.moves (ChessJs.Chess fen))).
Proof.
  intro W. unfold getWorstMove.
  destruct (notReady s); [cbn [snd]; lia|].
  destruct (ChessJs.moves (ChessJs.Chess fen)) as [|mv1 [|mv2 rest]] eqn:Hm;
    try (cbn [snd List.length]; lia).
  unfold bind.
  pose proof (evaluateMoves_bounded fen (orElse (depth settings) 8) (mv1 :: mv2 :: rest)
                None Js.Infinity s W) as Hb.
  destruct (evaluateMoves_paced fen (orElse (depth settings) 8) (mv1 :: mv2 :: rest)
              None Js.Infinity s W) as [W1 _].
  destruct (evaluateMoves _ _ _ _ _ s) as [[[m|]|e|] s1]; cbn [snd fst] in *;
    try exact Hb.
  destruct (randomLegalMove_paced (mv1 :: mv2 :: rest) s1 W1) as [_ Hc].
  rewrite Hc. exact Hb.
Qed.

(** X27.  [getBestMove] returns in bounded time: no later than the minimum
    delay after the call, or the time its selector can take if that is
    longer (5000 ms for a search, 3000 ms for each legal move of worstfish,
    nothing for random, huddle and swarm). *)
Theorem best_move_returns_in_time (fen : string) (settings : AISettings)
    (customDelay : option Z) (s : State) (r : option AIMove) (s' : State) :
  wellFormed s ->
  getBestMove fen settings customDelay s = (Normal r, s') ->
  now s' <= Z.max (now s + selectorBudget fen settings)
                  (now s + minimumDelayFor settings customDelay).
Proof.
  intros W H. unfold getBestMove, minimumDelayFor, selectorBudget in *.
  destruct (level settings) eqn:Hl; cbv beta iota delta [engineBacked];
    try (destruct (notReady s); [discriminate|];
         destruct (engineSearch_paced fen settings s W) as [W1 Hc];
         pose proof (engineSearch_bounded fen settings s W) as Hb;
         apply (paced_tail _ _ _ _ W1) in H as [_ Hn]; lia).
  - destruct (getWorstMove_paced fen settings s W) as [W1 Hc].
    pose proof (getWorstMove_bounded fen settings s W) as Hb.
    apply (paced_tail _ _ _ _ W1) in H as [_ Hn]. lia.
  - destruct (getRandomMove_paced fen s W) as [W1 Hc].
    apply (paced_tail _ _ _ _ W1) in H as [_ Hn]. lia.
  - destruct (getHuddleMove_paced fen s W) as [W1 Hc].
    apply (paced_tail _ _ _ _ W1) in H as [_ Hn]. lia.
  - destruct (getSwarmMove_paced fen s W) as [W1 Hc].
    apply (paced_tail _ _ _ _ W1) in H as [_ Hn]. lia.
Qed.

End Bounds.

(** ** The life cycle of the worker *)

Lemma onmessage_host message s :
  worker (onmessage message s)
  = (if String.eqb message "uciok"
     then option_map (fun sent => (sent ++ ["isready"])%list) (worker s)
     else worker s)
  /\ uciReceived (onmessage message s) = (String.eqb message "uciok" || uciReceived s)
  /\ isReady (onmessage message s)
     = (isReady s || (String.eqb message "readyok" && uciReceived s)).
Proof.
  unfold onmessage.
  destruct (String.eqb_spec message "uciok") as [-> | Hu].
  - unfold postMessage. simpl.
    destruct (worker s) eqn:Hw; simpl; rewrite ?Hw, ?orb_false_r; auto.
  - destruct (String.eqb message "readyok").
    + destruct (uciReceived s) eqn:Hc; simpl; rewrite ?Hc, ?orb_true_r, ?orb_false_r; auto.
    + destruct (c_host _ _ (forEachHandler_calm (List.length (messageHandlers s)) 0 message s))
        as (Hw & Hr & Hc & _).
      rewrite Hw, Hr, Hc. simpl. rewrite orb_false_r. auto.
Qed.

Lemma Heard_refl ss : Heard ss ss.
Proof.
  constructor; auto.
  exists []. destruct (worker _); simpl; [rewrite app_nil_r|]; reflexivity.
Qed.

Lemma Heard_trans ss1 ss2 ss3 : Heard ss1 ss2 -> Heard ss2 ss3 -> Heard ss1 ss3.
Proof.
  intros [M1 L1 D1 [m1 W1] U1 R1 S1 O1 F1] [M2 L2 D2 [m2 W2] U2 R2 S2 O2 F2].
  constructor; try congruence; auto.
  - exists (m1 ++ m2)%list. rewrite W2, W1.
    destruct (worker (Lifecycle.service ss1)); simpl; [rewrite app_assoc|]; reflexivity.
  - intros p Hp. rewrite S2; [apply S1, Hp | rewrite S1; assumption].
  - intros p Hp. rewrite O2; [apply O1, Hp | congruence].
  - intros p. destruct (F2 p) as [H2 | H2]; [rewrite H2; apply F1 | now right].
Qed.

Lemma settleWith_spec p o ss q :
  Lifecycle.settleWith p o ss q
  = match Lifecycle.outcomes ss p with
    | Lifecycle.Pending => if Nat.eqb q p then o else Lifecycle.outcomes ss q
    | _ => Lifecycle.outcomes ss q
    end.
Proof. unfold Lifecycle.settleWith. destruct (Lifecycle.outcomes ss p); reflexivity. Qed.

Lemma receive_heard message ss : Heard ss (Lifecycle.receive message ss).
Proof.
  unfold Lifecycle.receive.
  destruct (worker (Lifecycle.service ss)) as [sent|] eqn:Hw; [|apply Heard_refl].
  destruct (onmessage_host message (Lifecycle.service ss)) as (Hw' & Hu' & Hr').
  assert (Hmore : exists more,
             worker (onmessage message (Lifecycle.service ss))
             = option_map (fun sent => (sent ++ more)%list) (worker (Lifecycle.service ss))).
  { rewrite Hw'. destruct (String.eqb message "uciok"); [eauto|].
    exists []. rewrite Hw. simpl. rewrite app_nil_r. reflexivity. }
  assert (Hu : uciReceived (Lifecycle.service ss) = true ->
               uciReceived (onmessage message (Lifecycle.service ss)) = true).
  { intro H. rewrite Hu', H. apply orb_true_r. }
  assert (Hr : isReady (Lifecycle.service ss) = true ->
               isReady (onmessage message (Lifecycle.service ss)) = true).
  { intro H. rewrite Hr', H. reflexivity. }
  rewrite Hw in Hmore.
  destruct (String.eqb message "readyok" && uciReceived (Lifecycle.service ss));
    constructor; simpl; auto; try (rewrite Hw; exact Hmore).
  - intros p Hp. destruct (Lifecycle.listener ss) as [l|]; [|reflexivity].
    rewrite settleWith_spec.
    destruct (Lifecycle.outcomes ss l) eqn:Hl; try reflexivity.
    destruct (Nat.eqb_spec p l); [congruence | reflexivity].
  - intros p Hp. destruct (Lifecycle.listener ss) as [l|]; [|reflexivity].
    rewrite settleWith_spec.
    destruct (Lifecycle.outcomes ss l) eqn:Hl; try reflexivity.
    destruct (Nat.eqb_spec p l); [congruence | reflexivity].
  - intros p. destruct (Lifecycle.listener ss) as [l|]; [|now left].
    rewrite settleWith_spec.
    destruct (Lifecycle.outcomes ss l) eqn:Hl; auto.
    destruct (Nat.eqb_spec p l); auto.
Qed.

Lemma heard_all messages ss :
  Heard ss (Lifecycle.after (map Lifecycle.Receive messages) ss).
Proof.
  revert ss. induction messages as [|m ms IH]; intro ss; simpl.
  - apply Heard_refl.
  - eapply Heard_trans; [apply receive_heard | apply IH].
Qed.

Lemma after_initialize failure script events ss :
  Lifecycle.after (Lifecycle.Initialize failure script :: events) ss
  = Lifecycle.after events (snd (Lifecycle.initialize failure script ss)).
Proof. reflexivity. Qed.

Lemma after_app events1 events2 ss :
  Lifecycle.after (events1 ++ events2) ss
  = Lifecycle.after events2 (Lifecycle.after events1 ss).
Proof. unfold Lifecycle.after. apply fold_left_app. Qed.

(** Lines with no [uciok] among them, heard before any [uciok]: nothing
    is posted, nothing is settled, the session does not become ready. *)
Lemma deaf_without_uciok messages ss :
  ~ In "uciok" messages ->
  uciReceived (Lifecycle.service ss) = false ->
  let ss' := Lifecycle.after (map Lifecycle.Receive messages) ss in
  worker (Lifecycle.service ss') = worker (Lifecycle.service ss)
  /\ uciReceived (Lifecycle.service ss') = false
  /\ isReady (Lifecycle.service ss') = isReady (Lifecycle.service ss)
  /\ Lifecycle.initializePromise ss' = Lifecycle.initializePromise ss
  /\ Lifecycle.outcomes ss' = Lifecycle.outcomes ss.
Proof.
  revert ss. induction messages as [|m ms IH]; intros ss Hno Hu; simpl; [auto|].
  assert (Hm : String.eqb m "uciok" = false).
  { destruct (String.eqb_spec m "uciok") as [-> |]; [|reflexivity].
    exfalso. apply Hno. now left. }
  assert (Hstep : worker (Lifecycle.service (Lifecycle.receive m ss))
                  = worker (Lifecycle.service ss)
                  /\ uciReceived (Lifecycle.service (Lifecycle.receive m ss)) = false
                  /\ isReady (Lifecycle.service (Lifecycle.receive m ss))
                     = isReady (Lifecycle.service ss)
                  /\ Lifecycle.initializePromise (Lifecycle.receive m ss)
                     = Lifecycle.initializePromise ss
                  /\ Lifecycle.outcomes (Lifecycle.receive m ss) = Lifecycle.outcomes ss).
  { unfold Lifecycle.receive.
    destruct (worker (Lifecycle.service ss)) eqn:Hw; [|rewrite Hw; auto].
    destruct (onmessage_host m (Lifecycle.service ss)) as (Hw' & Hu' & Hr').
    rewrite Hu, andb_false_r. simpl.
    rewrite Hw', Hu', Hr', Hm, Hu, Hw, andb_false_r, !orb_false_r. auto. }
  destruct Hstep as (H1 & H2 & H3 & H4 & H5).
  destruct (IH (Lifecycle.receive m ss)) as (K1 & K2 & K3 & K4 & K5);
    [intro; apply Hno; now right | exact H2 |].
  repeat split; congruence.
Qed.

Lemma initialize_starts script ss :
  notReady (Lifecycle.service ss) = true -> Lifecycle.initializePromise ss = None ->
  let started := snd (Lifecycle.initialize None script ss) in
  fst (Lifecycle.initialize None script ss) = Lifecycle.Following (Lifecycle.made ss)
  /\ worker (Lifecycle.service started) = Some ["uci"]
  /\ uciReceived (Lifecycle.service started) = false
  /\ isReady (Lifecycle.service started) = isReady (Lifecycle.service ss)
  /\ Lifecycle.initializePromise started = Some (Lifecycle.made ss)
  /\ Lifecycle.outcomes started (Lifecycle.made ss) = Lifecycle.Pending
  /\ (forall q, q <> Lifecycle.made ss ->
                Lifecycle.outcomes started q = Lifecycle.outcomes ss q)
  /\ Lifecycle.listener started = Some (Lifecycle.made ss)
  /\ Lifecycle.deadlines started = (Lifecycle.deadlines ss ++ [Lifecycle.made ss])%list
  /\ Lifecycle.made started = S (Lifecycle.made ss).
Proof.
  intros Hn Hp. unfold Lifecycle.initialize. rewrite Hn, Hp. simpl.
  rewrite Nat.eqb_refl. repeat split; auto.
  intros q Hq. destruct (Nat.eqb_spec q (Lifecycle.made ss)); [congruence | reflexivity].
Qed.

Lemma initialize_settled failure script ss :
  notReady (Lifecycle.service ss) = false ->
  Lifecycle.initialize failure script ss = (Lifecycle.Settled, ss).
Proof. intro H. unfold Lifecycle.initialize. rewrite H. reflexivity. Qed.

Lemma initialize_following failure script ss p :
  isReady (Lifecycle.service ss) = false -> Lifecycle.initializePromise ss = Some p ->
  Lifecycle.initialize failure script ss = (Lifecycle.Following p, ss).
Proof.
  intros H Hp. unfold Lifecycle.initialize, notReady. rewrite H, Hp. reflexivity.
Qed.

(** The handshake, heard by a live worker: whatever else is said before
    and between, after [uciok] and a later [readyok] the session is ready,
    [isready] was posted, the pending promise of the worker's closures is
    resolved and no settled promise is touched. *)
Lemma handshake_heard (pre mid : list string) (ss : Lifecycle.Session) (sent : list string) :
  worker (Lifecycle.service ss) = Some sent ->
  let ss' := Lifecycle.after
               (map Lifecycle.Receive (pre ++ "uciok" :: mid ++ ["readyok"])%list) ss in
  isReady (Lifecycle.service ss') = true
  /\ Lifecycle.initializePromise ss' = None
  /\ (exists more, worker (Lifecycle.service ss') = Some (sent ++ more)%list
                   /\ In "isready" more)
  /\ (forall p, Lifecycle.outcomes ss p <> Lifecycle.Pending ->
                Lifecycle.outcomes ss' p = Lifecycle.outcomes ss p)
  /\ (forall p, Lifecycle.listener ss = Some p ->
                Lifecycle.outcomes ss p = Lifecycle.Pending ->
                Lifecycle.outcomes ss' p = Lifecycle.Fulfilled).
Proof.
  intros Hw ss'. subst ss'.
  assert (E : Lifecycle.after
                (map Lifecycle.Receive (pre ++ "uciok" :: mid ++ ["readyok"])%list) ss
              = Lifecycle.step
                  (Lifecycle.after (map Lifecycle.Receive mid)
                     (Lifecycle.step (Lifecycle.after (map Lifecycle.Receive pre) ss)
                        (Lifecycle.Receive "uciok")))
                  (Lifecycle.Receive "readyok")).
  { unfold Lifecycle.after. rewrite map_app, fold_left_app. cbn [map fold_left].
    rewrite map_app, fold_left_app. reflexivity. }
  rewrite E. clear E.
  set (s1 := Lifecycle.after (map Lifecycle.Receive pre) ss).
  pose proof (heard_all pre ss) as H1. fold s1 in H1.
  destruct (h_worker _ _ H1) as [m1 Hw1]. rewrite Hw in Hw1. simpl in Hw1.
  set (s2 := Lifecycle.step s1 (Lifecycle.Receive "uciok")).
  assert (H2 : Heard s1 s2) by apply receive_heard.
  assert (Hw2 : worker (Lifecycle.service s2) = Some ((sent ++ m1) ++ ["isready"])%list).
  { subst s2. simpl. unfold Lifecycle.receive. rewrite Hw1. simpl.
    destruct (onmessage_host "uciok" (Lifecycle.service s1)) as (Hx & _).
    rewrite Hx, Hw1. reflexivity. }
  assert (Hu2 : uciReceived (Lifecycle.service s2) = true).
  { subst s2. simpl. unfold Lifecycle.receive. rewrite Hw1. simpl.
    destruct (onmessage_host "uciok" (Lifecycle.service s1)) as (_ & Hx & _).
    rewrite Hx. reflexivity. }
  set (s3 := Lifecycle.after (map Lifecycle.Receive mid) s2).
  pose proof (heard_all mid s2) as H3. fold s3 in H3.
  destruct (h_worker _ _ H3) as [m3 Hw3]. rewrite Hw2 in Hw3. simpl in Hw3.
  pose proof (h_uci _ _ H3 Hu2) as Hu3.
  pose proof (Heard_trans _ _ _ (Heard_trans _ _ _ H1 H2) H3) as H13.
  assert (Hfinal : Lifecycle.step s3 (Lifecycle.Receive "readyok")
                   = {| Lifecycle.service := onmessage "readyok" (Lifecycle.service s3);
                        Lifecycle.initializePromise := None;
                        Lifecycle.outcomes :=
                          match Lifecycle.listener s3 with
                          | Some p => Lifecycle.settleWith p Lifecycle.Fulfilled s3
                          | None => Lifecycle.outcomes s3
                          end;
                        Lifecycle.made := Lifecycle.made s3;
                        Lifecycle.listener := Lifecycle.listener s3;
                        Lifecycle.deadlines := Lifecycle.deadlines s3 |}).
  { simpl. unfold Lifecycle.receive. rewrite Hw3, Hu3. reflexivity. }
  rewrite Hfinal. simpl.
  destruct (onmessage_host "readyok" (Lifecycle.service s3)) as (Hx & _ & Hr).
  change ("readyok" =? "readyok")%string with true in Hr.
  change ("readyok" =? "uciok")%string with false in Hx. cbv iota in Hx.
  split; [rewrite Hr, Hu3; apply orb_true_r|].
  split; [reflexivity|].
  split.
  { exists (m1 ++ ["isready"] ++ m3)%list. rewrite Hx. simpl. rewrite Hw3.
    split; [rewrite <- !app_assoc; reflexivity|].
    apply in_or_app. right. now left. }
  split.
  - intros p Hp. rewrite <- (h_settled _ _ H13 p Hp).
    destruct (Lifecycle.listener s3) as [l|]; [|reflexivity].
    rewrite settleWith_spec.
    destruct (Lifecycle.outcomes s3 l) eqn:Hl; try reflexivity.
    destruct (Nat.eqb_spec p l) as [-> |]; [|reflexivity].
    rewrite (h_settled _ _ H13 l Hp) in Hl. congruence.
  - intros p Hl Hp. rewrite (h_listener _ _ H13), Hl, settleWith_spec.
    destruct (h_outcome _ _ H13 p) as [Ho | Ho]; rewrite Ho, ?Hp, ?Nat.eqb_refl; reflexivity.
Qed.

(** X20.  [initialize] on a session that is not ready and has no attempt
    pending makes a worker and posts [uci]; once the worker has said
    [uciok] and, later, [readyok] (whatever else it says before and between),
    the session is ready, [isready] was posted, the promise is resolved and
    the field is cleared; [initialize] then returns a resolved promise and
    changes nothing. *)
Theorem handshake_completes_initialization (ss : Lifecycle.Session)
    (script : list (Z * string)) (pre mid : list string) :
  notReady (Lifecycle.service ss) = true -> Lifecycle.initializePromise ss = None ->
  let p := Lifecycle.made ss in
  let ss' := Lifecycle.after
               (Lifecycle.Initialize None script
                :: map Lifecycle.Receive (pre ++ "uciok" :: mid ++ ["readyok"])%list) ss in
  fst (Lifecycle.initialize None script ss) = Lifecycle.Following p
  /\ isReady (Lifecycle.service ss') = true
  /\ Lifecycle.outcomes ss' p = Lifecycle.Fulfilled
  /\ Lifecycle.initializePromise ss' = None
  /\ (exists more, worker (Lifecycle.service ss') = Some ("uci" :: more)
                   /\ In "isready" more)
  /\ forall failure script',
       Lifecycle.initialize failure script' ss' = (Lifecycle.Settled, ss').
Proof.
  intros Hn Hp p ss'. subst p ss'.
  destruct (initialize_starts script ss Hn Hp)
    as (Hr & Hw & _ & _ & _ & Ho & _ & Hl & _).
  rewrite after_initialize.
  destruct (handshake_heard pre mid _ _ Hw) as (H1 & H2 & (more & H3 & H3') & _ & H5).
  split; [exact Hr|]. split; [exact H1|]. split; [apply H5; assumption|].
  split; [exact H2|]. split; [exists more; split; assumption|].
  intros failure script'. apply initialize_settled.
  unfold notReady. rewrite H1, H3. reflexivity.
Qed.

(** X21.  While the worker has not said [uciok], the attempt stays pending,
    whatever else the worker says ([readyok] included): nothing more is
    posted, the session is not ready, and every further call of
    [initialize] returns the same promise without making a worker. *)
Theorem pending_initialization_is_shared (ss : Lifecycle.Session)
    (script : list (Z * string)) (messages : list string) :
  isReady (Lifecycle.service ss) = false -> Lifecycle.initializePromise ss = None ->
  ~ In "uciok" messages ->
  let p := Lifecycle.made ss in
  let ss' := Lifecycle.after
               (Lifecycle.Initialize None script :: map Lifecycle.Receive messages) ss in
  isReady (Lifecycle.service ss') = false
  /\ worker (Lifecycle.service ss') = Some ["uci"]
  /\ Lifecycle.outcomes ss' p = Lifecycle.Pending
  /\ forall failure script',
       Lifecycle.initialize failure script' ss' = (Lifecycle.Following p, ss').
Proof.
  intros Hr Hp Hno p ss'. subst p ss'.
  assert (Hn : notReady (Lifecycle.service ss) = true) by (unfold notReady; rewrite Hr; reflexivity).
  destruct (initialize_starts script ss Hn Hp)
    as (_ & Hw & Hu & Hr1 & Hp1 & Ho & _).
  rewrite after_initialize.
  destruct (deaf_without_uciok messages _ Hno Hu) as (K1 & K2 & K3 & K4 & K5).
  assert (Hr' : isReady (Lifecycle.service
                  (Lifecycle.after (map Lifecycle.Receive messages)
                     (snd (Lifecycle.initialize None script ss)))) = false) by congruence.
  split; [exact Hr'|]. split; [congruence|]. split; [rewrite K5; exact Ho|].
  intros failure script'. apply initialize_following; congruence.
Qed.


Lemma after_step events e ss :
  Lifecycle.after (events ++ [e])%list ss = Lifecycle.step (Lifecycle.after events ss) e.
Proof. rewrite after_app. reflexivity. Qed.

(** X23.  If [new Worker] throws on the first call of [initialize], the service
    is out of order for good: the field keeps the rejected promise, since
    the assignment that stores it comes after the [catch] that clears it,
    and no timer is there to clear it later.  Whatever is called and
    whatever happens afterwards, [initialize] returns that rejected promise
    and never makes a worker. *)
Theorem failed_worker_construction_is_final (ss : Lifecycle.Session) (error : string)
    (script : list (Z * string)) (events : list Lifecycle.Event) :
  Lifecycle.idle ss ->
  let p := Lifecycle.made ss in
  let ss' := Lifecycle.after (Lifecycle.Initialize (Some error) script :: events) ss in
  fst (Lifecycle.initialize (Some error) script ss) = Lifecycle.Following p
  /\ Lifecycle.outcomes ss' p = Lifecycle.Failed error
  /\ worker (Lifecycle.service ss') = None
  /\ isReady (Lifecycle.service ss') = false
  /\ forall failure script',
       Lifecycle.initialize failure script' ss' = (Lifecycle.Following p, ss').
Proof.
  intros (Hw & Hr & Hp & Hd) p ss'. subst ss'. rewrite after_initialize.
  assert (Hn : notReady (Lifecycle.service ss) = true) by (unfold notReady; rewrite Hr; reflexivity).
  split; [unfold Lifecycle.initialize; rewrite Hn, Hp; reflexivity|].
  set (started := snd (Lifecycle.initialize (Some error) script ss)).
  assert (I0 : worker (Lifecycle.service started) = None
               /\ isReady (Lifecycle.service started) = false
               /\ Lifecycle.initializePromise started = Some p
               /\ Lifecycle.outcomes started p = Lifecycle.Failed error
               /\ Lifecycle.deadlines started = []).
  { subst started. unfold Lifecycle.initialize. rewrite Hn, Hp. simpl.
    rewrite Nat.eqb_refl. auto. }
  clearbody started.
  assert (I : worker (Lifecycle.service (Lifecycle.after events started)) = None
              /\ isReady (Lifecycle.service (Lifecycle.after events started)) = false
              /\ Lifecycle.initializePromise (Lifecycle.after events started) = Some p
              /\ Lifecycle.outcomes (Lifecycle.after events started) p = Lifecycle.Failed error
              /\ Lifecycle.deadlines (Lifecycle.after events started) = []).
  { revert started I0. induction events as [|e events IH]; intros st I0; [exact I0|].
    change (Lifecycle.after (e :: events) st)
      with (Lifecycle.after events (Lifecycle.step st e)).
    apply IH. destruct I0 as (H1 & H2 & H3 & H4 & H5).
    destruct e as [failure script'| message | | q |]; simpl.
    - rewrite (initialize_following failure script' st p H2 H3). simpl. auto.
    - unfold Lifecycle.receive. rewrite H1. auto.
    - unfold Lifecycle.onerror. rewrite H1. auto.
    - unfold Lifecycle.timeout. rewrite H5. simpl. auto.
    - unfold Lifecycle.terminate. simpl. auto. }
  destruct I as (H1 & H2 & H3 & H4 & H5).
  split; [exact H4|]. split; [exact H1|]. split; [exact H2|].
  intros failure script'. apply initialize_following; assumption.
Qed.

(** X24.  [terminate] during an attempt leaves the field set: until the timer
    of the attempt fires, every call of [initialize] returns the promise of
    the terminated attempt and makes no worker, whatever else happens.
    When the timer fires the promise is rejected with the time-out error,
    and only the call after that makes a worker again. *)
Theorem terminate_during_initialization_blocks_the_next (ss : Lifecycle.Session)
    (script script' : list (Z * string)) (events : list Lifecycle.Event) :
  Lifecycle.idle ss ->
  let p := Lifecycle.made ss in
  (forall e, In e events -> e <> Lifecycle.Timeout p) ->
  let blocked := Lifecycle.after
                   (Lifecycle.Initialize None script :: Lifecycle.Terminate :: events) ss in
  let expired := Lifecycle.timeout p blocked in
  (forall failure script'',
      Lifecycle.initialize failure script'' blocked = (Lifecycle.Following p, blocked))
  /\ worker (Lifecycle.service blocked) = None
  /\ Lifecycle.outcomes blocked p = Lifecycle.Pending
  /\ Lifecycle.outcomes expired p = Lifecycle.Failed "Stockfish initialization timed out"
  /\ fst (Lifecycle.initialize None script' expired) = Lifecycle.Following (S p)
  /\ worker (Lifecycle.service (snd (Lifecycle.initialize None script' expired)))
     = Some ["uci"].
Proof.
  intros (Hw & Hr & Hp & Hd) p Hev blocked expired.
  assert (Hn : notReady (Lifecycle.service ss) = true) by (unfold notReady; rewrite Hr; reflexivity).
  destruct (initialize_starts script ss Hn Hp)
    as (_ & Hw1 & _ & Hr1 & Hp1 & Ho1 & _ & _ & Hd1 & Hm1).
  fold p in Hp1, Ho1, Hd1, Hm1.
  set (started := Lifecycle.terminate (snd (Lifecycle.initialize None script ss))).
  assert (I0 : worker (Lifecycle.service started) = None
               /\ isReady (Lifecycle.service started) = false
               /\ Lifecycle.initializePromise started = Some p
               /\ Lifecycle.outcomes started p = Lifecycle.Pending
               /\ Lifecycle.deadlines started = [p]
               /\ Lifecycle.made started = S p).
  { subst started. unfold Lifecycle.terminate. simpl. rewrite Hd1, Hd, Hp1, Ho1, Hm1.
    repeat split. }
  assert (Eb : blocked = Lifecycle.after events started) by reflexivity.
  clearbody started.
  assert (I : worker (Lifecycle.service blocked) = None
              /\ isReady (Lifecycle.service blocked) = false
              /\ Lifecycle.initializePromise blocked = Some p
              /\ Lifecycle.outcomes blocked p = Lifecycle.Pending
              /\ Lifecycle.deadlines blocked = [p]
              /\ Lifecycle.made blocked = S p).
  { rewrite Eb. clear Eb expired blocked.
    revert started I0. induction events as [|e events IH]; intros st I0; [exact I0|].
    change (Lifecycle.after (e :: events) st)
      with (Lifecycle.after events (Lifecycle.step st e)).
    apply IH; [intros e' He'; apply Hev; now right|].
    destruct I0 as (H1 & H2 & H3 & H4 & H5 & H6).
    destruct e as [failure script''| message | | q |]; simpl.
    - rewrite (initialize_following failure script'' st p H2 H3). simpl. auto 10.
    - unfold Lifecycle.receive. rewrite H1. auto 10.
    - unfold Lifecycle.onerror. rewrite H1. auto 10.
    - unfold Lifecycle.timeout. rewrite H5. simpl.
      destruct (Nat.eqb_spec q p) as [-> | Hne]; [|simpl; auto 10].
      exfalso. apply (Hev (Lifecycle.Timeout p)); [now left | reflexivity].
    - unfold Lifecycle.terminate. simpl. auto 10. }
  destruct I as (H1 & H2 & H3 & H4 & H5 & H6).
  split; [intros; apply initialize_following; assumption|].
  split; [exact H1|]. split; [exact H4|].
  assert (Ee : expired
               = {| Lifecycle.service := Lifecycle.service blocked;
                    Lifecycle.initializePromise := None;
                    Lifecycle.outcomes :=
                      Lifecycle.settleWith p
                        (Lifecycle.Failed "Stockfish initialization timed out") blocked;
                    Lifecycle.made := Lifecycle.made blocked;
                    Lifecycle.listener := Lifecycle.listener blocked;
                    Lifecycle.deadlines := [] |}).
  { subst expired. unfold Lifecycle.timeout. rewrite H5, H2. simpl.
    rewrite Nat.eqb_refl. reflexivity. }
  split; [rewrite Ee; simpl; rewrite settleWith_spec, H4, Nat.eqb_refl; reflexivity|].
  assert (Hne : notReady (Lifecycle.service expired) = true)
    by (rewrite Ee; unfold notReady; simpl; rewrite H2; reflexivity).
  destruct (initialize_starts script' expired Hne) as (K1 & K2 & _);
    [rewrite Ee; reflexivity|].
  split; [rewrite K1, Ee; simpl; rewrite H6; reflexivity | exact K2].
Qed.



(** ** The further properties, on the positions of the book *)

Lemma ready_wellFormed lines rnd : wellFormed (Book.ready lines rnd).
Proof. split; [intros r H | intros r d H]; destruct H. Defined.

Lemma unsubscribed_request_is_not_touched_witness :
  let s := snd (startSearch Book.cornered (plain easy) (Book.ready [] (fun _ => Book.zero))) in
  let s' := fold_left (fun st message => onmessage message st)
              ["info depth 1 score cp 20"; "bestmove a8b8"] s in
  ~ In 1%nat (messageHandlers s)
  /\ request 1 s' = request 1 s /\ ~ In 1%nat (messageHandlers s').
Proof.
  intros s s'.
  assert (H : ~ In 1%nat (messageHandlers s)) by (vm_compute; intros [H | []]; discriminate H).
  split; [exact H|].
  exact (unsubscribed_request_is_not_touched 1
           ["info depth 1 score cp 20"; "bestmove a8b8"] s H).
Defined.

Lemma late_bestmove_is_dropped_witness :
  let s := Book.ready [(6000, "bestmove a8b8")] (fun _ => Book.zero) in
  let after := snd (engineSearch Book.cornered (plain easy) s) in
  fst (engineSearch Book.cornered (plain easy) s) = Normal None
  /\ settled (request (fresh s) after) = Some (Resolved (VMove None))
  /\ request (fresh s) (onmessage "bestmove a8b8" after) = request (fresh s) after.
Proof.
  intros s after.
  apply (late_bestmove_is_dropped Book.cornered (plain easy) s "bestmove a8b8").
  - split; [intros H | intros d H]; destruct H.
  - intros a m [H | []] Hlt. inversion H; subst. vm_compute in Hlt. discriminate Hlt.
Defined.

Lemma second_subscriber_misses_the_line_witness :
  let s0 := Book.ready [] (fun _ => Book.zero) in
  let s := snd (startSearch Book.forced (plain easy)
                  (snd (startSearch Book.cornered (plain easy) s0))) in
  let s' := onmessage "bestmove a8b8" s in
  messageHandlers s = [0; 1]%nat
  /\ settled (request 0 s') = Some (settlementOn Search "bestmove a8b8")
  /\ request 1 s' = request 1 s
  /\ messageHandlers s' = [1%nat].
Proof.
  intros s0 s s'.
  split; [reflexivity|].
  apply (second_subscriber_misses_the_line 0 1 Search "bestmove a8b8" s);
    [discriminate | reflexivity | reflexivity | reflexivity | reflexivity | reflexivity].
Defined.

Lemma search_returns_first_bestmove_witness :
  let s := Book.ready [ (10, "info depth 1 score cp 20");
                        (20, "bestmove a8b8 ponder e1e2");
                        (30, "bestmove a8a7") ] (fun _ => Book.zero) in
  exists s',
    engineSearch Book.cornered (plain easy) s
    = (Normal (parseBestMove "bestmove a8b8 ponder e1e2"), s')
    /\ messageHandlers s' = [] /\ timers s' = [] /\ inbox s' = [(30, "bestmove a8a7")]
    /\ now s' = Z.max (now s) (lastArrival 20 [(10, "info depth 1 score cp 20")]).
Proof.
  intro s.
  apply (search_returns_first_bestmove Book.cornered (plain easy) s ["uci"; "isready"]
           [(10, "info depth 1 score cp 20")] 20 "bestmove a8b8 ponder e1e2"
           [(30, "bestmove a8a7")]).
  - reflexivity.
  - split; reflexivity.
  - reflexivity.
  - intros a m [H | []]. inversion H; subst. split; reflexivity.
  - reflexivity.
  - reflexivity.
Defined.

Lemma evaluation_returns_first_accepted_line_witness :
  let s := Book.ready [ (10, "info depth 5 score cp 20");
                        (20, "info depth 8 score cp -35 nodes 9");
                        (30, "bestmove a8a7") ] (fun _ => Book.zero) in
  exists s',
    evaluatePosition Book.cornered 8 s
    = (Normal (scoreOn "info depth 8 score cp -35 nodes 9"), s')
    /\ (Js.startsWith "info depth 8 score cp -35 nodes 9" "bestmove" = true ->
        scoreOn "info depth 8 score cp -35 nodes 9" = Js.Int 0)
    /\ messageHandlers s' = [] /\ timers s' = [] /\ inbox s' = [(30, "bestmove a8a7")]
    /\ now s' = Z.max (now s) (lastArrival 20 [(10, "info depth 5 score cp 20")]).
Proof.
  intro s.
  apply (evaluation_returns_first_accepted_line Book.cornered 8 s
           [(10, "info depth 5 score cp 20")] 20 "info depth 8 score cp -35 nodes 9"
           [(30, "bestmove a8a7")]).
  - reflexivity.
  - split; reflexivity.
  - reflexivity.
  - intros a m [H | []]. inversion H; subst. split; reflexivity.
  - reflexivity.
  - vm_compute. reflexivity.
Defined.

Lemma best_move_waits_minimum_delay_witness :
  let s := Book.ready [] (fun _ => Book.zero) in
  let s' := snd (getBestMove Book.cornered (plain random) (Some 750) s) in
  now s + minimumDelayFor (plain random) (Some 750) <= now s'
  /\ (level (plain random) = random \/ level (plain random) = huddle
      \/ level (plain random) = swarm ->
      now s' = Z.max (now s) (now s + minimumDelayFor (plain random) (Some 750))).
Proof.
  intros s s'.
  apply (best_move_waits_minimum_delay Book.cornered (plain random) (Some 750) s
           (Some (toAIMove (Book.mk "Kb8" "a8" "b8"))) s').
  - apply ready_wellFormed.
  - vm_compute. reflexivity.
Defined.

Lemma best_move_settles_witness :
  getBestMove Book.cornered (plain worstfish) None (Book.cold (fun _ => Book.zero))
  = (Throw "Stockfish is not ready", Book.cold (fun _ => Book.zero))
  /\ exists r s',
       getBestMove "not a position" (plain easy) None
         (Book.ready [(40, "bestmove (none)")] (fun _ => Book.zero)) = (Normal r, s').
Proof.
  split.
  - apply (proj1 (best_move_settles Book.cornered (plain worstfish) None
                    (Book.cold (fun _ => Book.zero)))).
    reflexivity.
  - apply (proj2 (best_move_settles "not a position" (plain easy) None
                    (Book.ready [(40, "bestmove (none)")] (fun _ => Book.zero)))).
    split; reflexivity.
Defined.

Lemma search_times_out_at_deadline_witness :
  let s := Book.ready [(10, "info depth 1 score cp 20"); (6000, "bestmove a8b8")]
             (fun _ => Book.zero) in
  exists s' replies,
    engineSearch Book.cornered (plain easy) s = (Normal None, s')
    /\ now s' = now s + 5000
    /\ ~ In (fresh s) (messageHandlers s')
    /\ Forall (eq "isready") replies
    /\ worker s' = Some (["uci"; "isready"] ++ Spec.sentCommands Book.cornered (plain easy)
                                             ++ replies)%list
    /\ wellFormed s'.
Proof.
  intro s.
  apply (search_times_out_at_deadline Book.cornered (plain easy) s ["uci"; "isready"]).
  - reflexivity.
  - apply ready_wellFormed.
  - intros a m [H | [H | []]] Hlt; inversion H; subst;
      [reflexivity | vm_compute in Hlt; discriminate Hlt].
Defined.

Lemma evaluation_times_out_at_deadline_witness :
  let s := Book.ready [(10, "info depth 5 score cp 20"); (3500, "bestmove a8b8")]
             (fun _ => Book.zero) in
  exists s' sent replies,
    evaluatePosition Book.cornered 8 s = (Throw "Position evaluation timed out", s')
    /\ now s' = now s + 3000
    /\ ~ In (fresh s) (messageHandlers s')
    /\ worker s = Some sent
    /\ Forall (eq "isready") replies
    /\ worker s' = Some (sent ++ [("position fen " ++ Book.cornered)%string;
                                   ("go depth " ++ Js.string_of_Z 8)%string]
                               ++ replies)%list
    /\ notReady s' = false /\ wellFormed s'.
Proof.
  intro s.
  apply (evaluation_times_out_at_deadline Book.cornered 8 s).
  - reflexivity.
  - apply ready_wellFormed.
  - intros a m [H | [H | []]] Hlt; inversion H; subst;
      [vm_compute; reflexivity | vm_compute in Hlt; discriminate Hlt].
Defined.


Lemma terminated_search_resolves_null_witness :
  let s := Book.ready [(20, "bestmove a8b8")] (fun _ => Book.zero) in
  let rid := fst (startSearch Book.cornered (plain easy) s) in
  let s1 := snd (startSearch Book.cornered (plain easy) s) in
  exists s',
    await rid (terminate s1) = (Normal (VMove None), s')
    /\ now s' = now s + 5000
    /\ ~ In rid (messageHandlers s')
    /\ worker s' = None /\ isReady s' = false.
Proof.
  intro s.
  apply (terminated_search_resolves_null Book.cornered (plain easy) s).
  apply ready_wellFormed.
Defined.

Lemma terminate_stops_engine_work_witness :
  let s' := terminate (Book.ready [(20, "bestmove a8b8")] (fun _ => Book.zero)) in
  getBestMove Book.cornered (plain hard) None s' = (Throw "Stockfish is not ready", s')
  /\ fst (evaluatePosition Book.cornered 8 s') = Throw "Stockfish is not ready".
Proof.
  intro s'.
  pose proof (terminate_stops_engine_work Book.cornered (plain hard) None 8
                (Book.ready [(20, "bestmove a8b8")] (fun _ => Book.zero))) as H.
  split; [apply (proj1 H); reflexivity | apply (proj1 (proj2 H))].
Defined.

Lemma found_king_stands_on_its_square_witness :
  exists r f piece,
    {| file := 0; rank := 0 |} = {| file := Z.of_nat f; rank := Z.of_nat r |}
    /\ (r < 8)%nat /\ (f < 8)%nat
    /\ ChessJs.board (ChessJs.Chess Book.cornered) r f = Some piece
    /\ ChessJs.is_king (ChessJs.type piece) = true
    /\ ChessJs.color_eqb (ChessJs.color piece) ChessJs.White = true.
Proof.
  pose proof (found_king_stands_on_its_square (ChessJs.Chess Book.cornered) ChessJs.White) as H.
  assert (E : findKing (ChessJs.Chess Book.cornered) ChessJs.White
              = Some {| file := 0; rank := 0 |}) by (vm_compute; reflexivity).
  rewrite E in H. exact H.
Defined.

Lemma chebyshev_distance_on_the_board_witness :
  exists d,
    getChebyshevDistance (squareName 0 0) {| file := Z.of_nat 4; rank := Z.of_nat 7 |}
    = Js.Int d
    /\ d = Z.max (Z.abs (Z.of_nat 0 - Z.of_nat 4)) (Z.abs (Z.of_nat 0 - Z.of_nat 7))
    /\ 0 <= d <= 7
    /\ (d = 0 <-> 0%nat = 7%nat /\ 0%nat = 4%nat).
Proof. apply (chebyshev_distance_on_the_board 0 0 7 4); lia. Defined.

Lemma swarm_picks_first_minimum_witness :
  let game := ChessJs.Chess Book.cornered in
  let s := Book.ready [] (fun _ => Book.half) in
  let distanceAfter mv :=
    totalDistanceTo (ChessJs.turn game) {| file := 4; rank := 7 |}
      (ChessJs.move (ChessJs.Chess (ChessJs.fen game)) mv) in
  exists i mv,
    Spec.firstMinimum distanceAfter (ChessJs.moves game) i
    /\ nth_error (ChessJs.moves game) i = Some mv
    /\ getSwarmMove Book.cornered s = (Normal (Some (toAIMove mv)), s).
Proof.
  intros game s.
  apply (swarm_picks_first_minimum Book.cornered {| file := 4; rank := 7 |} s).
  - vm_compute. discriminate.
  - vm_compute. reflexivity.
Defined.

Lemma huddle_picks_first_minimum_to_the_old_square_witness :
  let game := ChessJs.Chess Book.cornered in
  let s := Book.ready [] (fun _ => Book.half) in
  let distanceAfter mv :=
    totalDistanceTo (ChessJs.turn game) {| file := 0; rank := 0 |}
      (ChessJs.move (ChessJs.Chess (ChessJs.fen game)) mv) in
  exists i mv,
    Spec.firstMinimum distanceAfter (ChessJs.moves game) i
    /\ nth_error (ChessJs.moves game) i = Some mv
    /\ getHuddleMove Book.cornered s = (Normal (Some (toAIMove mv)), s).
Proof.
  intros game s.
  apply (huddle_picks_first_minimum_to_the_old_square Book.cornered
           {| file := 0; rank := 0 |} s).
  - vm_compute. discriminate.
  - vm_compute. reflexivity.
Defined.

Lemma settings_for_level_carry_the_level_witness :
  let c := Some {| Partial.level := Some custom; Partial.depth := Some 12;
                   Partial.time := None; Partial.nodes := None;
                   Partial.eloRating := None; Partial.limitStrength := None;
                   Partial.skillLevel := Some 3 |} in
  getSettingsForLevel hard c = getSettingsForLevel hard None
  /\ DEFAULT_SETTINGS hard = Some (getSettingsForLevel hard c)
  /\ level (getSettingsForLevel hard c) = hard.
Proof.
  intro c. apply (proj1 (settings_for_level_carry_the_level hard c)). discriminate.
Defined.

Lemma table_profiles_search_by_move_time_witness :
  let s := Book.ready [] (fun _ => Book.zero) in
  let settings := getSettingsForLevel medium None in
  exists t,
    time settings = Some t /\ 500 <= t <= 2000
    /\ last (match worker (snd (startSearch Book.cornered settings s)) with
             | Some posted => posted
             | None => []
             end) ""
       = "go movetime " ++ Js.string_of_Z t
    /\ t + 100 <= minimumDelayFor settings (Some 200).
Proof.
  intro s.
  apply (table_profiles_search_by_move_time medium None Book.cornered (Some 200) s
           ["uci"; "isready"]).
  - right. left. reflexivity.
  - reflexivity.
Defined.

Lemma custom_settings_without_limit_send_bare_go_witness :
  let s := Book.ready [] (fun _ => Book.zero) in
  let c := {| Partial.level := None; Partial.depth := None;
              Partial.time := None; Partial.nodes := None;
              Partial.eloRating := Some 1500; Partial.limitStrength := Some true;
              Partial.skillLevel := None |} in
  let settings := getSettingsForLevel custom (Some c) in
  time settings = None /\ depth settings = None /\ nodes settings = None
  /\ eloRating settings = Partial.eloRating c
  /\ limitStrength settings = Partial.limitStrength c
  /\ skillLevel settings = Partial.skillLevel c
  /\ exists before,
       worker (snd (startSearch Book.cornered settings s))
       = Some (["uci"; "isready"] ++ before
               ++ [("position fen " ++ Book.cornered)%string; "go"])%list.
Proof.
  intros s c.
  apply (custom_settings_without_limit_send_bare_go c Book.cornered s ["uci"; "isready"]);
    reflexivity.
Defined.

Lemma chessAI_idle rnd : Lifecycle.idle (chessAI rnd).
Proof. repeat split. Defined.

Lemma handshake_completes_initialization_witness :
  let ss := chessAI (fun _ => Book.zero) in
  let ss' := Lifecycle.after
               (Lifecycle.Initialize None []
                :: map Lifecycle.Receive
                     (["Stockfish 16"; "readyok"]
                      ++ "uciok" :: ["info string NNUE"] ++ ["readyok"])%list) ss in
  fst (Lifecycle.initialize None [] ss) = Lifecycle.Following (Lifecycle.made ss)
  /\ isReady (Lifecycle.service ss') = true
  /\ Lifecycle.outcomes ss' (Lifecycle.made ss) = Lifecycle.Fulfilled
  /\ Lifecycle.initializePromise ss' = None
  /\ (exists more, worker (Lifecycle.service ss') = Some ("uci" :: more)
                   /\ In "isready" more)
  /\ forall failure script',
       Lifecycle.initialize failure script' ss' = (Lifecycle.Settled, ss').
Proof.
  intro ss.
  apply (handshake_completes_initialization ss [] ["Stockfish 16"; "readyok"]
           ["info string NNUE"]); reflexivity.
Defined.

Lemma pending_initialization_is_shared_witness :
  let ss := chessAI (fun _ => Book.zero) in
  let ss' := Lifecycle.after
               (Lifecycle.Initialize None []
                :: map Lifecycle.Receive ["Stockfish 16"; "readyok"]) ss in
  isReady (Lifecycle.service ss') = false
  /\ worker (Lifecycle.service ss') = Some ["uci"]
  /\ Lifecycle.outcomes ss' (Lifecycle.made ss) = Lifecycle.Pending
  /\ forall failure script',
       Lifecycle.initialize failure script' ss' = (Lifecycle.Following (Lifecycle.made ss), ss').
Proof.
  intro ss.
  apply (pending_initialization_is_shared ss [] ["Stockfish 16"; "readyok"]);
    [reflexivity | reflexivity |].
  intros [H | [H | []]]; discriminate H.
Defined.


Lemma failed_worker_construction_is_final_witness :
  let ss := chessAI (fun _ => Book.zero) in
  let p := Lifecycle.made ss in
  let ss' := Lifecycle.after
               (Lifecycle.Initialize (Some "SecurityError") []
                :: [Lifecycle.Timeout 0; Lifecycle.Initialize None [];
                    Lifecycle.Terminate; Lifecycle.Initialize None []]) ss in
  fst (Lifecycle.initialize (Some "SecurityError") [] ss) = Lifecycle.Following p
  /\ Lifecycle.outcomes ss' p = Lifecycle.Failed "SecurityError"
  /\ worker (Lifecycle.service ss') = None
  /\ isReady (Lifecycle.service ss') = false
  /\ forall failure script',
       Lifecycle.initialize failure script' ss' = (Lifecycle.Following p, ss').
Proof.
  intro ss.
  apply (failed_worker_construction_is_final ss "SecurityError" []
           [Lifecycle.Timeout 0; Lifecycle.Initialize None [];
            Lifecycle.Terminate; Lifecycle.Initialize None []]).
  apply chessAI_idle.
Defined.

Lemma terminate_during_initialization_blocks_the_next_witness :
  let ss := chessAI (fun _ => Book.zero) in
  let p := Lifecycle.made ss in
  let blocked := Lifecycle.after
                   (Lifecycle.Initialize None [] :: Lifecycle.Terminate
                    :: [Lifecycle.Receive "uciok"; Lifecycle.Initialize None []]) ss in
  let expired := Lifecycle.timeout p blocked in
  (forall failure script'',
      Lifecycle.initialize failure script'' blocked = (Lifecycle.Following p, blocked))
  /\ worker (Lifecycle.service blocked) = None
  /\ Lifecycle.outcomes blocked p = Lifecycle.Pending
  /\ Lifecycle.outcomes expired p = Lifecycle.Failed "Stockfish initialization timed out"
  /\ fst (Lifecycle.initialize None [] expired) = Lifecycle.Following (S p)
  /\ worker (Lifecycle.service (snd (Lifecycle.initialize None [] expired)))
     = Some ["uci"].
Proof.
  intro ss.
  apply (terminate_during_initialization_blocks_the_next ss [] []
           [Lifecycle.Receive "uciok"; Lifecycle.Initialize None []]).
  - apply chessAI_idle.
  - intros e [H | [H | []]]; subst e; discriminate.
Defined.



Lemma best_move_returns_in_time_witness :
  let s := Book.ready [(20, "bestmove a8b8")] (fun _ => Book.zero) in
  let settings := getSettingsForLevel hard None in
  let s' := snd (getBestMove Book.cornered settings None s) in
  now s' <= Z.max (now s + selectorBudget Book.cornered settings)
                  (now s + minimumDelayFor settings None).
Proof.
  intros s settings s'.
  apply (best_move_returns_in_time Book.cornered settings None s
           (Some {| from := "a8"; to := "b8"; promotion := None |}) s').
  - apply ready_wellFormed.
  - vm_compute. reflexivity.
Defined.

Lemma search_settles_in_time_witness :
  let s := Book.ready [(20, "info depth 1 score cp 3")] (fun _ => Book.zero) in
  exists m s',
    engineSearch Book.cornered (plain easy) s = (Normal m, s')
    /\ now s <= now s' <= now s + 5000
    /\ wellFormed s'.
Proof.
  intro s.
  apply (search_settles_in_time Book.cornered (plain easy) s ["uci"; "isready"]).
  - reflexivity.
  - apply ready_wellFormed.
Defined.

Lemma evaluation_settles_in_time_witness :
  let s := Book.ready [(20, "info depth 8 score cp 3")] (fun _ => Book.zero) in
  exists r s',
    evaluatePosition Book.cornered 8 s = (r, s')
    /\ ((exists n, r = Normal n /\ n <> Js.NaN) \/ r = Throw "Position evaluation timed out")
    /\ now s <= now s' <= now s + 3000
    /\ notReady s' = false /\ wellFormed s'.
Proof.
  intro s.
  apply (evaluation_settles_in_time Book.cornered 8 s).
  - reflexivity.
  - apply ready_wellFormed.
Defined.
